(** * paintworld: collaborative grid synchronisation engine

    A shallow embedding of the painting components of the repository
    (CollaborativeCanvas.jsx, components/PaintCanvas.tsx,
    lib/performance.ts, lib/supabase.ts and the row-level policies of
    database-schema.sql) together with the properties of the design
    document that can be decided on them.

    Conventions of the embedding.
    - Grid coordinates are JavaScript numbers holding integers; they are
      modelled as [Z].  All integer arithmetic of the sources stays far
      below 2^53, so it is exact.
    - [Map] objects used as caches are [gmap string _]; [Map] objects
      whose iteration order reaches the store ([Array.from(m.values())])
      are insertion-ordered association lists ([JsMap]).
    - React [setState(prev => ...)] updaters are run in program order on
      an explicit component state; effects on the canvas, the realtime
      channel and the store are appended to a log kept in that state.
    - A callback reads the values of the render that built it; its
      [setState(prev => ...)] updaters and its refs read the live ones.
      Where the program runs a callback of an earlier render, the value
      it closed over is an argument of the definition: the user id of
      [handleRealtimeUpdate] of PaintCanvas (the handler subscribed at
      mount), the batch of [processPaintBatch] (the closure the timer
      was given) and the charges of the batched write of
      CollaborativeCanvas.  The other handlers are re-registered on
      every render and read the component state current at the call. *)

From Stdlib Require Import ZArith QArith Qround List Lia Bool Ascii String.
From stdpp Require Import base option list gmap strings pretty.

Open Scope Z_scope.

(** ** Cells and cell keys *)

Record cell := Cell { cell_x : Z; cell_y : Z }.

#[global] Instance cell_eq_dec : EqDecision cell.
Proof. solve_decision. Defined.

(** [`${x},${y}`] on integer-valued numbers: [getPaintKey] of
    PaintCanvas.tsx, [cellKey] of CollaborativeCanvas.jsx and
    [hashCoordinate] of lib/performance.ts are the same template. *)
Definition hashCoordinate (x y : Z) : string :=
  pretty x +:+ "," +:+ pretty y.

Fixpoint comma_free (s : string) : bool :=
  match s with
  | EmptyString => true
  | String c rest => negb (Ascii.eqb c ","%char) && comma_free rest
  end.

(** ** Stroke rasterizer: [getLineCells] of CollaborativeCanvas.jsx *)

Module Rasterizer.

(** One run of the [while (true)] loop.  The loop has no bound in the
    source, so the model carries fuel and returns [None] when it runs
    out; [cells.push] followed by the recursive rest of the loop is a
    cons. *)
Fixpoint getLineCells_loop (fuel : nat) (dx dy sx sy x1 y1 : Z)
    (err x y : Z) : option (list cell) :=
  match fuel with
  | O => None
  | S fuel' =>
      if (x =? x1) && (y =? y1) then Some [Cell x y]
      else
        let e2 := 2 * err in
        let err1 := if e2 >? - dy then err - dy else err in
        let x' := if e2 >? - dy then x + sx else x in
        let err2 := if e2 <? dx then err1 + dx else err1 in
        let y' := if e2 <? dx then y + sy else y in
        cons (Cell x y) <$>
          getLineCells_loop fuel' dx dy sx sy x1 y1 err2 x' y'
  end.

Definition getLineCells (fuel : nat) (x0 y0 x1 y1 : Z) : option (list cell) :=
  let dx := Z.abs (x1 - x0) in
  let dy := Z.abs (y1 - y0) in
  let sx := if x0 <? x1 then 1 else -1 in
  let sy := if y0 <? y1 then 1 else -1 in
  let err := dx - dy in
  getLineCells_loop fuel dx dy sx sy x1 y1 err x0 y0.

(** Number of loop iterations the stroke between two cells needs. *)
Definition stroke_steps (from to : cell) : nat :=
  S (Z.to_nat (Z.max (Z.abs (cell_x to - cell_x from))
                     (Z.abs (cell_y to - cell_y from)))).

(** [lineCells from to] of the design document: the value [getLineCells]
    returns, read off at a fuel that is shown to be sufficient below. *)
Definition lineCells (from to : cell) : list cell :=
  default [] (getLineCells (stroke_steps from to)
                (cell_x from) (cell_y from) (cell_x to) (cell_y to)).

(** Closed form of the rasterizer: offset along the minor axis after [k]
    steps along the major axis, rounding exact halves towards the start
    of the stroke. *)
Definition minor_offset (major minor k : Z) : Z :=
  (2 * k * minor + major - 1) `div` (2 * major).

Definition xmajor_cell (a b sx sy x0 y0 i : Z) : cell :=
  Cell (x0 + sx * i) (y0 + sy * minor_offset a b i).

Definition ymajor_cell (a b sx sy x0 y0 i : Z) : cell :=
  Cell (x0 + sx * minor_offset b a i) (y0 + sy * i).

Definition cell_at (x0 y0 x1 y1 i : Z) : cell :=
  let dx := Z.abs (x1 - x0) in
  let dy := Z.abs (y1 - y0) in
  let sx := if x0 <? x1 then 1 else -1 in
  let sy := if y0 <? y1 then 1 else -1 in
  if dy <=? dx
  then xmajor_cell dx dy sx sy x0 y0 i
  else ymajor_cell dx dy sx sy x0 y0 i.

Definition closed_form (x0 y0 x1 y1 : Z) : list cell :=
  cell_at x0 y0 x1 y1 <$>
    seqZ 0 (Z.max (Z.abs (x1 - x0)) (Z.abs (y1 - y0)) + 1).

(** A stroke has a tie at step [k] when the ideal line passes exactly
    half-way between two cells there. *)
Definition tie_at (major minor k : Z) : bool :=
  (2 * k * minor + major) `mod` (2 * major) =? 0.

Definition tie_free (from to : cell) : bool :=
  let dx := Z.abs (cell_x to - cell_x from) in
  let dy := Z.abs (cell_y to - cell_y from) in
  forallb (fun k => negb (tie_at (Z.max dx dy) (Z.min dx dy) k))
          (seqZ 1 (Z.max dx dy - 1)).

(** Horizontal, vertical and diagonal strokes. *)
Definition straight (from to : cell) : bool :=
  let dx := Z.abs (cell_x to - cell_x from) in
  let dy := Z.abs (cell_y to - cell_y from) in
  (dx =? 0) || (dy =? 0) || (dx =? dy).

End Rasterizer.

(** ** JavaScript numbers for the coordinate projection

    Finite values are exact rationals: the rounding of IEEE doubles,
    overflow and the sign of zero are not represented.  The special
    values are, because the clamp of [gridCoordsFromLatLng] treats them
    differently from finite ones. *)

Module Js.

Inductive number := Fin (q : Q) | PosInf | NegInf | NaN.

Definition of_Z (z : Z) : number := Fin (inject_Z z).

Definition Qpositive (q : Q) : bool := 0 <? Qnum q.
Definition Qnegative (q : Q) : bool := Qnum q <? 0.

Definition add (a b : number) : number :=
  match a, b with
  | NaN, _ | _, NaN => NaN
  | PosInf, NegInf | NegInf, PosInf => NaN
  | PosInf, _ | _, PosInf => PosInf
  | NegInf, _ | _, NegInf => NegInf
  | Fin p, Fin q => Fin (p + q)
  end.

Definition scale_inf (positive_inf : bool) (q : Q) : number :=
  if Qpositive q then (if positive_inf then PosInf else NegInf)
  else if Qnegative q then (if positive_inf then NegInf else PosInf)
  else NaN.

Definition mul (a b : number) : number :=
  match a, b with
  | NaN, _ | _, NaN => NaN
  | Fin p, Fin q => Fin (p * q)
  | Fin p, PosInf | PosInf, Fin p => scale_inf true p
  | Fin p, NegInf | NegInf, Fin p => scale_inf false p
  | PosInf, PosInf | NegInf, NegInf => PosInf
  | PosInf, NegInf | NegInf, PosInf => NegInf
  end.

Definition div (a b : number) : number :=
  match a, b with
  | NaN, _ | _, NaN => NaN
  | Fin p, Fin q =>
      if Qnum q =? 0 then scale_inf true p else Fin (p / q)
  | Fin _, _ => Fin 0
  | PosInf, Fin q => if Qnegative q then NegInf else PosInf
  | NegInf, Fin q => if Qnegative q then PosInf else NegInf
  | _, _ => NaN
  end.

Definition Math_floor (a : number) : number :=
  match a with
  | Fin q => of_Z (Qfloor q)
  | other => other
  end.

Definition Math_min (a b : number) : number :=
  match a, b with
  | NaN, _ | _, NaN => NaN
  | NegInf, _ | _, NegInf => NegInf
  | PosInf, other | other, PosInf => other
  | Fin p, Fin q => if Qle_bool p q then Fin p else Fin q
  end.

Definition Math_max (a b : number) : number :=
  match a, b with
  | NaN, _ | _, NaN => NaN
  | PosInf, _ | _, PosInf => PosInf
  | NegInf, other | other, NegInf => other
  | Fin p, Fin q => if Qle_bool p q then Fin q else Fin p
  end.

End Js.

(** ** Grid addressing *)

Module Grid.

Definition CELL_SIZE_METERS : Q := 200375 # 10000.   (* 20.0375 *)
Definition HALF_WORLD : Q := 2003750834 # 100.       (* 20037508.34 *)
Definition MAX_INDEX : Z := 1999999.

Section Projection.

(** [lat => Math.log(Math.tan((90 + lat) * Math.PI / 360)) / (Math.PI / 180)]:
    the transcendental part of [toWebMercator], kept as a parameter. *)
Variable mercator_degrees : Js.number -> Js.number.

Definition toWebMercator (lng lat : Js.number) : Js.number * Js.number :=
  let x := Js.div (Js.mul lng (Js.Fin HALF_WORLD)) (Js.of_Z 180) in
  let y := mercator_degrees lat in
  let yMercator := Js.div (Js.mul y (Js.Fin HALF_WORLD)) (Js.of_Z 180) in
  (x, yMercator).

Definition gridCoordsFromLatLng (lng lat : Js.number)
    : Js.number * Js.number :=
  let '(x, y) := toWebMercator lng lat in
  let gridX :=
    Js.Math_floor (Js.div (Js.add x (Js.Fin HALF_WORLD))
                          (Js.Fin CELL_SIZE_METERS)) in
  let gridY :=
    Js.Math_floor (Js.div (Js.add y (Js.Fin HALF_WORLD))
                          (Js.Fin CELL_SIZE_METERS)) in
  (Js.Math_max (Js.of_Z 0) (Js.Math_min (Js.of_Z MAX_INDEX) gridX),
   Js.Math_max (Js.of_Z 0) (Js.Math_min (Js.of_Z MAX_INDEX) gridY)).

End Projection.

(** The cell computed by [handleMapClick] of PaintCanvas.tsx from the
    [lngLat] of a map event (both components are finite numbers). *)
Definition clickCell (lng lat : Q) : Z * Z :=
  (Qfloor (lng / CELL_SIZE_METERS), Qfloor (lat / CELL_SIZE_METERS)).

(** The clamp written as one case analysis on the projected value:
    add the half-world offset, divide by the cell edge, floor, saturate. *)
Definition saturate (projected : Js.number) : Js.number :=
  match projected with
  | Js.Fin x =>
      Js.of_Z (Z.max 0 (Z.min MAX_INDEX
                 (Qfloor ((x + HALF_WORLD) / CELL_SIZE_METERS))))
  | Js.PosInf => Js.of_Z MAX_INDEX
  | Js.NegInf => Js.of_Z 0
  | Js.NaN => Js.NaN
  end.

(** An axis value is a valid grid index. *)
Definition in_grid (n : Js.number) : Prop :=
  exists z : Z, n = Js.of_Z z /\ 0 <= z < 2000000.

(** What the clamp makes of a projected axis value. *)
Definition clamped_axis (projected out : Js.number) : Prop :=
  match projected with
  | Js.NaN => out = Js.NaN
  | _ => in_grid out
  end.

End Grid.

(** ** [Map] with insertion order

    [set] on a present key keeps the key's position, as in JavaScript;
    [values] lists the values in insertion order. *)

Module JsMap.

Section Ops.
Context {V : Type}.

Definition t := list (string * V).

Definition empty : t := [].

Fixpoint get (k : string) (m : t) : option V :=
  match m with
  | [] => None
  | (k', v) :: m' => if String.eqb k k' then Some v else get k m'
  end.

Fixpoint set (k : string) (v : V) (m : t) : t :=
  match m with
  | [] => [(k, v)]
  | (k', v') :: m' =>
      if String.eqb k k' then (k, v) :: m' else (k', v') :: set k v m'
  end.

Definition has (k : string) (m : t) : bool :=
  match get k m with Some _ => true | None => false end.

Definition values (m : t) : list V := List.map snd m.

Definition keys (m : t) : list string := List.map fst m.

Definition size (m : t) : nat := length m.

End Ops.

Arguments t : clear implicits.

End JsMap.

(** Every entry sits under the key of the cell its value names. *)
Definition keyed_by_cell {V : Type} (vx vy : V -> Z) (m : JsMap.t V) : Prop :=
  Forall (fun kv : string * V => kv.1 = hashCoordinate (vx kv.2) (vy kv.2)) m.

(** ** The persistent store, as far as the flushes use it

    Rows of the [paints] table and the requests the components build
    with the query builder.  The semantics of [select ... single] and of
    [delete] under the row-level policy [paints_delete_owner]
    ([USING (owner = auth.uid())], database-schema.sql) are written out;
    what an upsert does to the table is left to the caller. *)

Module Store.

Record row := Row {
  row_id : Z;
  row_x : Z;
  row_y : Z;
  row_color : option string;
  row_owner : string;
  row_owner_name : option string;
  row_owner_avatar : option string
}.

(** A row as sent by [upsert]: no [id], no [updated_at]. *)
Record upsert_row := UpsertRow {
  up_x : Z;
  up_y : Z;
  up_color : option string;
  up_owner : string;
  up_owner_name : option string;
  up_owner_avatar : option string
}.

Inductive filter :=
  | EqX (x : Z)
  | EqY (y : Z)
  | EqOwner (owner : string)
  | EqId (id : Z).

Inductive request :=
  | Upsert (rows : list upsert_row)          (* onConflict: 'x,y' *)
  | SelectIdSingle (filters : list filter)
  | Delete (filters : list filter).

Definition matches (r : row) (f : filter) : bool :=
  match f with
  | EqX x => row_x r =? x
  | EqY y => row_y r =? y
  | EqOwner o => String.eqb (row_owner r) o
  | EqId i => row_id r =? i
  end.

Definition matches_all (fs : list filter) (r : row) : bool :=
  forallb (matches r) fs.

(** [.single()]: the row when exactly one row matches; otherwise [data]
    is [null] and an error object comes back with it. *)
Definition select_single (fs : list filter) (rows : list row) : option row :=
  match List.filter (matches_all fs) rows with
  | [r] => Some r
  | _ => None
  end.

(** [delete] removes the matching rows that the policy lets the session
    user [uid] delete. *)
Definition delete_where (uid : string) (fs : list filter) (rows : list row)
    : list row :=
  List.filter (fun r => negb (matches_all fs r && String.eqb (row_owner r) uid))
              rows.

#[global] Instance row_eq_dec : EqDecision row.
Proof. solve_decision. Defined.

End Store.

(** ** components/PaintCanvas.tsx *)

Module PaintCanvas.

(** [Paint] of lib/supabase.ts. *)
Record Paint := mkPaint {
  paint_id : option Z;
  paint_x : Z;
  paint_y : Z;
  paint_color : option string;          (* null for erased pixels *)
  paint_owner : string;
  paint_updated_at : option string;
  paint_owner_name : option string;
  paint_owner_avatar : option string
}.

Record PaintUpdate := mkPaintUpdate {
  pu_x : Z;
  pu_y : Z;
  pu_color : option string;
  pu_owner : string;
  pu_owner_name : option string;
  pu_owner_avatar : option string;
  pu_timestamp : Z
}.

Record PaintDelete := mkPaintDelete {
  pd_x : Z;
  pd_y : Z;
  pd_owner : string;
  pd_timestamp : Z
}.

Inductive RealtimeMessage :=
  | MsgPaint (data : PaintUpdate)
  | MsgDelete (data : PaintDelete)
  | MsgPing (timestamp : Z).

Record PendingPaint := mkPendingPaint {
  pp_x : Z;
  pp_y : Z;
  pp_color : option string;
  pp_owner : string;
  pp_timestamp : Z
}.

Record PaintBatch := mkPaintBatch {
  batch_paints : list PaintUpdate;
  batch_deletes : list PaintDelete
}.

Inductive effect :=
  | RenderCanvas                        (* a call of renderCanvas *)
  | ScheduleCanvasRender                (* a call of scheduleCanvasRender *)
  | RequestAnimationFrame
  | Broadcast (m : RealtimeMessage)
  | ConsoleError
  | SetBatchTimeout
  | StoreRequest (r : Store.request).

Record state := mkState {
  userId : option string;
  userName : string;
  userAvatar : string;
  isPainting : bool;
  selectedColor : string;
  mapReady : bool;                      (* mapRef.current is set *)
  channelConnected : bool;
  paints : gmap string Paint;
  pendingPaints : gmap string PendingPaint;
  paintBatch : PaintBatch;
  batchTimeout : bool;                  (* batchTimeoutRef.current is set *)
  animationFrame : bool;                (* animationFrameRef.current is set *)
  effects : list effect                 (* oldest first *)
}.

Definition getPaintKey (x y : Z) : string := hashCoordinate x y.

Definition set_paints (f : gmap string Paint -> gmap string Paint) (s : state) : state :=
  mkState (userId s) (userName s) (userAvatar s) (isPainting s)
    (selectedColor s) (mapReady s) (channelConnected s)
    (f (paints s)) (pendingPaints s) (paintBatch s)
    (batchTimeout s) (animationFrame s) (effects s).

Definition set_pendingPaints
    (f : gmap string PendingPaint -> gmap string PendingPaint) (s : state) : state :=
  mkState (userId s) (userName s) (userAvatar s) (isPainting s)
    (selectedColor s) (mapReady s) (channelConnected s)
    (paints s) (f (pendingPaints s)) (paintBatch s)
    (batchTimeout s) (animationFrame s) (effects s).

Definition set_paintBatch (f : PaintBatch -> PaintBatch) (s : state) : state :=
  mkState (userId s) (userName s) (userAvatar s) (isPainting s)
    (selectedColor s) (mapReady s) (channelConnected s)
    (paints s) (pendingPaints s) (f (paintBatch s))
    (batchTimeout s) (animationFrame s) (effects s).

Definition set_batchTimeout (b : bool) (s : state) : state :=
  mkState (userId s) (userName s) (userAvatar s) (isPainting s)
    (selectedColor s) (mapReady s) (channelConnected s)
    (paints s) (pendingPaints s) (paintBatch s)
    b (animationFrame s) (effects s).

Definition set_animationFrame (b : bool) (s : state) : state :=
  mkState (userId s) (userName s) (userAvatar s) (isPainting s)
    (selectedColor s) (mapReady s) (channelConnected s)
    (paints s) (pendingPaints s) (paintBatch s)
    (batchTimeout s) b (effects s).

Definition emit (e : effect) (s : state) : state :=
  mkState (userId s) (userName s) (userAvatar s) (isPainting s)
    (selectedColor s) (mapReady s) (channelConnected s)
    (paints s) (pendingPaints s) (paintBatch s)
    (batchTimeout s) (animationFrame s) (effects s ++ [e]).

Definition emit_all (es : list effect) (s : state) : state :=
  mkState (userId s) (userName s) (userAvatar s) (isPainting s)
    (selectedColor s) (mapReady s) (channelConnected s)
    (paints s) (pendingPaints s) (paintBatch s)
    (batchTimeout s) (animationFrame s) (effects s ++ es).

(** [owner === userId] *)
Definition is_user (uid : option string) (owner : string) : bool :=
  match uid with
  | Some u => String.eqb owner u
  | None => false
  end.

(** [!userId]: [null] and the empty string are falsy. *)
Definition no_user (uid : option string) : bool :=
  match uid with
  | Some u => String.eqb u ""
  | None => true
  end.

Definition scheduleCanvasRender (s : state) : state :=
  let s := emit ScheduleCanvasRender s in
  if animationFrame s then s
  else set_animationFrame true (emit RequestAnimationFrame s).

(** [handleRealtimeUpdate] as built by a render whose [userId] is
    [closedUserId]: the test [owner === userId] reads that value, the
    [setPaints] updaters the live cache. *)
Definition handleRealtimeUpdate (closedUserId : option string)
    (message : RealtimeMessage) (s : state) : state :=
  match message with
  | MsgPaint d =>
      let key := getPaintKey (pu_x d) (pu_y d) in
      if is_user closedUserId (pu_owner d) then s
      else
        let s :=
          set_paints (fun prev =>
            match pu_color d with
            | None => delete key prev
            | Some color =>
                <[key := mkPaint None (pu_x d) (pu_y d) (Some color)
                           (pu_owner d) None
                           (pu_owner_name d) (pu_owner_avatar d)]> prev
            end) s in
        scheduleCanvasRender s
  | MsgDelete d =>
      let key := getPaintKey (pd_x d) (pd_y d) in
      if is_user closedUserId (pd_owner d) then s
      else scheduleCanvasRender (set_paints (delete key) s)
  | MsgPing _ => s
  end.

(** The handler that [paintChannel.subscribe] is given.  [initializeApp]
    runs in an effect without dependencies, so it passes the
    [handleRealtimeUpdate] of the first render, in which [userId] is
    still the [useState] default [null]; the handlers later renders
    build are never subscribed. *)
Definition subscribed_userId : option string := None.

(** The message [handlePaint] broadcasts for a paint. *)
Definition paint_update (uid : string) (s : state) (x y : Z) (color : string)
    (timestamp : Z) : PaintUpdate :=
  mkPaintUpdate x y (Some color) uid (Some (userName s)) (Some (userAvatar s))
    timestamp.

Definition handlePaint (x y : Z) (color : string) (now : Z) (s : state) : state :=
  match userId s with
  | Some uid =>
      if String.eqb uid "" || negb (mapReady s) then s
      else
        let key := getPaintKey x y in
        let timestamp := now in
        let pendingPaint := mkPendingPaint x y (Some color) uid timestamp in
        let s := set_pendingPaints (insert key pendingPaint) s in
        let s :=
          set_paints (insert key
            (mkPaint None x y (Some color) uid None
               (Some (userName s)) (Some (userAvatar s)))) s in
        let s := emit RenderCanvas s in
        let update := paint_update uid s x y color timestamp in
        let s :=
          if channelConnected s then emit (Broadcast (MsgPaint update)) s
          else emit ConsoleError s in
        let s :=
          set_paintBatch (fun prev =>
            mkPaintBatch (batch_paints prev ++ [update]) (batch_deletes prev)) s in
        set_batchTimeout true (emit SetBatchTimeout s)
  | None => s
  end.

Definition upsert_of (p : PaintUpdate) : Store.upsert_row :=
  Store.UpsertRow (pu_x p) (pu_y p) (pu_color p) (pu_owner p)
    (pu_owner_name p) (pu_owner_avatar p).

Definition delete_request (d : PaintDelete) : Store.request :=
  Store.Delete [Store.EqX (pd_x d); Store.EqY (pd_y d)].

(** The store requests of a flush, in the order they are awaited: one
    upsert for the paints, then one delete per entry of [deletes]. *)
Definition batch_requests (batch : PaintBatch) : list Store.request :=
  match batch_paints batch with
  | [] => []
  | ps => [Store.Upsert (List.map upsert_of ps)]
  end ++ List.map delete_request (batch_deletes batch).

Definition batch_keys (batch : PaintBatch) : list string :=
  List.map (fun p => getPaintKey (pu_x p) (pu_y p)) (batch_paints batch)
  ++ List.map (fun d => getPaintKey (pd_x d) (pd_y d)) (batch_deletes batch).

(** [processPaintBatch] as built by a render whose [paintBatch] is
    [closedBatch]: the emptiness test, the requests and the keys read
    that value; [setPaintBatch] replaces the live batch and the
    [setPendingPaints] updater reads the live map.  The timer set by
    [handlePaint] runs the [processPaintBatch] that [handlePaint] closed
    over, not the one of the current render. *)
Definition processPaintBatch (closedBatch : PaintBatch) (s : state) : state :=
  match batch_paints closedBatch, batch_deletes closedBatch with
  | [], [] => s
  | _, _ =>
      let s := emit_all (List.map StoreRequest (batch_requests closedBatch)) s in
      let s := set_paintBatch (fun _ => mkPaintBatch [] []) s in
      let s :=
        set_pendingPaints (fun prev =>
          fold_left (fun newPending key => delete key newPending)
                    (batch_keys closedBatch) prev) s in
      emit RenderCanvas s
  end.

Definition handleMapClick (lng lat : Q) (now : Z) (s : state) : state :=
  if negb (isPainting s) || negb (mapReady s) then s
  else
    let '(x, y) := Grid.clickCell lng lat in
    handlePaint x y (selectedColor s) now s.

(** The cache entry a remote paint leaves: none for a null colour. *)
Definition cached_paint (d : PaintUpdate) : option Paint :=
  match pu_color d with
  | None => None
  | Some color =>
      Some (mkPaint None (pu_x d) (pu_y d) (Some color) (pu_owner d) None
              (pu_owner_name d) (pu_owner_avatar d))
  end.

(** Cell key, owner and timestamp a message carries. *)
Definition message_key (m : RealtimeMessage) : option string :=
  match m with
  | MsgPaint d => Some (getPaintKey (pu_x d) (pu_y d))
  | MsgDelete d => Some (getPaintKey (pd_x d) (pd_y d))
  | MsgPing _ => None
  end.

Definition message_owner (m : RealtimeMessage) : option string :=
  match m with
  | MsgPaint d => Some (pu_owner d)
  | MsgDelete d => Some (pd_owner d)
  | MsgPing _ => None
  end.

Definition message_timestamp (m : RealtimeMessage) : Z :=
  match m with
  | MsgPaint d => pu_timestamp d
  | MsgDelete d => pd_timestamp d
  | MsgPing t => t
  end.

(** Steps of one session: a message delivered to the subscribed
    handler, a local paint, a click on the map, and the batch timer
    firing, which runs a [processPaintBatch] closed over [closedBatch]. *)
Inductive event :=
  | Remote (m : RealtimeMessage)
  | LocalPaint (x y : Z) (color : string) (now : Z)
  | MapClick (lng lat : Q) (now : Z)
  | Flush (closedBatch : PaintBatch).

Definition step (e : event) (s : state) : state :=
  match e with
  | Remote m => handleRealtimeUpdate subscribed_userId m s
  | LocalPaint x y color now => handlePaint x y color now s
  | MapClick lng lat now => handleMapClick lng lat now s
  | Flush closedBatch => processPaintBatch closedBatch s
  end.

Definition run (es : list event) (s : state) : state :=
  fold_left (fun s e => step e s) es s.

(** The batch a timer callback closed over is the [paintBatch] of the
    render that built it: the live batch as it was after some earlier
    part of the session. *)
Definition flushes_read_earlier_batches (es : list event) (s0 : state) : Prop :=
  forall (i : nat) (closedBatch : PaintBatch),
    es !! i = Some (Flush closedBatch) ->
    exists k : nat,
      (k <= i)%nat /\ closedBatch = paintBatch (run (take k es) s0).

Definition is_delete_request (e : effect) : bool :=
  match e with StoreRequest (Store.Delete _) => true | _ => false end.

(** The component once mounted (map loaded, channel connected), with
    the [useState] defaults, for a session user. *)
Definition initial (uid : option string) : state :=
  mkState uid "Anonymous" "" false "#FF4500" true true ∅ ∅
    (mkPaintBatch [] []) false false [].

End PaintCanvas.

(** ** The charge counter

    [UserPaint] of lib/supabase.ts (table [user_paints]).  The two
    updates are the ones the batched write of CollaborativeCanvas.jsx
    performs; each tests the [userCharges] / [userCapacity] the timeout
    callback closed over and then updates the live value [prev].  No
    source file regenerates charges: [regen_seconds] and
    [last_refill_at] are declared and never read. *)

Module Ledger.

Record UserPaint := mkUserPaint {
  capacity : Z;
  charges : Z;
  regen_seconds : Z;
  last_refill_at : Z
}.

(** [if (userCharges > 0) setUserCharges(prev => Math.max(0, prev - paints.length))] *)
Definition debit (closed_charges : Z) (n : nat) (prev : Z) : Z :=
  if closed_charges >? 0 then Z.max 0 (prev - Z.of_nat n) else prev.

(** [if (userCharges < userCapacity)
       setUserCharges(prev => Math.min(userCapacity, prev + 1))] *)
Definition refund (closed_charges closed_capacity : Z) (prev : Z) : Z :=
  if closed_charges <? closed_capacity
  then Z.min closed_capacity (prev + 1)
  else prev.

Definition with_charges (c : Z) (u : UserPaint) : UserPaint :=
  mkUserPaint (capacity u) c (regen_seconds u) (last_refill_at u).

(** Operations on one entry: a flush debiting [n] paint writes and a
    flush refunding one confirmed erase, each run by a callback that
    closed over the current entry. *)
Inductive op :=
  | Debit (n : nat)
  | Refund.

Definition apply (o : op) (u : UserPaint) : UserPaint :=
  match o with
  | Debit n => with_charges (debit (charges u) n (charges u)) u
  | Refund => with_charges (refund (charges u) (capacity u) (charges u)) u
  end.

Definition run (os : list op) (u : UserPaint) : UserPaint :=
  fold_left (fun u o => apply o u) os u.

Definition well_formed (u : UserPaint) : Prop :=
  0 <= charges u <= capacity u.

End Ledger.

(** ** CollaborativeCanvas.jsx *)

Module CollaborativeCanvas.

Record User := mkUser {
  user_id : string;
  user_name : option string;            (* user_metadata?.name *)
  user_email : option string;
  user_avatar_url : option string       (* user_metadata?.avatar_url *)
}.

Record CellInfo := mkCellInfo {
  ci_color : option string;
  ci_owner : option string;
  ci_owner_name : option string;
  ci_owner_avatar : option string
}.

Record BufferedWrite := mkBufferedWrite {
  bw_gridX : Z;
  bw_gridY : Z;
  bw_color : option string;             (* null: erase *)
  bw_timestamp : Z;
  bw_spendCharge : bool
}.

Inductive event_type := INSERT | UPDATE | DELETE.

Record payload := mkPayload {
  payload_new : option Store.row;
  payload_old : option Store.row;
  eventType : event_type
}.

Inductive effect :=
  | DrawPixel (x y : Z) (color : option string)
  | ClearPixel (x y : Z)
  | StoreRequest (r : Store.request).

Record state := mkState {
  user : option User;
  userCharges : Z;
  userCapacity : Z;
  canvasReady : bool;                   (* canvasRef.current is set *)
  mapReady : bool;                      (* mapRef.current is set *)
  paintedCells : gmap string CellInfo;
  paintBuffer : JsMap.t BufferedWrite;
  effects : list effect                 (* oldest first *)
}.

Definition set_paintedCells
    (f : gmap string CellInfo -> gmap string CellInfo) (s : state) : state :=
  mkState (user s) (userCharges s) (userCapacity s) (canvasReady s)
    (mapReady s) (f (paintedCells s)) (paintBuffer s) (effects s).

Definition set_paintBuffer
    (f : JsMap.t BufferedWrite -> JsMap.t BufferedWrite) (s : state) : state :=
  mkState (user s) (userCharges s) (userCapacity s) (canvasReady s)
    (mapReady s) (paintedCells s) (f (paintBuffer s)) (effects s).

Definition set_userCharges (f : Z -> Z) (s : state) : state :=
  mkState (user s) (f (userCharges s)) (userCapacity s) (canvasReady s)
    (mapReady s) (paintedCells s) (paintBuffer s) (effects s).

Definition emit (e : effect) (s : state) : state :=
  mkState (user s) (userCharges s) (userCapacity s) (canvasReady s)
    (mapReady s) (paintedCells s) (paintBuffer s) (effects s ++ [e]).

(** [a || b] on strings that may be undefined. *)
Definition or_else (a : option string) (b : option string) : option string :=
  match a with
  | Some s => if String.eqb s "" then b else Some s
  | None => b
  end.

(** [email.split('@')[0]] *)
Fixpoint before_at (s : string) : string :=
  match s with
  | EmptyString => EmptyString
  | String c rest =>
      if Ascii.eqb c "@"%char then EmptyString else String c (before_at rest)
  end.

(** [user?.user_metadata?.name || user?.email?.split('@')[0] || 'Anonymous'] *)
Definition displayName (u : option User) : string :=
  default "Anonymous"
    (or_else (u ≫= user_name)
       (or_else (before_at <$> (u ≫= user_email)) (Some "Anonymous"))).

(** [drawPixel] and [clearPixel] return early without a map. *)
Definition drawPixel (x y : Z) (color : option string) (s : state) : state :=
  if mapReady s then emit (DrawPixel x y color) s else s.

Definition clearPixel (x y : Z) (s : state) : state :=
  if mapReady s then emit (ClearPixel x y) s else s.

Definition paintPixelInstant (gridX gridY : Z) (color : option string)
    (now : Z) (s : state) : state :=
  if negb (canvasReady s) then s
  else
    let cellKey := hashCoordinate gridX gridY in
    let s :=
      match color with
      | None =>
          clearPixel gridX gridY (set_paintedCells (delete cellKey) s)
      | Some c =>
          drawPixel gridX gridY (Some c)
            (set_paintedCells
               (insert cellKey
                  (mkCellInfo (Some c) (user_id <$> user s)
                     (Some (displayName (user s)))
                     (user s ≫= user_avatar_url))) s)
      end in
    set_paintBuffer
      (JsMap.set cellKey
         (mkBufferedWrite gridX gridY color now
            (match color with Some _ => true | None => false end))) s.

Definition handleRealtimeUpdate (p : payload) (s : state) : state :=
  if negb (canvasReady s) then s
  else
    match eventType p, payload_new p, payload_old p with
    | INSERT, Some newPaint, _ =>
        let cellKey := hashCoordinate (Store.row_x newPaint) (Store.row_y newPaint) in
        drawPixel (Store.row_x newPaint) (Store.row_y newPaint)
          (Store.row_color newPaint)
          (set_paintedCells
             (insert cellKey
                (mkCellInfo (Store.row_color newPaint)
                   (Some (Store.row_owner newPaint))
                   (Store.row_owner_name newPaint)
                   (Store.row_owner_avatar newPaint))) s)
    | DELETE, _, Some oldPaint =>
        let cellKey := hashCoordinate (Store.row_x oldPaint) (Store.row_y oldPaint) in
        clearPixel (Store.row_x oldPaint) (Store.row_y oldPaint)
          (set_paintedCells (delete cellKey) s)
    | _, _, _ => s
    end.

Definition is_erase (w : BufferedWrite) : bool :=
  match bw_color w with None => true | Some _ => false end.

Definition paintInsert (u : User) (w : BufferedWrite) : Store.upsert_row :=
  Store.UpsertRow (bw_gridX w) (bw_gridY w) (bw_color w) (user_id u)
    (Some (displayName (Some u))) (user_avatar_url u).

Definition erase_filters (u : User) (w : BufferedWrite) : list Store.filter :=
  [Store.EqX (bw_gridX w); Store.EqY (bw_gridY w); Store.EqOwner (user_id u)].

(** One turn of the erase loop.  [closed] is the component state the
    timeout callback closed over. *)
Definition flushErase (u : User) (closed : state) (acc : state * list Store.row)
    (erase : BufferedWrite) : state * list Store.row :=
  let '(s, rows) := acc in
  let fs := erase_filters u erase in
  let s := emit (StoreRequest (Store.SelectIdSingle fs)) s in
  match Store.select_single fs rows with
  | Some existingPaint =>
      let del := [Store.EqId (Store.row_id existingPaint)] in
      let s := emit (StoreRequest (Store.Delete del)) s in
      let rows := Store.delete_where (user_id u) del rows in
      (set_userCharges
         (Ledger.refund (userCharges closed) (userCapacity closed)) s,
       rows)
  | None => (s, rows)
  end.

Definition flushErases (u : User) (closed : state)
    (erases : list BufferedWrite) (acc : state * list Store.row)
    : state * list Store.row :=
  fold_left (flushErase u closed) erases acc.

Section BatchedWrite.

(** What an upsert of the session user does to the table. *)
Variable upsert : string -> list Store.upsert_row -> list Store.row -> list Store.row.

(** The timeout callback of the batched-write effect. *)
Definition flushPaintBuffer (closed : state) (rows : list Store.row)
    : state * list Store.row :=
  match user closed with
  | None => (closed, rows)
  | Some u =>
      let batch := JsMap.values (paintBuffer closed) in
      let s := set_paintBuffer (fun _ => JsMap.empty) closed in
      let paints := List.filter (fun p => negb (is_erase p)) batch in
      let erases := List.filter is_erase batch in
      let '(s, rows) :=
        match paints with
        | [] => (s, rows)
        | _ =>
            let paintInserts := List.map (paintInsert u) paints in
            (set_userCharges
               (Ledger.debit (userCharges closed) (length paints))
               (emit (StoreRequest (Store.Upsert paintInserts)) s),
             upsert (user_id u) paintInserts rows)
        end in
      flushErases u closed erases (s, rows)
  end.

End BatchedWrite.

(** The component once mounted, with the [useState] defaults, for a
    signed-in user or none. *)
Definition initial (u : option User) : state :=
  mkState u 0 10 true true ∅ JsMap.empty [].

(** Steps of one session between two flushes. *)
Inductive event :=
  | Paint (gridX gridY : Z) (color : option string) (now : Z)
  | Remote (p : payload).

Definition step (e : event) (s : state) : state :=
  match e with
  | Paint x y color now => paintPixelInstant x y color now s
  | Remote p => handleRealtimeUpdate p s
  end.

Definition run (es : list event) (s : state) : state :=
  fold_left (fun s e => step e s) es s.

Definition writes_at (x y : Z) (l : list BufferedWrite) : list BufferedWrite :=
  List.filter (fun w => (bw_gridX w =? x) && (bw_gridY w =? y)) l.

(** The cache entry an INSERT event leaves. *)
Definition cached_cell (r : Store.row) : CellInfo :=
  mkCellInfo (Store.row_color r) (Some (Store.row_owner r))
    (Store.row_owner_name r) (Store.row_owner_avatar r).

End CollaborativeCanvas.

(** ** The PixelCanvas component (listed in PAINTING_OPTIMIZATIONS.md)

    The only place where a paint is refused for lack of charges. *)

Module PixelCanvas.

Record BufferedPixel := mkBufferedPixel {
  bp_x : Z;
  bp_y : Z;
  bp_color : string;
  bp_timestamp : Z
}.

Inductive effect :=
  | DrawPixel (x y : Z) (color : string)
  | SetBatchTimeout.

Record state := mkState {
  user : option string;                 (* id of the signed-in user *)
  charges : Z;
  pixels : gmap string (option string); (* pixelKey -> color *)
  batchBuffer : JsMap.t BufferedPixel;
  batchTimeout : bool;                  (* batchTimeout.current is set *)
  canvasReady : bool;
  effects : list effect                 (* oldest first *)
}.

Definition signed_in (s : state) : bool :=
  match user s with Some _ => true | None => false end.

(** [existingColor === color] *)
Definition same_color (existing : option (option string)) (color : string) : bool :=
  match existing with
  | Some (Some c) => String.eqb c color
  | _ => false
  end.

Definition paintPixel (x y : Z) (color : string) (now : Z) (s : state)
    : bool * state :=
  let pixelKey := hashCoordinate x y in
  if signed_in s && (charges s <=? 0) then (false, s)
  else if same_color (pixels s !! pixelKey) color then (false, s)
  else
    (true,
     mkState (user s)
       (if signed_in s then Z.max 0 (charges s - 1) else charges s)
       (<[pixelKey := Some color]> (pixels s))
       (JsMap.set pixelKey (mkBufferedPixel x y color now) (batchBuffer s))
       true
       (canvasReady s)
       (effects s
          ++ (if canvasReady s then [DrawPixel x y color] else [])
          ++ (if batchTimeout s then [] else [SetBatchTimeout]))).

End PixelCanvas.

(** ** lib/performance.ts *)

Module Performance.

Import PaintCanvas.

(** *** [PaintBatcher] *)

Record PaintBatcher := mkBatcher {
  b_paints : JsMap.t PaintUpdate;
  b_deletes : JsMap.t PaintDelete;
  b_timeout : bool                      (* timeoutId is set *)
}.

Definition newBatcher : PaintBatcher := mkBatcher JsMap.empty JsMap.empty false.

(** [scheduleBatch] clears a pending timeout and sets a new one. *)
Definition scheduleBatch (b : PaintBatcher) : PaintBatcher :=
  mkBatcher (b_paints b) (b_deletes b) true.

Definition addPaint (paint : PaintUpdate) (b : PaintBatcher) : PaintBatcher :=
  let key := hashCoordinate (pu_x paint) (pu_y paint) in
  scheduleBatch (mkBatcher (JsMap.set key paint (b_paints b)) (b_deletes b)
                   (b_timeout b)).

Definition addDelete (deleteOp : PaintDelete) (b : PaintBatcher) : PaintBatcher :=
  let key := hashCoordinate (pd_x deleteOp) (pd_y deleteOp) in
  scheduleBatch (mkBatcher (b_paints b) (JsMap.set key deleteOp (b_deletes b))
                   (b_timeout b)).

(** [processBatch]: the batcher afterwards and the batch handed to
    [onBatch], if any. *)
Definition processBatch (b : PaintBatcher) : PaintBatcher * option PaintBatch :=
  match JsMap.size (b_paints b), JsMap.size (b_deletes b) with
  | O, O => (b, None)
  | _, _ =>
      (mkBatcher JsMap.empty JsMap.empty false,
       Some (mkPaintBatch (JsMap.values (b_paints b))
                          (JsMap.values (b_deletes b))))
  end.

Inductive enqueue :=
  | AddPaint (paint : PaintUpdate)
  | AddDelete (deleteOp : PaintDelete).

Definition enqueue_one (b : PaintBatcher) (e : enqueue) : PaintBatcher :=
  match e with
  | AddPaint p => addPaint p b
  | AddDelete d => addDelete d b
  end.

Definition enqueue_all (es : list enqueue) (b : PaintBatcher) : PaintBatcher :=
  fold_left enqueue_one es b.

(** The batch a flush sends after the given enqueues on a new batcher
    (empty when nothing is pending). *)
Definition flushed (es : list enqueue) : PaintBatch :=
  default (mkPaintBatch [] []) (snd (processBatch (enqueue_all es newBatcher))).

(** The last paint, resp. delete, enqueued for a cell. *)
Fixpoint last_paint (x y : Z) (es : list enqueue) : option PaintUpdate :=
  match es with
  | [] => None
  | e :: es' =>
      match last_paint x y es' with
      | Some p => Some p
      | None =>
          match e with
          | AddPaint p =>
              if (pu_x p =? x) && (pu_y p =? y) then Some p else None
          | AddDelete _ => None
          end
      end
  end.

Fixpoint last_delete (x y : Z) (es : list enqueue) : option PaintDelete :=
  match es with
  | [] => None
  | e :: es' =>
      match last_delete x y es' with
      | Some d => Some d
      | None =>
          match e with
          | AddDelete d =>
              if (pd_x d =? x) && (pd_y d =? y) then Some d else None
          | AddPaint _ => None
          end
      end
  end.

Definition paints_at (x y : Z) (l : list PaintUpdate) : list PaintUpdate :=
  List.filter (fun p => (pu_x p =? x) && (pu_y p =? y)) l.

Definition deletes_at (x y : Z) (l : list PaintDelete) : list PaintDelete :=
  List.filter (fun d => (pd_x d =? x) && (pd_y d =? y)) l.

(** *** [PaintGrid] *)

(** A zero-initialised [Uint8Array] of [length] bytes, kept sparsely:
    absent indices hold 0. *)
Record Uint8Array := mkUint8Array {
  u8_length : Z;
  u8_data : gmap Z Z
}.

Definition u8_new (length : Z) : Uint8Array := mkUint8Array length ∅.

(** [chunk[index]]: [None] is [undefined] (index outside the array). *)
Definition u8_get (index : Z) (a : Uint8Array) : option Z :=
  if (0 <=? index) && (index <? u8_length a)
  then Some (default 0 (u8_data a !! index))
  else None.

(** [chunk[index] = v]: [None] is [NaN], stored as 0; values wrap to a
    byte; a write outside the array is dropped. *)
Definition u8_set (index : Z) (v : option Z) (a : Uint8Array) : Uint8Array :=
  if (0 <=? index) && (index <? u8_length a)
  then mkUint8Array (u8_length a)
         (<[index := default 0 v `mod` 256]> (u8_data a))
  else a.

Definition hex_digit_value (c : ascii) : option Z :=
  let n := Z.of_nat (nat_of_ascii c) in
  if (48 <=? n) && (n <=? 57) then Some (n - 48)          (* 0-9 *)
  else if (97 <=? n) && (n <=? 102) then Some (n - 87)    (* a-f *)
  else if (65 <=? n) && (n <=? 70) then Some (n - 55)     (* A-F *)
  else None.

(** Value of the longest prefix of hexadecimal digits, [None] when the
    first character is not one. *)
Fixpoint hex_prefix (acc : option Z) (s : string) : option Z :=
  match s with
  | EmptyString => acc
  | String c rest =>
      match hex_digit_value c with
      | Some d => hex_prefix (Some (16 * default 0 acc + d)) rest
      | None => acc
      end
  end.

Definition is_space (c : ascii) : bool :=
  let n := nat_of_ascii c in
  (n =? 32)%nat || ((9 <=? n)%nat && (n <=? 13)%nat).

Fixpoint skip_spaces (s : string) : string :=
  match s with
  | String c rest => if is_space c then skip_spaces rest else s
  | EmptyString => s
  end.

Definition strip_0x (s : string) : string :=
  match s with
  | String "0" (String "x" rest) => rest
  | String "0" (String "X" rest) => rest
  | _ => s
  end.

(** [parseInt(s, 16)]; [None] is [NaN]. *)
Definition parseInt16 (s : string) : option Z :=
  let s := skip_spaces s in
  let '(sign, s) :=
    match s with
    | String "-" rest => (-1, rest)
    | String "+" rest => (1, rest)
    | _ => (1, s)
    end in
  Z.mul sign <$> hex_prefix None (strip_0x s).

(** [color.slice(from, to)] for [0 <= from <= to]. *)
Definition slice (from to : nat) (s : string) : string :=
  substring from (to - from) s.

Definition hex_digit (n : Z) : ascii :=
  if n <? 10 then ascii_of_nat (Z.to_nat (48 + n))
  else ascii_of_nat (Z.to_nat (87 + n)).

(** [n.toString(16).padStart(2, '0')] for a byte. *)
Definition hex2 (n : Z) : string :=
  String (hex_digit (n `div` 16)) (String (hex_digit (n `mod` 16)) EmptyString).

Definition chunkSize : Z := 1000.

Record PaintGrid := mkGrid { grid : gmap string Uint8Array }.

Definition chunkKey (x y : Z) : string :=
  hashCoordinate (x `div` chunkSize) (y `div` chunkSize).

(** [%] takes the sign of the dividend. *)
Definition chunkIndex (x y : Z) : Z :=
  let localX := Z.rem x chunkSize in
  let localY := Z.rem y chunkSize in
  (localY * chunkSize + localX) * 3.

Definition setPaint (x y : Z) (color : string) (g : PaintGrid) : PaintGrid :=
  let key := chunkKey x y in
  let chunk :=
    default (u8_new (chunkSize * chunkSize * 3)) (grid g !! key) in
  let index := chunkIndex x y in
  let r := parseInt16 (slice 1 3 color) in
  let gr := parseInt16 (slice 3 5 color) in
  let b := parseInt16 (slice 5 7 color) in
  let chunk := u8_set index r chunk in
  let chunk := u8_set (index + 1) gr chunk in
  let chunk := u8_set (index + 2) b chunk in
  mkGrid (<[key := chunk]> (grid g)).

Inductive outcome :=
  | Returned (color : option string)
  | Threw.                              (* toString of undefined *)

Definition getPaint (x y : Z) (g : PaintGrid) : outcome :=
  match grid g !! chunkKey x y with
  | None => Returned None
  | Some chunk =>
      let index := chunkIndex x y in
      match u8_get index chunk, u8_get (index + 1) chunk,
            u8_get (index + 2) chunk with
      | Some r, Some gr, Some b =>
          if (r =? 0) && (gr =? 0) && (b =? 0) then Returned None
          else Returned (Some ("#" +:+ hex2 r +:+ hex2 gr +:+ hex2 b))
      | _, _, _ => Threw
      end
  end.

Definition newGrid : PaintGrid := mkGrid ∅.

(** A grid as a program builds it: [setPaint] calls on a new grid. *)
Definition paint_all (ops : list (Z * Z * string)) : PaintGrid :=
  fold_left (fun g '(x, y, color) => setPaint x y color g) ops newGrid.

Definition CHUNK_BYTES : Z := chunkSize * chunkSize * 3.

(** Every chunk has the size [setPaint] allocates. *)
Definition grid_ok (g : PaintGrid) : Prop :=
  forall k c, grid g !! k = Some c -> u8_length c = CHUNK_BYTES.

Definition hex_chars : list ascii :=
  ["0"; "1"; "2"; "3"; "4"; "5"; "6"; "7"; "8"; "9";
   "a"; "b"; "c"; "d"; "e"; "f"; "A"; "B"; "C"; "D"; "E"; "F"]%char.

Definition is_hex (c : ascii) : bool :=
  match hex_digit_value c with Some _ => true | None => false end.

(** A 7-character hex colour: [#] and six hexadecimal digits. *)
Definition is_hex_color (c : string) : bool :=
  match c with
  | String "#" (String a (String b (String c (String d (String e
      (String f EmptyString)))))) =>
      is_hex a && is_hex b && is_hex c && is_hex d && is_hex e && is_hex f
  | _ => false
  end.

Definition lower (c : ascii) : ascii :=
  let n := nat_of_ascii c in
  if (65 <=? n)%nat && (n <=? 90)%nat then ascii_of_nat (n + 32) else c.

Fixpoint lowercase (s : string) : string :=
  match s with
  | EmptyString => EmptyString
  | String c rest => String (lower c) (lowercase rest)
  end.

End Performance.

(** ** Sample sessions and inputs used below *)

Module Samples.

Import PaintCanvas.

Definition alice_paint : PaintUpdate :=
  mkPaintUpdate 1 1 (Some "#111111") "alice" None None 1.

Definition bob_paint : PaintUpdate :=
  mkPaintUpdate 1 1 (Some "#222222") "bob" None None 2.

Definition bob_null_paint : PaintUpdate :=
  mkPaintUpdate 1 1 None "bob" None None 4.

Definition bob_delete : PaintDelete := mkPaintDelete 1 1 "bob" 3.

(** A row of the table whose colour is null. *)
Definition null_row : Store.row := Store.Row 3 3 1 None "bob" None None.

Definition alice_row : Store.row :=
  Store.Row 1 1 1 (Some "#111111") "alice" None None.

Definition bob_row : Store.row :=
  Store.Row 2 1 1 (Some "#222222") "bob" None None.

(** A session of user "me" in which alice's paint of (1,1) has arrived. *)
Definition painted_by_alice : state :=
  handleRealtimeUpdate subscribed_userId (MsgPaint alice_paint)
    (initial (Some "me")).

(** A local paint of (5,5) and the message [handlePaint] builds for
    it. *)
Definition echo_session : list event := [LocalPaint 5 5 "#FF4500" 1700].

Definition echo_message : RealtimeMessage :=
  MsgPaint (paint_update "me" (initial (Some "me")) 5 5 "#FF4500" 1700).

Definition echo_pending : PendingPaint :=
  mkPendingPaint 5 5 (Some "#FF4500") "me" 1700.

Definition me : CollaborativeCanvas.User :=
  CollaborativeCanvas.mkUser "me" None None None.

(** An upsert that leaves the table as it is. *)
Definition keep_rows (uid : string) (new : list Store.upsert_row)
    (rows : list Store.row) : list Store.row := rows.

(** User "me" with no charges paints (5,5). *)
Definition broke : CollaborativeCanvas.state :=
  CollaborativeCanvas.initial (Some me).

Definition broke_painted : CollaborativeCanvas.state :=
  CollaborativeCanvas.paintPixelInstant 5 5 (Some "#FF4500") 1700 broke.

(** User "me" with one charge paints three cells before the flush. *)
Definition one_charge : CollaborativeCanvas.state :=
  CollaborativeCanvas.mkState (Some me) 1 10 true true ∅ JsMap.empty [].

Definition three_paints : CollaborativeCanvas.state :=
  CollaborativeCanvas.run
    [CollaborativeCanvas.Paint 1 1 (Some "#FF4500") 1;
     CollaborativeCanvas.Paint 2 1 (Some "#FF4500") 2;
     CollaborativeCanvas.Paint 3 1 (Some "#FF4500") 3] one_charge.

Definition paint_5_5 : PaintUpdate :=
  mkPaintUpdate 5 5 (Some "#FF4500") "me" None None 10.

Definition repaint_5_5 : PaintUpdate :=
  mkPaintUpdate 5 5 (Some "#00FF00") "me" None None 12.

Definition delete_5_5 : PaintDelete := mkPaintDelete 5 5 "me" 11.

(** A table with a row of "me" at (1,1) and a row of "bob" at (2,2). *)
Definition my_row : Store.row :=
  Store.Row 1 1 1 (Some "#FF4500") "me" None None.

Definition bobs_row : Store.row :=
  Store.Row 2 2 2 (Some "#222222") "bob" None None.

Definition erase_1_1 : CollaborativeCanvas.BufferedWrite :=
  CollaborativeCanvas.mkBufferedWrite 1 1 None 20 false.

Definition erase_2_2 : CollaborativeCanvas.BufferedWrite :=
  CollaborativeCanvas.mkBufferedWrite 2 2 None 21 false.

Definition sample_ledger : Ledger.UserPaint := Ledger.mkUserPaint 10 1 30 0.

Definition sample_pixels : PixelCanvas.state :=
  PixelCanvas.mkState (Some "me") 1 ∅ JsMap.empty false true [].

(** User "me" paints (5,5); the timer of that paint runs a
    [processPaintBatch] built while the batch was empty.  Alice's paint
    arrives, and the render it causes rebuilds [handlePaint] around a
    [processPaintBatch] whose batch holds the first paint.  User "me"
    then paints (6,5), and the timer of that paint runs this
    [processPaintBatch]. *)
Definition first_paint : PaintUpdate :=
  paint_update "me" (initial (Some "me")) 5 5 "#FF4500" 1700.

Definition second_paint : PaintUpdate :=
  paint_update "me" (initial (Some "me")) 6 5 "#FF4500" 1800.

Definition two_paints : list event :=
  [LocalPaint 5 5 "#FF4500" 1700; Flush (mkPaintBatch [] []);
   Remote (MsgPaint alice_paint); LocalPaint 6 5 "#FF4500" 1800].

Definition batch_after_first_paint : PaintBatch :=
  paintBatch (run (take 3 two_paints) (initial (Some "me"))).

Definition two_paints_batched : state :=
  run two_paints (initial (Some "me")).

Definition two_paints_flushed : list event :=
  two_paints ++ [Flush batch_after_first_paint].

(** User "me" with all ten charges paints (5,5) and erases (1,1), both
    before the batched write. *)
Definition full_charges : CollaborativeCanvas.state :=
  CollaborativeCanvas.mkState (Some me) 10 10 true true ∅ JsMap.empty [].

Definition paint_and_erase : CollaborativeCanvas.state :=
  CollaborativeCanvas.run
    [CollaborativeCanvas.Paint 5 5 (Some "#FF4500") 1700;
     CollaborativeCanvas.Paint 1 1 None 1710] full_charges.

Definition paint_5_5_buffered : CollaborativeCanvas.BufferedWrite :=
  CollaborativeCanvas.mkBufferedWrite 5 5 (Some "#FF4500") 1700 true.

Definition erase_1_1_buffered : CollaborativeCanvas.BufferedWrite :=
  CollaborativeCanvas.mkBufferedWrite 1 1 None 1710 false.

End Samples.

(** * More of the code

    ** lib/performance.ts: reading a [PaintGrid] *)

Module PaintGridReads.

Import Performance.

(** What [getPaint] makes of the three bytes [setPaint] stores for a
    colour string. *)
Definition stored_color (color : string) : option string :=
  let r := default 0 (parseInt16 (slice 1 3 color)) `mod` 256 in
  let gr := default 0 (parseInt16 (slice 3 5 color)) `mod` 256 in
  let b := default 0 (parseInt16 (slice 5 7 color)) `mod` 256 in
  if (r =? 0) && (gr =? 0) && (b =? 0) then None
  else Some ("#" +:+ hex2 r +:+ hex2 gr +:+ hex2 b).

(** The colour of the last [setPaint] on a cell, if any. *)
Fixpoint last_set (x y : Z) (ops : list (Z * Z * string)) : option string :=
  match ops with
  | [] => None
  | (x', y', color) :: ops' =>
      match last_set x y ops' with
      | Some c => Some c
      | None => if (x' =? x) && (y' =? y) then Some color else None
      end
  end.

End PaintGridReads.

(** ** lib/performance.ts: [parseCoordinate] *)

Module ParseCoordinate.

(** [hash.split(',')] *)
Fixpoint split_comma (s : string) : list string :=
  match s with
  | EmptyString => [EmptyString]
  | String c rest =>
      if Ascii.eqb c ","%char then EmptyString :: split_comma rest
      else
        match split_comma rest with
        | [] => [String c EmptyString]
        | first :: others => String c first :: others
        end
  end.

Definition digit_value (c : ascii) : option Z :=
  let n := Z.of_nat (nat_of_ascii c) in
  if (48 <=? n) && (n <=? 57) then Some (n - 48) else None.

(** Value and weight [10^length] of a string of decimal digits. *)
Fixpoint decimal (s : string) : option (Z * Z) :=
  match s with
  | EmptyString => Some (0, 1)
  | String c rest =>
      match digit_value c, decimal rest with
      | Some d, Some (v, w) => Some (d * w + v, 10 * w)
      | _, _ => None
      end
  end.

(** [Number(s)] on the strings that are an optionally signed run of
    decimal digits (the empty string reads as 0).  [None] stands for
    every other outcome: NaN, and the values of literals this model does
    not read (white space, fractions, exponents, other radices). *)
Definition Number (s : string) : option Z :=
  match s with
  | EmptyString => Some 0
  | String "-" (String c rest) => Z.opp <$> (fst <$> decimal (String c rest))
  | String "+" (String c rest) => fst <$> decimal (String c rest)
  | String "-" EmptyString | String "+" EmptyString => None
  | _ => fst <$> decimal s
  end.

(** [const [x, y] = hash.split(',').map(Number); return [x, y]];
    a missing element is [undefined], here [None] as well. *)
Definition parseCoordinate (hash : string) : option Z * option Z :=
  let parts := Number <$> split_comma hash in
  (mjoin (parts !! 0%nat), mjoin (parts !! 1%nat)).

End ParseCoordinate.

(** ** lib/performance.ts: [AnimationFrameBatcher] *)

Module AnimationFrameBatcher.

Section Batcher.
Context {T : Type}.

Record batcher := mkBatcher {
  items : list T;
  isScheduled : bool;
  frames : nat;                         (* animation frames requested, not yet run *)
  delivered : list (list T)             (* arguments of the callback, oldest first *)
}.

Definition new : batcher := mkBatcher [] false 0 [].

Definition schedule (b : batcher) : batcher :=
  if isScheduled b then b
  else mkBatcher (items b) true (S (frames b)) (delivered b).

Definition add (item : T) (b : batcher) : batcher :=
  schedule (mkBatcher (items b ++ [item]) (isScheduled b) (frames b) (delivered b)).

Definition flush (b : batcher) : batcher :=
  match items b with
  | [] => b
  | itemsToProcess =>
      mkBatcher [] false (frames b) (delivered b ++ [itemsToProcess])
  end.

(** The browser runs one requested frame. *)
Definition frame (b : batcher) : batcher :=
  match frames b with
  | O => b
  | S n => flush (mkBatcher (items b) (isScheduled b) n (delivered b))
  end.

Definition clear (b : batcher) : batcher :=
  mkBatcher [] false (frames b) (delivered b).

Inductive op :=
  | Add (item : T)
  | Frame
  | Clear.

Definition apply (b : batcher) (o : op) : batcher :=
  match o with
  | Add item => add item b
  | Frame => frame b
  | Clear => clear b
  end.

Definition run (os : list op) : batcher := fold_left apply os new.

(** The items added, in order. *)
Definition added (os : list op) : list T :=
  List.flat_map (fun o => match o with Add item => [item] | _ => [] end) os.

Definition is_clear (o : op) : bool :=
  match o with Clear => true | _ => false end.

(** Waiting items are scheduled, a frame is pending for them, and no
    empty batch was delivered. *)
Definition consistent (b : batcher) : Prop :=
  (isScheduled b = true <-> items b <> [])
  /\ (items b <> [] -> (1 <= frames b)%nat)
  /\ Forall (fun l => l <> []) (delivered b).

End Batcher.

Arguments batcher : clear implicits.
Arguments op : clear implicits.

End AnimationFrameBatcher.

(** ** lib/supabase.ts: [PaintChannel] *)

Module PaintChannel.

Import PaintCanvas.

(** A subscriber function, by identity. *)
Definition callback := nat.

Record channel := mkChannel {
  opened : bool;                        (* this.channel is set *)
  isConnected : bool;
  subscribers : list callback           (* a Set, in insertion order *)
}.

Definition new : channel := mkChannel false false [].

Definition has (cb : callback) (l : list callback) : bool :=
  existsb (Nat.eqb cb) l.

(** [connect]: the channel is created once. *)
Definition connect (c : channel) : channel :=
  if opened c then c else mkChannel true (isConnected c) (subscribers c).

(** The status callback handed to [subscribe] of the realtime channel. *)
Definition onStatus (subscribed : bool) (c : channel) : channel :=
  mkChannel (opened c) subscribed (subscribers c).

Definition disconnect (c : channel) : channel :=
  if opened c then mkChannel false false (subscribers c) else c.

(** [subscribers.add(callback)] *)
Definition subscribe (cb : callback) (c : channel) : channel :=
  mkChannel (opened c) (isConnected c)
    (if has cb (subscribers c) then subscribers c else subscribers c ++ [cb]).

(** The function [subscribe] returns: [subscribers.delete(callback)]. *)
Definition unsubscribe (cb : callback) (c : channel) : channel :=
  mkChannel (opened c) (isConnected c)
    (List.filter (fun f => negb (Nat.eqb cb f)) (subscribers c)).

Inductive effect :=
  | Called (cb : callback) (message : RealtimeMessage)
  | ConsoleError
  | Sent (message : RealtimeMessage).

(** [notifySubscribers]; [throws] tells which callbacks raise. *)
Definition notifySubscribers (throws : callback -> bool)
    (message : RealtimeMessage) (c : channel) : list effect :=
  List.flat_map
    (fun cb => Called cb message :: if throws cb then [ConsoleError] else [])
    (subscribers c).

(** [broadcast]: [None] is the thrown 'Channel not connected'. *)
Definition broadcast (message : RealtimeMessage) (c : channel) : option effect :=
  if negb (opened c) || negb (isConnected c) then None
  else Some (Sent message).

Inductive op :=
  | Connect
  | Status (subscribed : bool)
  | Disconnect
  | Subscribe (cb : callback)
  | Unsubscribe (cb : callback).

Definition apply (c : channel) (o : op) : channel :=
  match o with
  | Connect => connect c
  | Status b => onStatus b c
  | Disconnect => disconnect c
  | Subscribe cb => subscribe cb c
  | Unsubscribe cb => unsubscribe cb c
  end.

Definition run (os : list op) : channel := fold_left apply os new.

(** The last [subscribe] / unsubscribe of [cb], if any, was a
    [subscribe]. *)
Definition subscribed (cb : callback) (os : list op) : bool :=
  fold_left (fun b o =>
               match o with
               | Subscribe f => if Nat.eqb cb f then true else b
               | Unsubscribe f => if Nat.eqb cb f then false else b
               | _ => b
               end) os false.

Definition called (cb : callback) (e : effect) : bool :=
  match e with Called f _ => Nat.eqb cb f | _ => false end.

End PaintChannel.

(** ** components/PaintCanvas.tsx: viewport load and frame callback *)

Module Viewport.

Import PaintCanvas.

(** [mapRef.current.getBounds()] *)
Record LngLatBounds := mkBounds {
  getWest : Q;
  getEast : Q;
  getSouth : Q;
  getNorth : Q
}.

(** The four range filters of the query of [loadVisiblePaints]. *)
Record range := mkRange {
  x_gte : Z;
  x_lte : Z;
  y_gte : Z;
  y_lte : Z
}.

Definition visibleRange (bounds : LngLatBounds) : range :=
  mkRange (Qfloor (getWest bounds / Grid.CELL_SIZE_METERS))
          (Qceiling (getEast bounds / Grid.CELL_SIZE_METERS))
          (Qfloor (getSouth bounds / Grid.CELL_SIZE_METERS))
          (Qceiling (getNorth bounds / Grid.CELL_SIZE_METERS)).

Definition in_range (r : range) (x y : Z) : bool :=
  (x_gte r <=? x) && (x <=? x_lte r) && (y_gte r <=? y) && (y <=? y_lte r).

(** What the query resolves to. *)
Inductive response :=
  | Rows (data : list Paint)
  | NoRows                              (* data is null *)
  | Failed.                             (* error is set *)

Definition newPaints (data : list Paint) : gmap string Paint :=
  fold_left (fun m paint =>
               <[getPaintKey (paint_x paint) (paint_y paint) := paint]> m)
            data ∅.

(** [loadVisiblePaints] from the point where the query has resolved. *)
Definition loadVisiblePaints (result : response) (s : state) : state :=
  if negb (mapReady s) || no_user (userId s) then s
  else
    match result with
    | Failed => emit ConsoleError s
    | NoRows => emit RenderCanvas (set_paints (fun _ => ∅) s)
    | Rows data => emit RenderCanvas (set_paints (fun _ => newPaints data) s)
    end.

(** The callback [scheduleCanvasRender] hands to
    [requestAnimationFrame]. *)
Definition animationFrameCallback (s : state) : state :=
  set_animationFrame false (emit RenderCanvas s).

(** The last row of a response for a cell. *)
Fixpoint last_row (x y : Z) (data : list Paint) : option Paint :=
  match data with
  | [] => None
  | paint :: data' =>
      match last_row x y data' with
      | Some p => Some p
      | None =>
          if (paint_x paint =? x) && (paint_y paint =? y) then Some paint
          else None
      end
  end.

Definition is_frame_request (e : effect) : bool :=
  match e with RequestAnimationFrame => true | _ => false end.

Definition is_render_call (e : effect) : bool :=
  match e with RenderCanvas => true | _ => false end.

(** Remote messages, and the browser running the requested frame. *)
Inductive render_event :=
  | Update (message : RealtimeMessage)
  | FrameRuns.

Definition render_step (closedUserId : option string) (s : state)
    (e : render_event) : state :=
  match e with
  | Update message => handleRealtimeUpdate closedUserId message s
  | FrameRuns => if animationFrame s then animationFrameCallback s else s
  end.

Definition render_run (closedUserId : option string) (es : list render_event)
    (s : state) : state :=
  fold_left (render_step closedUserId) es s.

(** Messages delivered one after the other to a handler closed over
    [closedUserId]. *)
Definition remote_run (closedUserId : option string)
    (ms : list RealtimeMessage) (s : state) : state :=
  fold_left (fun s m => handleRealtimeUpdate closedUserId m s) ms s.

(** The effects of [scheduleCanvasRender]: the call itself and the
    frame it requests. *)
Definition is_render (e : effect) : bool :=
  match e with
  | ScheduleCanvasRender | RequestAnimationFrame => true
  | _ => false
  end.

Definition is_store_request (e : effect) : bool :=
  match e with StoreRequest _ => true | _ => false end.

Definition names_cell (x y : Z) (m : RealtimeMessage) : bool :=
  match m with
  | MsgPaint d => (pu_x d =? x) && (pu_y d =? y)
  | MsgDelete d => (pd_x d =? x) && (pd_y d =? y)
  | MsgPing _ => false
  end.

End Viewport.

(** ** CollaborativeCanvas.jsx: pointer and key handlers *)

Module CanvasInteraction.

Import CollaborativeCanvas.

Inductive event_kind := Mousedown | Touchstart | Mousemove | Touchmove | OtherEvent.

(** A pointer event as [handleCanvasInteraction] reads it: [e.type],
    [e.button] (undefined on touch events) and the cell that
    [gridCoordsFromLatLng] gives for its position. *)
Record pointer := mkPointer {
  p_type : event_kind;
  p_button : option Z;
  p_gridX : Z;
  p_gridY : Z
}.

(** The component with the state the handlers read besides the caches. *)
Record canvas := mkCanvas {
  component : state;
  isPaintingMode : bool;
  isSpacePressed : bool;
  isRightMouseDown : bool;
  selectedColor : string;
  isDrawing : bool;
  lastPaintedCell : option cell
}.

Definition set_component (f : state -> state) (c : canvas) : canvas :=
  mkCanvas (f (component c)) (isPaintingMode c) (isSpacePressed c)
    (isRightMouseDown c) (selectedColor c) (isDrawing c) (lastPaintedCell c).

Definition right_button (e : pointer) : bool :=
  match p_button e with Some b => b =? 2 | None => false end.

(** One turn of the [forEach] over the interpolated cells.  [buffer] is
    the [paintBuffer] the handler closed over; the counter numbers the
    calls of [paintPixelInstant], [now i] being the clock at call [i]. *)
Definition strokeCell (buffer : JsMap.t BufferedWrite) (color : string)
    (now : nat -> Z) (acc : nat * state) (c : cell) : nat * state :=
  let cellKey := hashCoordinate (cell_x c) (cell_y c) in
  if JsMap.has cellKey buffer then acc
  else (S acc.1,
        paintPixelInstant (cell_x c) (cell_y c) (Some color) (now acc.1) acc.2).

Definition paintStroke (buffer : JsMap.t BufferedWrite) (color : string)
    (now : nat -> Z) (cells : list cell) (s : state) : state :=
  (fold_left (strokeCell buffer color now) cells (O, s)).2.

Definition handleCanvasInteraction (e : pointer) (now : nat -> Z) (c : canvas)
    : canvas :=
  if negb (isPaintingMode c) || negb (mapReady (component c))
     || negb (canvasReady (component c))
  then c
  else
    let gridX := p_gridX e in
    let gridY := p_gridY e in
    match p_type e with
    | Mousedown | Touchstart =>
        if right_button e || isRightMouseDown c
        then set_component (paintPixelInstant gridX gridY None (now O)) c
        else if isSpacePressed c && negb (String.eqb (selectedColor c) "")
        then
          mkCanvas
            (paintPixelInstant gridX gridY (Some (selectedColor c)) (now O)
               (component c))
            (isPaintingMode c) (isSpacePressed c) (isRightMouseDown c)
            (selectedColor c) true (Some (Cell gridX gridY))
        else c
    | Mousemove | Touchmove =>
        if isDrawing c
        then
          let s :=
            match lastPaintedCell c with
            | Some l =>
                paintStroke (paintBuffer (component c)) (selectedColor c) now
                  (Rasterizer.lineCells l (Cell gridX gridY)) (component c)
            | None => component c
            end in
          mkCanvas s (isPaintingMode c) (isSpacePressed c)
            (isRightMouseDown c) (selectedColor c) (isDrawing c)
            (Some (Cell gridX gridY))
        else c
    | OtherEvent => c
    end.

Definition handleKeyDown (code : string) (c : canvas) : canvas :=
  if String.eqb code "Space"
  then mkCanvas (component c) (isPaintingMode c) true (isRightMouseDown c)
         (selectedColor c) (isDrawing c) (lastPaintedCell c)
  else c.

Definition handleKeyUp (code : string) (c : canvas) : canvas :=
  if String.eqb code "Space"
  then mkCanvas (component c) (isPaintingMode c) false (isRightMouseDown c)
         (selectedColor c) false None
  else c.

Definition cell_key (c : cell) : string := hashCoordinate (cell_x c) (cell_y c).

(** ** CollaborativeCanvas.jsx: [loadExistingPaints] *)

Definition row_key (paint : Store.row) : string :=
  hashCoordinate (Store.row_x paint) (Store.row_y paint).

Definition newPaintedCells (data : list Store.row) : JsMap.t CellInfo :=
  fold_left (fun m paint => JsMap.set (row_key paint) (cached_cell paint) m)
            data JsMap.empty.

(** One turn of the redraw loop: the coordinates are read back from the
    key.  A key that does not read as two integers draws nothing. *)
Definition drawLoaded (s : state) (entry : string * CellInfo) : state :=
  match ParseCoordinate.parseCoordinate entry.1 with
  | (Some gridX, Some gridY) => drawPixel gridX gridY (ci_color entry.2) s
  | _ => s
  end.

(** [loadExistingPaints] from the point where the query has resolved;
    [None] is a query that failed (the error is thrown and logged). *)
Definition loadExistingPaints (result : option (list Store.row)) (s : state)
    : state :=
  match result with
  | None => s
  | Some data =>
      let cells := newPaintedCells data in
      let s := set_paintedCells (fun _ => list_to_map cells) s in
      if canvasReady s then fold_left drawLoaded cells s else s
  end.

Definition loaded_entry (paint : Store.row) : string * CellInfo :=
  (row_key paint, cached_cell paint).

Definition drawn (paint : Store.row) : effect :=
  DrawPixel (Store.row_x paint) (Store.row_y paint) (Store.row_color paint).

Definition is_upsert (e : effect) : bool :=
  match e with StoreRequest (Store.Upsert _) => true | _ => false end.

Definition is_canvas_effect (e : effect) : bool :=
  match e with DrawPixel _ _ _ | ClearPixel _ _ => true | _ => false end.

End CanvasInteraction.

(** ** PixelCanvas: the batch write *)

Module PixelCanvasBatch.

Import PixelCanvas.

(** The component with the browser's side of [scheduleBatchWrite]:
    whether the timer set by [setTimeout] is still to fire, the batch of
    an upsert that has not settled yet, and the batches sent so far. *)
Record writer := mkWriter {
  canvas : state;
  timer : bool;
  inFlight : option (list BufferedPixel);
  sent : list (list BufferedPixel)        (* oldest first *)
}.

Definition paint (x y : Z) (color : string) (now : Z) (w : writer) : writer :=
  let r := paintPixel x y color now (canvas w) in
  mkWriter r.2
    (timer w || (r.1 && negb (batchTimeout (canvas w))))
    (inFlight w) (sent w).

(** The timeout callback up to its [await]: it returns at once on an
    empty buffer, leaving [batchTimeout.current] as it is. *)
Definition timeoutFires (w : writer) : writer :=
  if timer w
  then
    match JsMap.size (batchBuffer (canvas w)) with
    | O => mkWriter (canvas w) false (inFlight w) (sent w)
    | _ =>
        mkWriter (canvas w) false
          (Some (JsMap.values (batchBuffer (canvas w)))) (sent w)
    end
  else w.

(** The rest of the callback, run when the upsert has settled, with or
    without an error: the buffer is cleared and the timeout reset. *)
Definition writeSettles (w : writer) : writer :=
  match inFlight w with
  | Some batch =>
      mkWriter
        (mkState (user (canvas w)) (charges (canvas w)) (pixels (canvas w))
           JsMap.empty false (canvasReady (canvas w)) (effects (canvas w)))
        (timer w) None (sent w ++ [batch])
  | None => w
  end.

Inductive event :=
  | Paint (x y : Z) (color : string) (now : Z)
  | Fire
  | Settle.

Definition step (w : writer) (e : event) : writer :=
  match e with
  | Paint x y color now => paint x y color now w
  | Fire => timeoutFires w
  | Settle => writeSettles w
  end.

Definition run (es : list event) (w : writer) : writer := fold_left step es w.

(** The component when mounted: nothing buffered, no timer. *)
Definition idle (s : state) : Prop :=
  batchTimeout s = false /\ batchBuffer s = JsMap.empty.

Definition start (s : state) : writer := mkWriter s false None [].

Definition in_flight (w : writer) : bool :=
  match inFlight w with Some _ => true | None => false end.

End PixelCanvasBatch.

(** ** More sample inputs *)

Module MoreSamples.

(** Space held in painting mode, the last painted cell being (0,0). *)
Definition stroke_start : CanvasInteraction.canvas :=
  CanvasInteraction.mkCanvas (CollaborativeCanvas.initial None)
    true true false "#FF4500" true (Some (Cell 0 0)).

Definition move_to_3_1 : CanvasInteraction.pointer :=
  CanvasInteraction.mkPointer CanvasInteraction.Mousemove None 3 1.

Definition press_at_3_1 : CanvasInteraction.pointer :=
  CanvasInteraction.mkPointer CanvasInteraction.Mousedown (Some 0) 3 1.

Definition clock (i : nat) : Z := 1700 + Z.of_nat i.

Definition stored_paint : PaintCanvas.Paint :=
  PaintCanvas.mkPaint (Some 7) 4 2 (Some "#00CC78") "alice" None None None.

(** The write of the pixel (1,1) is in flight. *)
Definition write_in_flight : PixelCanvasBatch.writer :=
  PixelCanvasBatch.run
    [PixelCanvasBatch.Paint 1 1 "#FF4500" 1690; PixelCanvasBatch.Fire]
    (PixelCanvasBatch.start (PixelCanvas.mkState (Some "me") 5 ∅ JsMap.empty false true [])).

End MoreSamples.

(** * Properties *)

Import PaintCanvas.

Module CC := CollaborativeCanvas.

(** ** Cell keys are injective *)

Lemma pretty_N_char_not_comma n : Ascii.eqb (pretty_N_char n) "," = false.
Proof. unfold pretty_N_char. by repeat case_match. Qed.

Lemma pretty_N_go_comma_free x s :
  comma_free s = true -> comma_free (pretty_N_go x s) = true.
Proof.
  revert s. induction (N.lt_wf_0 x) as [x _ IH]; intros s Hs.
  destruct (decide (x = 0%N)) as [->|Hx].
  - by rewrite pretty_N_go_0.
  - rewrite pretty_N_go_step by lia. apply IH.
    + apply N.div_lt; lia.
    + cbn. by rewrite pretty_N_char_not_comma.
Qed.

Lemma pretty_Z_comma_free (z : Z) : comma_free (pretty z) = true.
Proof.
  destruct z as [|p|p]; [done|..].
  - unfold pretty, pretty_Z, pretty, pretty_positive, pretty, pretty_N.
    case_decide; [done|]. by apply pretty_N_go_comma_free.
  - unfold pretty, pretty_Z. cbn -[pretty].
    unfold pretty, pretty_positive, pretty, pretty_N.
    case_decide; [done|]. by apply pretty_N_go_comma_free.
Qed.

Lemma comma_split s1 s2 t1 t2 :
  comma_free s1 = true -> comma_free s2 = true ->
  s1 +:+ "," +:+ t1 = s2 +:+ "," +:+ t2 -> s1 = s2 /\ t1 = t2.
Proof.
  revert s2. induction s1 as [|c s1 IH]; intros [|d s2] H1 H2 E; cbn in *.
  - by injection E.
  - injection E as <- _. by rewrite Ascii.eqb_refl in H2.
  - injection E as -> _. by rewrite Ascii.eqb_refl in H1.
  - injection E as -> E.
    apply andb_prop in H1 as [_ H1]. apply andb_prop in H2 as [_ H2].
    destruct (IH s2 H1 H2 E) as [-> ->]. done.
Qed.

Lemma hashCoordinate_inj x y x' y' :
  hashCoordinate x y = hashCoordinate x' y' -> x = x' /\ y = y'.
Proof.
  unfold hashCoordinate. intros E.
  apply comma_split in E as [Ex Ey]; auto using pretty_Z_comma_free.
  split; by apply (inj pretty).
Qed.

(** ** Insertion-ordered maps *)

Section JsMapFacts.
Context {V : Type}.
Implicit Types (m : JsMap.t V) (k : string) (v : V).

Lemma get_set_eq k v m : JsMap.get k (JsMap.set k v m) = Some v.
Proof.
  induction m as [|[k' v'] m IH]; cbn.
  - by rewrite String.eqb_refl.
  - destruct (String.eqb_spec k k') as [->|Hne]; cbn.
    + by rewrite String.eqb_refl.
    + destruct (String.eqb_spec k k'); [done|]. apply IH.
Qed.

Lemma get_set_ne k k' v m :
  k <> k' -> JsMap.get k' (JsMap.set k v m) = JsMap.get k' m.
Proof.
  intros Hne. induction m as [|[k0 v0] m IH]; cbn.
  - destruct (String.eqb_spec k' k); [congruence|done].
  - destruct (String.eqb_spec k k0) as [->|Hk]; cbn.
    + destruct (String.eqb_spec k' k0); [congruence|done].
    + destruct (String.eqb_spec k' k0); [done|]. apply IH.
Qed.

Lemma get_None_keys k m : JsMap.get k m = None <-> k ∉ JsMap.keys m.
Proof.
  unfold JsMap.keys.
  induction m as [|[k' v'] m IH]; cbn.
  - split; [intros _; apply not_elem_of_nil | done].
  - rewrite not_elem_of_cons.
    destruct (String.eqb_spec k k') as [->|Hne].
    + split; [done|]. by intros [? _].
    + rewrite IH. split; [by split|]. by intros [_ ?].
Qed.

Lemma keys_set k v m :
  JsMap.keys (JsMap.set k v m)
  = if JsMap.has k m then JsMap.keys m else JsMap.keys m ++ [k].
Proof.
  unfold JsMap.has, JsMap.keys.
  induction m as [|[k' v'] m IH]; cbn; [done|].
  destruct (String.eqb_spec k k') as [->|Hne]; cbn; [done|].
  rewrite IH. by destruct (JsMap.get k m).
Qed.

Lemma NoDup_keys_set k v m :
  NoDup (JsMap.keys m) -> NoDup (JsMap.keys (JsMap.set k v m)).
Proof.
  intros Hnd. rewrite keys_set. unfold JsMap.has.
  destruct (JsMap.get k m) eqn:E; [done|].
  apply NoDup_app. split; [done|]. split; [|apply NoDup_singleton].
  intros k' Hk' ->%list_elem_of_singleton.
  by apply get_None_keys in E.
Qed.

End JsMapFacts.

(** Maps keyed by the cell of their values. *)

Section Keyed.
Context {V : Type} (vx vy : V -> Z).
Implicit Types (m : JsMap.t V).

Lemma keyed_set v m :
  keyed_by_cell vx vy m ->
  keyed_by_cell vx vy (JsMap.set (hashCoordinate (vx v) (vy v)) v m).
Proof.
  unfold keyed_by_cell. induction m as [|[k' v'] m IH]; cbn; intros H.
  - by constructor.
  - apply Forall_cons in H as [H1 H2].
    destruct (String.eqb_spec (hashCoordinate (vx v) (vy v)) k').
    + by constructor.
    + constructor; [done|by apply IH].
Qed.

Lemma filter_values_at x y m :
  keyed_by_cell vx vy m -> NoDup (JsMap.keys m) ->
  List.filter (fun v => (vx v =? x) && (vy v =? y)) (JsMap.values m)
  = option_list (JsMap.get (hashCoordinate x y) m).
Proof.
  unfold keyed_by_cell, JsMap.keys, JsMap.values.
  induction m as [|[k v] m IH]; cbn; [done|].
  intros [Hk Hm]%Forall_cons [Hnotin Hnd]%NoDup_cons. cbn in Hk.
  destruct (String.eqb_spec (hashCoordinate x y) k) as [E|Hne].
  - rewrite IH by done.
    assert (JsMap.get (hashCoordinate x y) m = None) as ->.
    { apply get_None_keys. unfold JsMap.keys. by rewrite E. }
    rewrite Hk in E. apply hashCoordinate_inj in E as [-> ->].
    by rewrite !Z.eqb_refl.
  - assert ((vx v =? x) && (vy v =? y) = false) as ->.
    { apply andb_false_iff.
      destruct (Z.eqb_spec (vx v) x) as [<-|]; [|by left].
      destruct (Z.eqb_spec (vy v) y) as [<-|]; [|by right].
      congruence. }
    by apply IH.
Qed.

End Keyed.

(** ** Stroke rasterizer *)

Import Rasterizer.

Lemma minor_offset_0 a b : 0 < a -> minor_offset a b 0 = 0.
Proof.
  intros Ha. unfold minor_offset.
  apply Z.div_small. lia.
Qed.

Lemma minor_offset_end a b : 0 < a -> minor_offset a b a = b.
Proof.
  intros Ha. unfold minor_offset.
  symmetry. apply (Z.div_unique_pos _ _ _ (a - 1)); lia.
Qed.

Lemma minor_offset_spec a b k j :
  0 < a -> (minor_offset a b k = j <-> 2 * k * b - a <= 2 * j * a < 2 * k * b + a).
Proof.
  intros Ha. unfold minor_offset. split.
  - intros <-.
    pose proof (Z.div_mod (2 * k * b + a - 1) (2 * a) ltac:(lia)) as E.
    pose proof (Z.mod_pos_bound (2 * k * b + a - 1) (2 * a) ltac:(lia)) as B.
    lia.
  - intros [H1 H2]. symmetry.
    apply (Z.div_unique_pos _ _ _ (2 * k * b + a - 1 - 2 * j * a)); lia.
Qed.

Lemma minor_offset_step a b k :
  0 < a -> 0 <= b <= a ->
  let j := minor_offset a b k in
  let e := a - b - k * b + j * a in
  - b < 2 * e /\
  minor_offset a b (k + 1) = (if 2 * e <? a then j + 1 else j).
Proof.
  intros Ha Hb j e.
  assert (Hj : 2 * k * b - a <= 2 * j * a < 2 * k * b + a)
    by (apply minor_offset_spec; [lia | reflexivity]).
  split.
  - subst e.
    destruct (Z.eq_dec a b) as [->|Hne]; [|lia].
    assert (2 * (j - k) + 1 <> 0) by lia.
    nia.
  - apply minor_offset_spec; [lia|].
    subst e. destruct (Z.ltb_spec (2 * (a - b - k * b + j * a)) a); lia.
Qed.

Lemma loop_fuel_mono fuel extra dx dy sx sy x1 y1 err x y l :
  getLineCells_loop fuel dx dy sx sy x1 y1 err x y = Some l ->
  getLineCells_loop (fuel + extra) dx dy sx sy x1 y1 err x y = Some l.
Proof.
  revert err x y l. induction fuel as [|fuel IH]; intros err x y l; simpl; [discriminate|].
  destruct ((x =? x1) && (y =? y1)); [done|].
  set (r := getLineCells_loop fuel _ _ _ _ _ _ _ _ _).
  destruct r as [l'|] eqn:E; simpl; [|discriminate].
  intros [= <-]. subst r. by rewrite (IH _ _ _ _ E).
Qed.

Lemma loop_unfold fuel dx dy sx sy x1 y1 err x y :
  getLineCells_loop (S fuel) dx dy sx sy x1 y1 err x y =
  if (x =? x1) && (y =? y1) then Some [Cell x y]
  else
    cons (Cell x y) <$>
      getLineCells_loop fuel dx dy sx sy x1 y1
        (if 2 * err <? dx
         then (if 2 * err >? - dy then err - dy else err) + dx
         else (if 2 * err >? - dy then err - dy else err))
        (if 2 * err >? - dy then x + sx else x)
        (if 2 * err <? dx then y + sy else y).
Proof. reflexivity. Qed.

Lemma loop_xmajor a b sx sy x0 y0 x1 y1 (n : nat) k :
  0 < a -> 0 <= b <= a -> (sx = 1 \/ sx = -1) ->
  x1 = x0 + sx * a -> y1 = y0 + sy * b ->
  0 <= k -> k + Z.of_nat n = a ->
  getLineCells_loop (S n) a b sx sy x1 y1
    (a - b - k * b + minor_offset a b k * a)
    (x0 + sx * k) (y0 + sy * minor_offset a b k)
  = Some (xmajor_cell a b sx sy x0 y0 <$> seqZ k (Z.of_nat n + 1)).
Proof.
  intros Ha Hb Hsx Hx1 Hy1. revert k.
  induction n as [|n IH]; intros k Hk Hkn.
  - assert (k = a) as -> by lia.
    rewrite loop_unfold. rewrite minor_offset_end by lia.
    rewrite <- Hx1, <- Hy1, !Z.eqb_refl. cbn [andb].
    change (Z.of_nat 0 + 1) with 1.
    rewrite seqZ_cons by lia. rewrite seqZ_nil by lia.
    cbn. unfold xmajor_cell. rewrite minor_offset_end by lia. congruence.
  - rewrite loop_unfold.
    assert ((x0 + sx * k =? x1) = false) as -> by (apply Z.eqb_neq; nia).
    cbn [andb].
    destruct (minor_offset_step a b k Ha Hb) as [Hlow Hnext].
    cbv zeta in Hlow, Hnext.
    set (j := minor_offset a b k) in *.
    assert ((2 * (a - b - k * b + j * a) >? - b) = true) as ->
      by (apply Z.gtb_lt; lia).
    specialize (IH (k + 1) ltac:(lia) ltac:(lia)).
    rewrite Hnext in IH.
    rewrite (seqZ_cons k) by lia.
    replace (Z.pred (Z.of_nat (S n) + 1)) with (Z.of_nat n + 1) by lia.
    replace (Z.succ k) with (k + 1) by lia.
    rewrite fmap_cons.
    destruct (2 * (a - b - k * b + j * a) <? a).
    + replace (a - b - k * b + j * a - b + a) with (a - b - (k + 1) * b + (j + 1) * a) by lia.
      replace (x0 + sx * k + sx) with (x0 + sx * (k + 1)) by lia.
      replace (y0 + sy * j + sy) with (y0 + sy * (j + 1)) by lia.
      rewrite IH. reflexivity.
    + replace (a - b - k * b + j * a - b) with (a - b - (k + 1) * b + j * a) by lia.
      replace (x0 + sx * k + sx) with (x0 + sx * (k + 1)) by lia.
      rewrite IH. reflexivity.
Qed.

Lemma minor_offset_step_y a b k :
  0 <= a < b ->
  let i := minor_offset b a k in
  let e := a - b - i * b + k * a in
  2 * e < a /\
  minor_offset b a (k + 1) = (if 2 * e >? - b then i + 1 else i).
Proof.
  intros Hab i e.
  assert (Hi : 2 * k * a - b <= 2 * i * b < 2 * k * a + b)
    by (apply minor_offset_spec; [lia | reflexivity]).
  split; [subst e; lia|].
  apply minor_offset_spec; [lia|].
  subst e. destruct (Z.gtb_spec (2 * (a - b - i * b + k * a)) (- b)); lia.
Qed.

Lemma loop_ymajor a b sx sy x0 y0 x1 y1 (n : nat) k :
  0 <= a < b -> (sy = 1 \/ sy = -1) ->
  x1 = x0 + sx * a -> y1 = y0 + sy * b ->
  0 <= k -> k + Z.of_nat n = b ->
  getLineCells_loop (S n) a b sx sy x1 y1
    (a - b - minor_offset b a k * b + k * a)
    (x0 + sx * minor_offset b a k) (y0 + sy * k)
  = Some (ymajor_cell a b sx sy x0 y0 <$> seqZ k (Z.of_nat n + 1)).
Proof.
  intros Hab Hsy Hx1 Hy1. revert k.
  induction n as [|n IH]; intros k Hk Hkn.
  - assert (k = b) as -> by lia.
    rewrite loop_unfold. rewrite minor_offset_end by lia.
    rewrite <- Hx1, <- Hy1, !Z.eqb_refl. cbn [andb].
    change (Z.of_nat 0 + 1) with 1.
    rewrite seqZ_cons by lia. rewrite seqZ_nil by lia.
    cbn. unfold ymajor_cell. rewrite minor_offset_end by lia. congruence.
  - rewrite loop_unfold.
    assert ((y0 + sy * k =? y1) = false) as -> by (apply Z.eqb_neq; nia).
    rewrite andb_false_r.
    destruct (minor_offset_step_y a b k Hab) as [Hup Hnext].
    cbv zeta in Hup, Hnext.
    set (i := minor_offset b a k) in *.
    assert ((2 * (a - b - i * b + k * a) <? a) = true) as ->
      by (apply Z.ltb_lt; lia).
    specialize (IH (k + 1) ltac:(lia) ltac:(lia)).
    rewrite Hnext in IH.
    rewrite (seqZ_cons k) by lia.
    replace (Z.pred (Z.of_nat (S n) + 1)) with (Z.of_nat n + 1) by lia.
    replace (Z.succ k) with (k + 1) by lia.
    rewrite fmap_cons.
    destruct (2 * (a - b - i * b + k * a) >? - b).
    + replace (a - b - i * b + k * a - b + a) with (a - b - (i + 1) * b + (k + 1) * a) by lia.
      replace (x0 + sx * i + sx) with (x0 + sx * (i + 1)) by lia.
      replace (y0 + sy * k + sy) with (y0 + sy * (k + 1)) by lia.
      rewrite IH. reflexivity.
    + replace (a - b - i * b + k * a + a) with (a - b - i * b + (k + 1) * a) by lia.
      replace (y0 + sy * k + sy) with (y0 + sy * (k + 1)) by lia.
      rewrite IH. reflexivity.
Qed.

Lemma loop_length_le fuel dx dy sx sy x1 y1 err x y l :
  getLineCells_loop fuel dx dy sx sy x1 y1 err x y = Some l ->
  (length l <= fuel)%nat.
Proof.
  revert err x y l. induction fuel as [|fuel IH]; intros err x y l; [discriminate|].
  rewrite loop_unfold.
  destruct ((x =? x1) && (y =? y1)); [intros [= <-]; simpl; lia|].
  destruct (getLineCells_loop fuel _ _ _ _ _ _ _ _ _) as [l'|] eqn:E; simpl; [|discriminate].
  intros [= <-]. apply IH in E. simpl. lia.
Qed.

Lemma getLineCells_closed_form fuel x0 y0 x1 y1 :
  (Z.to_nat (Z.max (Z.abs (x1 - x0)) (Z.abs (y1 - y0))) < fuel)%nat ->
  getLineCells fuel x0 y0 x1 y1 = Some (closed_form x0 y0 x1 y1).
Proof.
  intros Hfuel. unfold getLineCells, closed_form.
  assert (Hcell : cell_at x0 y0 x1 y1 =
    if Z.abs (y1 - y0) <=? Z.abs (x1 - x0)
    then xmajor_cell (Z.abs (x1 - x0)) (Z.abs (y1 - y0)) (if x0 <? x1 then 1 else -1) (if y0 <? y1 then 1 else -1) x0 y0
    else ymajor_cell (Z.abs (x1 - x0)) (Z.abs (y1 - y0)) (if x0 <? x1 then 1 else -1) (if y0 <? y1 then 1 else -1) x0 y0).
  { unfold cell_at. by destruct (_ <=? _). }
  rewrite Hcell. clear Hcell.
  set (a := Z.abs (x1 - x0)) in *. set (b := Z.abs (y1 - y0)) in *.
  set (sx := if x0 <? x1 then 1 else -1).
  set (sy := if y0 <? y1 then 1 else -1).
  assert (Hsx : sx = 1 \/ sx = -1) by (subst sx; destruct (x0 <? x1); auto).
  assert (Hsy : sy = 1 \/ sy = -1) by (subst sy; destruct (y0 <? y1); auto).
  assert (Hx1 : x1 = x0 + sx * a)
    by (subst sx a; destruct (Z.ltb_spec x0 x1); lia).
  assert (Hy1 : y1 = y0 + sy * b)
    by (subst sy b; destruct (Z.ltb_spec y0 y1); lia).
  assert (Ha : 0 <= a) by (subst a; lia).
  assert (Hb : 0 <= b) by (subst b; lia).
  destruct (Z.leb_spec b a) as [Hba|Hab].
  - rewrite Z.max_l by lia.
    destruct (Z.eq_dec a 0) as [Ha0|Ha0].
    + assert (b = 0) by lia.
      destruct fuel as [|fuel]; [lia|]. rewrite loop_unfold.
      assert (x0 = x1) as <- by lia. assert (y0 = y1) as <- by lia.
      rewrite !Z.eqb_refl. cbn [andb]. rewrite Ha0, H.
      change (seqZ 0 (0 + 1)) with [0]. cbn [fmap list_fmap].
      unfold xmajor_cell, minor_offset.
      change ((2 * 0 * 0 + 0 - 1) `div` (2 * 0)) with 0.
      do 3 f_equal; lia.
    + replace fuel with (S (Z.to_nat a) + (fuel - S (Z.to_nat a)))%nat by lia.
      apply loop_fuel_mono.
      pose proof (loop_xmajor a b sx sy x0 y0 x1 y1 (Z.to_nat a) 0
                    ltac:(lia) ltac:(lia) Hsx Hx1 Hy1 ltac:(lia) ltac:(lia)) as H.
      rewrite minor_offset_0 in H by lia.
      rewrite Z2Nat.id in H by lia.
      rewrite <- H. f_equal; lia.
  - rewrite Z.max_r by lia.
    replace fuel with (S (Z.to_nat b) + (fuel - S (Z.to_nat b)))%nat by lia.
    apply loop_fuel_mono.
    pose proof (loop_ymajor a b sx sy x0 y0 x1 y1 (Z.to_nat b) 0
                  ltac:(lia) Hsy Hx1 Hy1 ltac:(lia) ltac:(lia)) as H.
    rewrite minor_offset_0 in H by lia.
    rewrite Z2Nat.id in H by lia.
    rewrite <- H. f_equal; lia.
Qed.

Lemma closed_form_length x0 y0 x1 y1 :
  length (closed_form x0 y0 x1 y1)
  = S (Z.to_nat (Z.max (Z.abs (x1 - x0)) (Z.abs (y1 - y0)))).
Proof.
  unfold closed_form. rewrite length_fmap, length_seqZ; lia.
Qed.

Lemma getLineCells_short_fuel fuel x0 y0 x1 y1 :
  (fuel <= Z.to_nat (Z.max (Z.abs (x1 - x0)) (Z.abs (y1 - y0))))%nat ->
  getLineCells fuel x0 y0 x1 y1 = None.
Proof.
  intros Hfuel.
  destruct (getLineCells fuel x0 y0 x1 y1) as [l|] eqn:E; [|done].
  pose proof (loop_length_le _ _ _ _ _ _ _ _ _ _ _ E) as Hlen.
  pose proof (loop_fuel_mono _ (S (Z.to_nat (Z.max (Z.abs (x1 - x0)) (Z.abs (y1 - y0))))) _ _ _ _ _ _ _ _ _ _ E) as E'.
  fold (getLineCells (fuel + S (Z.to_nat (Z.max (Z.abs (x1 - x0)) (Z.abs (y1 - y0)))))%nat x0 y0 x1 y1) in E'.
  rewrite getLineCells_closed_form in E' by lia.
  injection E' as <-. rewrite closed_form_length in Hlen. lia.
Qed.

Lemma lineCells_closed_form from to :
  lineCells from to
  = closed_form (cell_x from) (cell_y from) (cell_x to) (cell_y to).
Proof.
  unfold lineCells. rewrite getLineCells_closed_form; [done|].
  unfold stroke_steps. lia.
Qed.

Lemma closed_form_lookup x0 y0 x1 y1 (i : nat) :
  (i <= Z.to_nat (Z.max (Z.abs (x1 - x0)) (Z.abs (y1 - y0))))%nat ->
  closed_form x0 y0 x1 y1 !! i = Some (cell_at x0 y0 x1 y1 (Z.of_nat i)).
Proof.
  intros Hi. unfold closed_form.
  rewrite list_lookup_fmap, lookup_seqZ_lt by lia. reflexivity.
Qed.

Lemma cell_at_first x0 y0 x1 y1 : cell_at x0 y0 x1 y1 0 = Cell x0 y0.
Proof.
  unfold cell_at, xmajor_cell, ymajor_cell, minor_offset.
  destruct (Z.leb_spec (Z.abs (y1 - y0)) (Z.abs (x1 - x0))).
  - destruct (Z.eq_dec (Z.abs (x1 - x0)) 0) as [->|].
    + change ((2 * 0 * Z.abs (y1 - y0) + 0 - 1) `div` (2 * 0)) with 0. f_equal; lia.
    + rewrite Z.div_small by lia. f_equal; lia.
  - rewrite Z.div_small by lia. f_equal; lia.
Qed.

Lemma cell_at_last x0 y0 x1 y1 :
  cell_at x0 y0 x1 y1 (Z.max (Z.abs (x1 - x0)) (Z.abs (y1 - y0))) = Cell x1 y1.
Proof.
  unfold cell_at, xmajor_cell, ymajor_cell.
  destruct (Z.leb_spec (Z.abs (y1 - y0)) (Z.abs (x1 - x0))).
  - rewrite Z.max_l by lia.
    destruct (Z.eq_dec (Z.abs (x1 - x0)) 0) as [E|].
    + rewrite E. unfold minor_offset.
      change ((2 * 0 * Z.abs (y1 - y0) + 0 - 1) `div` (2 * 0)) with 0. f_equal; lia.
    + rewrite minor_offset_end by lia.
      destruct (Z.ltb_spec x0 x1), (Z.ltb_spec y0 y1); f_equal; lia.
  - rewrite Z.max_r by lia. rewrite minor_offset_end by lia.
    destruct (Z.ltb_spec x0 x1), (Z.ltb_spec y0 y1); f_equal; lia.
Qed.

Lemma lineCells_length from to :
  length (lineCells from to) = stroke_steps from to.
Proof. rewrite lineCells_closed_form. apply closed_form_length. Qed.

Lemma lineCells_head from to : head (lineCells from to) = Some from.
Proof.
  rewrite lineCells_closed_form, head_lookup, closed_form_lookup by lia.
  rewrite cell_at_first. by destruct from.
Qed.

Lemma lineCells_last from to : last (lineCells from to) = Some to.
Proof.
  rewrite lineCells_closed_form, last_lookup, closed_form_length.
  cbn [pred]. rewrite closed_form_lookup by lia.
  rewrite Z2Nat.id by lia. rewrite cell_at_last. by destruct to.
Qed.

(** C5.  For every pair of integer endpoints the rasterizer loop
    terminates: with [max(|x1-x0|, |y1-y0|)] iterations of fuel it is
    still running, with one more (or any larger amount) it returns
    [lineCells from to].  That sequence has length
    [max(|x1-x0|, |y1-y0|) + 1], starts at [from], ends at [to] and so
    contains both; the stroke from (0,0) to (3,1) is exactly
    (0,0), (1,0), (2,1), (3,1). *)
Theorem lineCells_endpoints_and_length (from to : cell) :
  let n := Z.max (Z.abs (cell_x to - cell_x from))
                 (Z.abs (cell_y to - cell_y from)) in
  (forall extra : nat,
      getLineCells (S (Z.to_nat n) + extra)
        (cell_x from) (cell_y from) (cell_x to) (cell_y to)
      = Some (lineCells from to))
  /\ getLineCells (Z.to_nat n)
        (cell_x from) (cell_y from) (cell_x to) (cell_y to) = None
  /\ Z.of_nat (length (lineCells from to)) = n + 1
  /\ head (lineCells from to) = Some from
  /\ last (lineCells from to) = Some to
  /\ from ∈ lineCells from to
  /\ to ∈ lineCells from to
  /\ lineCells (Cell 0 0) (Cell 3 1)
     = [Cell 0 0; Cell 1 0; Cell 2 1; Cell 3 1].
Proof.
  intros n. split; [|split; [|split; [|split; [|split; [|split; [|split]]]]]].
  - intros extra. rewrite lineCells_closed_form.
    apply getLineCells_closed_form. subst n. lia.
  - apply getLineCells_short_fuel. subst n. lia.
  - rewrite lineCells_length. unfold stroke_steps. subst n. lia.
  - apply lineCells_head.
  - apply lineCells_last.
  - apply (head_Some_elem_of _ _ (lineCells_head from to)).
  - pose proof (lineCells_last from to) as H.
    rewrite last_lookup in H. by apply list_elem_of_lookup_2 in H.
  - reflexivity.
Qed.

Lemma tie_at_spec M b k :
  0 < M ->
  tie_at M b k = true <-> 2 * minor_offset M b k * M = 2 * k * b - M.
Proof.
  intros HM. unfold tie_at. rewrite Z.eqb_eq.
  set (q := minor_offset M b k).
  assert (Hq : 2 * k * b - M <= 2 * q * M < 2 * k * b + M)
    by (apply minor_offset_spec; [lia | reflexivity]).
  pose proof (Z.div_mod (2 * k * b + M) (2 * M) ltac:(lia)) as E.
  pose proof (Z.mod_pos_bound (2 * k * b + M) (2 * M) ltac:(lia)) as B.
  set (d := (2 * k * b + M) `div` (2 * M)) in *.
  set (r := (2 * k * b + M) `mod` (2 * M)) in *.
  split.
  - intros Hr. rewrite Hr in E.
    assert (q = d - 1) by nia. subst q. nia.
  - intros Hq'. assert (d = q + 1) by nia. nia.
Qed.

Lemma minor_offset_mirror M b k :
  0 < M ->
  minor_offset M b k + minor_offset M b (M - k)
  = b - (if tie_at M b k then 1 else 0).
Proof.
  intros HM.
  pose proof (tie_at_spec M b k HM) as T.
  set (q := minor_offset M b k) in *.
  assert (Hq : 2 * k * b - M <= 2 * q * M < 2 * k * b + M)
    by (apply minor_offset_spec; [lia | reflexivity]).
  enough (minor_offset M b (M - k) = b - (if tie_at M b k then 1 else 0) - q) by lia.
  apply minor_offset_spec; [lia|].
  destruct (tie_at M b k).
  - assert (2 * q * M = 2 * k * b - M) by (by apply T). lia.
  - assert (2 * q * M <> 2 * k * b - M) by (intros E; by apply T in E). lia.
Qed.

Lemma tie_at_minor_0 M k : 0 < M -> tie_at M 0 k = false.
Proof.
  intros HM. unfold tie_at. apply Z.eqb_neq.
  replace (2 * k * 0 + M) with M by lia.
  rewrite Z.mod_small by lia. lia.
Qed.

Lemma tie_at_first M b : 0 < M -> tie_at M b 0 = false.
Proof.
  intros HM. unfold tie_at. apply Z.eqb_neq.
  replace (2 * 0 * b + M) with M by lia.
  rewrite Z.mod_small by lia. lia.
Qed.

Lemma tie_at_last M b : 0 < M -> tie_at M b M = false.
Proof.
  intros HM. unfold tie_at. apply Z.eqb_neq.
  replace (2 * M * b + M) with (M + b * (2 * M)) by lia.
  rewrite Z.mod_add by lia.
  rewrite Z.mod_small by lia. lia.
Qed.

Lemma cell_at_mirror x0 y0 x1 y1 i :
  let a := Z.abs (x1 - x0) in
  let b := Z.abs (y1 - y0) in
  0 < Z.max a b ->
  cell_at x0 y0 x1 y1 i = cell_at x1 y1 x0 y0 (Z.max a b - i)
  <-> tie_at (Z.max a b) (Z.min a b) i = false.
Proof.
  intros a b HM. unfold cell_at.
  replace (Z.abs (x0 - x1)) with a by (subst a; lia).
  replace (Z.abs (y0 - y1)) with b by (subst b; lia).
  fold a b.
  assert (Hx : x1 = x0 + (if x0 <? x1 then 1 else -1) * a)
    by (subst a; destruct (Z.ltb_spec x0 x1); lia).
  assert (Hy : y1 = y0 + (if y0 <? y1 then 1 else -1) * b)
    by (subst b; destruct (Z.ltb_spec y0 y1); lia).
  assert (Hsx : 0 < a -> (if x1 <? x0 then 1 else -1) = - (if x0 <? x1 then 1 else -1))
    by (subst a; destruct (Z.ltb_spec x0 x1), (Z.ltb_spec x1 x0); lia).
  assert (Hsy : 0 < b -> (if y1 <? y0 then 1 else -1) = - (if y0 <? y1 then 1 else -1))
    by (subst b; destruct (Z.ltb_spec y0 y1), (Z.ltb_spec y1 y0); lia).
  assert (Hsx' : (if x0 <? x1 then 1 else -1) = 1 \/ (if x0 <? x1 then 1 else -1) = -1)
    by (destruct (x0 <? x1); auto).
  assert (Hsy' : (if y0 <? y1 then 1 else -1) = 1 \/ (if y0 <? y1 then 1 else -1) = -1)
    by (destruct (y0 <? y1); auto).
  assert (Ha : 0 <= a) by (subst a; lia).
  assert (Hb : 0 <= b) by (subst b; lia).
  set (sx := if x0 <? x1 then 1 else -1) in *.
  set (sy := if y0 <? y1 then 1 else -1) in *.
  set (sx' := if x1 <? x0 then 1 else -1) in *.
  set (sy' := if y1 <? y0 then 1 else -1) in *.
  clearbody sx sy sx' sy' a b.
  destruct (Z.leb_spec b a) as [Hba|Hab].
  - rewrite Z.max_l, Z.min_r in * by lia.
    unfold xmajor_cell.
    pose proof (minor_offset_mirror a b i HM) as Hm.
    destruct (Z.eq_dec b 0) as [->|Hb0].
    + rewrite tie_at_minor_0 in * by lia.
      assert (y1 = y0) by lia. subst y1.
      assert (minor_offset a 0 i = 0 /\ minor_offset a 0 (a - i) = 0) as [-> ->].
      { split; apply minor_offset_spec; lia. }
      split; [done|]. intros _. f_equal; [|lia].
      rewrite Hsx by lia. lia.
    + rewrite Hsx, Hsy by lia.
      destruct (tie_at a b i); split; try done.
      * intros [= _ E]. nia.
      * intros _. f_equal; nia.
  - rewrite Z.max_r, Z.min_l in * by lia.
    unfold ymajor_cell.
    pose proof (minor_offset_mirror b a i HM) as Hm.
    destruct (Z.eq_dec a 0) as [->|Ha0].
    + rewrite tie_at_minor_0 in * by lia.
      assert (x1 = x0) by lia. subst x1.
      assert (minor_offset b 0 i = 0 /\ minor_offset b 0 (b - i) = 0) as [-> ->].
      { split; apply minor_offset_spec; lia. }
      split; [done|]. intros _. f_equal; [lia|].
      rewrite Hsy by lia. lia.
    + rewrite Hsx, Hsy by lia.
      destruct (tie_at b a i); split; try done.
      * intros [= E _]. nia.
      * intros _. f_equal; nia.
Qed.

Lemma reverse_closed_form_lookup x0 y0 x1 y1 (i : nat) :
  let M := Z.max (Z.abs (x1 - x0)) (Z.abs (y1 - y0)) in
  (i <= Z.to_nat M)%nat ->
  reverse (closed_form x1 y1 x0 y0) !! i
  = Some (cell_at x1 y1 x0 y0 (M - Z.of_nat i)).
Proof.
  intros M Hi.
  assert (HM : Z.max (Z.abs (x0 - x1)) (Z.abs (y0 - y1)) = M) by (subst M; lia).
  rewrite reverse_lookup by (rewrite closed_form_length; lia).
  rewrite closed_form_length, closed_form_lookup by lia.
  rewrite HM. do 2 f_equal. lia.
Qed.

Lemma lineCells_reverse_iff from to :
  lineCells from to = reverse (lineCells to from) <-> tie_free from to = true.
Proof.
  rewrite !lineCells_closed_form. unfold tie_free.
  destruct from as [x0 y0], to as [x1 y1]. cbn [cell_x cell_y].
  set (a := Z.abs (x1 - x0)). set (b := Z.abs (y1 - y0)).
  set (M := Z.max a b).
  assert (HM0 : 0 <= M) by (subst M a b; lia).
  destruct (Z.eq_dec M 0) as [HM|HM].
  - rewrite HM. change (seqZ 1 (0 - 1)) with (@nil Z). cbn [forallb].
    split; [done|]. intros _.
    assert (x1 = x0 /\ y1 = y0) as [-> ->] by (subst M a b; lia).
    unfold closed_form. replace (Z.abs (x0 - x0)) with 0 by lia.
    replace (Z.abs (y0 - y0)) with 0 by lia. reflexivity.
  - rewrite forallb_forall. split.
    + intros E k Hk. apply list_elem_of_In, elem_of_seqZ in Hk.
      apply negb_true_iff.
      apply (cell_at_mirror x0 y0 x1 y1 k); [fold a b M; lia|].
      fold a b M.
      apply (f_equal (fun l => l !! Z.to_nat k)) in E.
      rewrite closed_form_lookup in E by (fold a b M; lia).
      pose proof (reverse_closed_form_lookup x0 y0 x1 y1 (Z.to_nat k)) as R.
      cbv zeta in R. fold a b M in R. rewrite R in E by lia.
      rewrite Z2Nat.id in E by lia. congruence.
    + intros F. apply list_eq. intros i.
      destruct (decide (i <= Z.to_nat M)%nat) as [Hi|Hi].
      * rewrite closed_form_lookup by (fold a b M; lia).
        pose proof (reverse_closed_form_lookup x0 y0 x1 y1 i) as R.
        cbv zeta in R. fold a b M in R. rewrite R by lia. f_equal.
        apply (cell_at_mirror x0 y0 x1 y1 (Z.of_nat i)); [fold a b M; lia|].
        fold a b M.
        destruct (decide (i = 0%nat)) as [->|Hi0]; [by apply tie_at_first; lia|].
        destruct (decide (Z.of_nat i = M)) as [->|HiM]; [by apply tie_at_last; lia|].
        apply negb_true_iff, F, list_elem_of_In, elem_of_seqZ. lia.
      * rewrite !lookup_ge_None_2; [done|..].
        -- rewrite length_reverse, closed_form_length. subst M a b. lia.
        -- rewrite closed_form_length. fold a b M. lia.
Qed.

Lemma straight_tie_free from to :
  straight from to = true -> tie_free from to = true.
Proof.
  unfold straight, tie_free. intros H.
  set (a := Z.abs (cell_x to - cell_x from)) in *.
  set (b := Z.abs (cell_y to - cell_y from)) in *.
  assert (Ha : 0 <= a) by (subst a; lia).
  assert (Hb : 0 <= b) by (subst b; lia).
  apply forallb_forall. intros k Hk%list_elem_of_In%elem_of_seqZ.
  apply negb_true_iff.
  apply orb_true_iff in H as [H|H]; [apply orb_true_iff in H as [H|H]|];
    apply Z.eqb_eq in H.
  - rewrite Z.min_l by lia. rewrite H. apply tie_at_minor_0. lia.
  - rewrite Z.min_r by lia. rewrite H. apply tie_at_minor_0. lia.
  - rewrite H, Z.max_id, Z.min_id. unfold tie_at. apply Z.eqb_neq.
    replace (2 * k * b + b) with (b + k * (2 * b)) by lia.
    rewrite Z.mod_add by lia. rewrite Z.mod_small by lia. lia.
Qed.

(** C6 (amended).  Swapping the endpoints gives a sequence of the same
    length that runs from [to] back to [from]; it is the reverse of
    [lineCells from to] exactly when the stroke is tie-free, that is
    when the ideal line never passes half-way between two cells, which
    is the case for every horizontal, vertical and diagonal stroke. *)
Theorem lineCells_reversal (from to : cell) :
  length (lineCells to from) = length (lineCells from to)
  /\ head (lineCells to from) = Some to
  /\ last (lineCells to from) = Some from
  /\ bool_decide (lineCells from to = reverse (lineCells to from))
     = tie_free from to
  /\ implb (straight from to) (tie_free from to) = true.
Proof.
  split; [|split; [|split; [|split]]].
  - rewrite !lineCells_length. unfold stroke_steps. lia.
  - apply lineCells_head.
  - apply lineCells_last.
  - destruct (tie_free from to) eqn:T.
    + apply bool_decide_eq_true. by apply lineCells_reverse_iff.
    + apply bool_decide_eq_false. intros E%lineCells_reverse_iff. congruence.
  - destruct (straight from to) eqn:S; [|done].
    cbn. by apply straight_tie_free.
Qed.

(** C6, counterexample: the stroke from (0,0) to (2,1) passes half-way
    between (1,0) and (1,1); each direction rounds towards its own
    start. *)
Lemma reversed_stroke_differs_at_a_tie :
  lineCells (Cell 0 0) (Cell 2 1) = [Cell 0 0; Cell 1 0; Cell 2 1]
  /\ reverse (lineCells (Cell 2 1) (Cell 0 0)) = [Cell 0 0; Cell 1 1; Cell 2 1]
  /\ lineCells (Cell 0 0) (Cell 2 1) <> reverse (lineCells (Cell 2 1) (Cell 0 0)).
Proof. split; [reflexivity|]. split; [reflexivity|]. vm_compute. discriminate. Qed.

(** ** Grid addressing *)

Import Grid.

Lemma Math_min_of_Z a b : Js.Math_min (Js.of_Z a) (Js.of_Z b) = Js.of_Z (Z.min a b).
Proof.
  unfold Js.Math_min, Js.of_Z, Qle_bool. cbn. rewrite !Z.mul_1_r.
  destruct (Z.leb_spec a b); [by rewrite Z.min_l by lia | by rewrite Z.min_r by lia].
Qed.

Lemma Math_max_of_Z a b : Js.Math_max (Js.of_Z a) (Js.of_Z b) = Js.of_Z (Z.max a b).
Proof.
  unfold Js.Math_max, Js.of_Z, Qle_bool. cbn. rewrite !Z.mul_1_r.
  destruct (Z.leb_spec a b); [by rewrite Z.max_r by lia | by rewrite Z.max_l by lia].
Qed.

Lemma clamp_axis_saturate (v : Js.number) :
  Js.Math_max (Js.of_Z 0)
    (Js.Math_min (Js.of_Z MAX_INDEX)
       (Js.Math_floor (Js.div (Js.add v (Js.Fin HALF_WORLD))
                              (Js.Fin CELL_SIZE_METERS))))
  = saturate v.
Proof.
  destruct v as [x| | |]; [|done..].
  unfold Js.add, Js.div. cbn [Qnum CELL_SIZE_METERS Z.eqb Pos.eqb].
  unfold Js.Math_floor. by rewrite Math_min_of_Z, Math_max_of_Z.
Qed.

Lemma saturate_clamped v : clamped_axis v (saturate v).
Proof.
  destruct v as [x| | |]; cbn; [| | |done].
  - eexists. split; [reflexivity|]. unfold MAX_INDEX. lia.
  - exists MAX_INDEX. split; [done|]. unfold MAX_INDEX. lia.
  - exists 0. split; [done|]. lia.
Qed.

(** C4 (amended).  [gridCoordsFromLatLng] is total: on each axis
    independently it adds the half-world offset to the projected value,
    divides by the cell edge, floors and saturates, so every projected
    value that is a number, infinite ones included, lands in
    [0, 2_000_000); a projection that is NaN stays NaN.  The cell of
    [handleMapClick] is only the floor of coordinate / cell edge: it is
    not clamped. *)
Theorem gridCoordsFromLatLng_saturates
    (mercator_degrees : Js.number -> Js.number) (lng lat : Js.number)
    (click_lng click_lat : Q) :
  let projected := toWebMercator mercator_degrees lng lat in
  let grid := gridCoordsFromLatLng mercator_degrees lng lat in
  let clicked := clickCell click_lng click_lat in
  grid = (saturate projected.1, saturate projected.2)
  /\ clamped_axis projected.1 grid.1
  /\ clamped_axis projected.2 grid.2
  /\ (inject_Z clicked.1 <= click_lng / CELL_SIZE_METERS
      < inject_Z (clicked.1 + 1))%Q
  /\ (inject_Z clicked.2 <= click_lat / CELL_SIZE_METERS
      < inject_Z (clicked.2 + 1))%Q.
Proof.
  intros projected grid clicked.
  assert (E : grid = (saturate projected.1, saturate projected.2)).
  { subst grid projected. unfold gridCoordsFromLatLng.
    destruct (toWebMercator mercator_degrees lng lat) as [x y]. cbn [fst snd].
    by rewrite !clamp_axis_saturate. }
  split; [done|]. rewrite E. cbn [fst snd].
  split; [apply saturate_clamped|]. split; [apply saturate_clamped|].
  subst clicked. unfold clickCell. cbn [fst snd].
  split; (split; [apply Qfloor_le | apply Qlt_floor]).
Qed.

(** C4, counterexample: a click at longitude -10 is given column -1 by
    [handleMapClick]. *)
Lemma click_on_western_longitude_is_not_clamped :
  clickCell (-10 # 1) (0 # 1) = (-1, 0)
  /\ ~ (0 <= (clickCell (-10 # 1) (0 # 1)).1 < 2000000).
Proof. split; [reflexivity|]. vm_compute. intros [H _]. by apply H. Qed.

(** ** Remote events on the cell caches *)

Import Samples.

Lemma run_snoc es e s : run (es ++ [e]) s = step e (run es s).
Proof. unfold run. by rewrite fold_left_app. Qed.

Lemma paints_scheduleCanvasRender s :
  paints (scheduleCanvasRender s) = paints s.
Proof. unfold scheduleCanvasRender. cbn. by destruct (animationFrame s). Qed.

Lemma effects_scheduleCanvasRender s :
  effects (scheduleCanvasRender s)
  = effects s ++ ScheduleCanvasRender
      :: (if animationFrame s then [] else [RequestAnimationFrame]).
Proof.
  unfold scheduleCanvasRender. cbn.
  destruct (animationFrame s); cbn; by rewrite <- ?app_assoc.
Qed.

Lemma remote_paint_cache (closed : option string) (d : PaintUpdate) (s : state) :
  is_user closed (pu_owner d) = false ->
  paints (handleRealtimeUpdate closed (MsgPaint d) s)
  = match pu_color d with
    | None => delete (getPaintKey (pu_x d) (pu_y d)) (paints s)
    | Some _ =>
        match cached_paint d with
        | Some p => <[getPaintKey (pu_x d) (pu_y d) := p]> (paints s)
        | None => paints s
        end
    end.
Proof.
  intros H. unfold handleRealtimeUpdate, cached_paint. rewrite H.
  rewrite paints_scheduleCanvasRender. cbn. by destruct (pu_color d).
Qed.

Lemma remote_paint_lookup (closed : option string) (d : PaintUpdate) (s : state) :
  is_user closed (pu_owner d) = false ->
  paints (handleRealtimeUpdate closed (MsgPaint d) s)
    !! getPaintKey (pu_x d) (pu_y d)
  = cached_paint d.
Proof.
  intros H. rewrite remote_paint_cache by done. unfold cached_paint.
  destruct (pu_color d).
  - by rewrite lookup_insert_eq.
  - by rewrite lookup_delete_eq.
Qed.

Lemma remote_paint_effects (closed : option string) (d : PaintUpdate) (s : state) :
  is_user closed (pu_owner d) = false ->
  effects (handleRealtimeUpdate closed (MsgPaint d) s)
  = effects s ++ ScheduleCanvasRender
      :: (if animationFrame s then [] else [RequestAnimationFrame]).
Proof.
  intros H. unfold handleRealtimeUpdate. rewrite H.
  by rewrite effects_scheduleCanvasRender.
Qed.

Lemma CC_insert_lookup (r : Store.row) old (s : CC.state) :
  CC.canvasReady s = true ->
  CC.paintedCells (CC.handleRealtimeUpdate (CC.mkPayload (Some r) old CC.INSERT) s)
    !! hashCoordinate (Store.row_x r) (Store.row_y r)
  = Some (CC.cached_cell r).
Proof.
  intros H. unfold CC.handleRealtimeUpdate. rewrite H. cbn.
  unfold CC.drawPixel. cbn. destruct (CC.mapReady s); cbn; by rewrite lookup_insert_eq.
Qed.

Lemma CC_canvasReady_handle p s :
  CC.canvasReady (CC.handleRealtimeUpdate p s) = CC.canvasReady s.
Proof.
  unfold CC.handleRealtimeUpdate.
  destruct (CC.canvasReady s) eqn:R; cbn [negb]; [|done].
  destruct (CC.eventType p), (CC.payload_new p), (CC.payload_old p); cbn; try done;
    unfold CC.drawPixel, CC.clearPixel; cbn; by destruct (CC.mapReady s).
Qed.

(** The handler of CollaborativeCanvas has no branch for UPDATE events:
    such an event leaves the component as it is. *)
Lemma CC_update_event_is_dropped new old (c : CC.state) :
  CC.handleRealtimeUpdate (CC.mkPayload new old CC.UPDATE) c = c.
Proof.
  unfold CC.handleRealtimeUpdate. destruct (negb (CC.canvasReady c)); [done|].
  cbn. by destruct new, old.
Qed.

(** C1 (amended).  Last arrival wins, for the updates a handler applies
    as another user's: a paint message of PaintCanvas whose owner is not
    the user id the handler closed over (the subscribed handler closed
    over none, so for it that is every paint message) is always
    applied, whatever its timestamp, and leaves the cache holding
    exactly its value (no entry for a null colour).  Of two such updates
    to one cell the cache therefore ends with the one applied last, in
    either order.  The INSERT events of CollaborativeCanvas, once its
    canvas is set up, behave the same way.  No version is compared: the
    cache stores none. *)
Theorem remote_updates_last_applied_wins
    (closed : option string) (s : state) (u1 u2 : PaintUpdate)
    (c : CC.state) (r1 r2 : Store.row) (old1 old2 : option Store.row) :
  pu_x u1 = pu_x u2 -> pu_y u1 = pu_y u2 ->
  is_user closed (pu_owner u1) = false ->
  is_user closed (pu_owner u2) = false ->
  Store.row_x r1 = Store.row_x r2 -> Store.row_y r1 = Store.row_y r2 ->
  CC.canvasReady c = true ->
  let key := getPaintKey (pu_x u1) (pu_y u1) in
  let ckey := hashCoordinate (Store.row_x r1) (Store.row_y r1) in
  let insert1 := CC.mkPayload (Some r1) old1 CC.INSERT in
  let insert2 := CC.mkPayload (Some r2) old2 CC.INSERT in
  paints (handleRealtimeUpdate closed (MsgPaint u1) s) !! key = cached_paint u1
  /\ paints (handleRealtimeUpdate closed (MsgPaint u2)
              (handleRealtimeUpdate closed (MsgPaint u1) s)) !! key
     = cached_paint u2
  /\ paints (handleRealtimeUpdate closed (MsgPaint u1)
              (handleRealtimeUpdate closed (MsgPaint u2) s)) !! key
     = cached_paint u1
  /\ (forall owner, is_user subscribed_userId owner = false)
  /\ CC.paintedCells (CC.handleRealtimeUpdate insert2
                        (CC.handleRealtimeUpdate insert1 c)) !! ckey
     = Some (CC.cached_cell r2)
  /\ CC.paintedCells (CC.handleRealtimeUpdate insert1
                        (CC.handleRealtimeUpdate insert2 c)) !! ckey
     = Some (CC.cached_cell r1).
Proof.
  intros Hx Hy H1 H2 Hrx Hry Hc key ckey insert1 insert2.
  subst key ckey insert1 insert2.
  split; [by apply remote_paint_lookup|].
  split; [rewrite Hx, Hy; by apply remote_paint_lookup|].
  split; [by apply remote_paint_lookup|].
  split; [done|].
  split.
  - rewrite Hrx, Hry. apply CC_insert_lookup. by rewrite CC_canvasReady_handle.
  - apply CC_insert_lookup. by rewrite CC_canvasReady_handle.
Qed.

(** C1, counterexample: bob's paint (timestamp 2) is delivered before
    alice's (timestamp 1); the cache ends with alice's value. *)
Lemma last_writer_wins_fails_on_late_arrival :
  pu_timestamp alice_paint < pu_timestamp bob_paint
  /\ paints (handleRealtimeUpdate subscribed_userId (MsgPaint alice_paint)
              (handleRealtimeUpdate subscribed_userId (MsgPaint bob_paint)
                 (initial (Some "me"))))
       !! getPaintKey 1 1
     <> cached_paint bob_paint.
Proof. split; [reflexivity|]. vm_compute. discriminate. Qed.

Lemma remote_updates_last_applied_wins_witness :
  paints (handleRealtimeUpdate subscribed_userId (MsgPaint alice_paint)
            (handleRealtimeUpdate subscribed_userId (MsgPaint bob_paint)
               (initial (Some "me"))))
    !! getPaintKey 1 1
  = cached_paint alice_paint.
Proof.
  pose proof (remote_updates_last_applied_wins subscribed_userId
     (initial (Some "me")) bob_paint alice_paint (CC.initial None)
     alice_row bob_row None None
     eq_refl eq_refl eq_refl eq_refl eq_refl eq_refl eq_refl) as H.
  exact (proj1 (proj2 H)).
Defined.

Lemma handlePaint_fields x y color now s uid :
  userId s = Some uid -> String.eqb uid "" = false -> mapReady s = true ->
  pendingPaints (handlePaint x y color now s)
  = <[getPaintKey x y := mkPendingPaint x y (Some color) uid now]> (pendingPaints s)
  /\ paints (handlePaint x y color now s)
    = <[getPaintKey x y := mkPaint None x y (Some color) uid None
                             (Some (userName s)) (Some (userAvatar s))]> (paints s)
  /\ userId (handlePaint x y color now s) = Some uid.
Proof.
  intros U G1 G2. unfold handlePaint. rewrite U, G1, G2. cbn.
  by destruct (channelConnected s).
Qed.

(** C2 (code defect).  [handleRealtimeUpdate] is written to return at
    once on a message of the session's own user, and a handler closed
    over the session's user id does.  The handler the channel calls
    closed over no user id: it applies every paint message, the user's
    own included.  It rewrites the cache entry of the cell from the
    message and calls [scheduleCanvasRender], so the component state
    changes.  The handler compares no timestamp and never looks at the
    pending writes. *)
Theorem own_echo_is_applied (s : state) (d : PaintUpdate) (uid : string) :
  userId s = Some uid -> pu_owner d = uid ->
  let s' := handleRealtimeUpdate subscribed_userId (MsgPaint d) s in
  step (Remote (MsgPaint d)) s = s'
  /\ paints s' !! getPaintKey (pu_x d) (pu_y d) = cached_paint d
  /\ effects s'
     = effects s ++ ScheduleCanvasRender
         :: (if animationFrame s then [] else [RequestAnimationFrame])
  /\ s' <> s
  /\ handleRealtimeUpdate (userId s) (MsgPaint d) s = s.
Proof.
  intros U O. cbv zeta.
  split; [done|].
  split; [by apply remote_paint_lookup|].
  assert (E := remote_paint_effects subscribed_userId d s eq_refl).
  split; [exact E|]. split.
  - intros Heq. rewrite Heq in E.
    apply (f_equal (@length effect)) in E. rewrite length_app in E. cbn in E. lia.
  - unfold handleRealtimeUpdate. rewrite U, O. cbn. by rewrite String.eqb_refl.
Qed.

(** C2, the failing input: user "me" paints (5,5) at time 1700 and,
    while the write is still pending, the subscribed handler is called
    with the message of that paint. *)
Lemma own_echo_is_applied_witness :
  let s := run echo_session (initial (Some "me")) in
  let s' := step (Remote echo_message) s in
  pendingPaints s !! getPaintKey 5 5 = Some echo_pending
  /\ message_key echo_message = Some (getPaintKey 5 5)
  /\ message_owner echo_message = Some (pp_owner echo_pending)
  /\ message_timestamp echo_message = pp_timestamp echo_pending
  /\ s' <> s
  /\ effects s' = effects s ++ [ScheduleCanvasRender; RequestAnimationFrame].
Proof.
  cbv zeta.
  pose proof (own_echo_is_applied (run echo_session (initial (Some "me")))
                (paint_update "me" (initial (Some "me")) 5 5 "#FF4500" 1700) "me"
                eq_refl eq_refl) as (H0 & _ & H1 & H2 & _).
  split; [reflexivity|]. split; [reflexivity|]. split; [reflexivity|].
  split; [reflexivity|]. split; [exact H2|exact H1].
Defined.

(** C3 (amended).  An erase removes the entry of the cell instead of
    storing an erased-marker colour.  In PaintCanvas a delete message
    that the handler applies (its owner is not the user id the handler
    closed over) removes the entry and calls [scheduleCanvasRender]
    exactly once, and a paint message with a null colour removes the
    entry as well.  In CollaborativeCanvas, with its canvas and map set
    up, a DELETE event and a local erase remove the entry and clear the
    pixel exactly once, the local erase also buffering a write with a
    null colour.  A null colour is
    kept as a value in one place of the two handlers: an INSERT event of
    CollaborativeCanvas whose row has a null colour stores the entry
    with that colour. *)
Theorem erase_removes_the_cache_entry
    (closed : option string) (s : state) (d : PaintDelete) (u : PaintUpdate)
    (c : CC.state) (r nullRow : Store.row) (new old : option Store.row)
    (x y now : Z) :
  is_user closed (pd_owner d) = false ->
  is_user closed (pu_owner u) = false ->
  pu_color u = None ->
  CC.canvasReady c = true ->
  CC.mapReady c = true ->
  Store.row_color nullRow = None ->
  (let s' := handleRealtimeUpdate closed (MsgDelete d) s in
   let key := getPaintKey (pd_x d) (pd_y d) in
   paints s' = delete key (paints s)
   /\ paints s' !! key = None
   /\ effects s'
      = effects s ++ ScheduleCanvasRender
          :: (if animationFrame s then [] else [RequestAnimationFrame]))
  /\ paints (handleRealtimeUpdate closed (MsgPaint u) s)
       !! getPaintKey (pu_x u) (pu_y u)
     = None
  /\ (let c' := CC.handleRealtimeUpdate (CC.mkPayload new (Some r) CC.DELETE) c in
      CC.paintedCells c' !! hashCoordinate (Store.row_x r) (Store.row_y r) = None
      /\ CC.effects c'
         = CC.effects c ++ [CC.ClearPixel (Store.row_x r) (Store.row_y r)])
  /\ (let c' := CC.paintPixelInstant x y None now c in
      CC.paintedCells c' !! hashCoordinate x y = None
      /\ CC.effects c' = CC.effects c ++ [CC.ClearPixel x y]
      /\ JsMap.get (hashCoordinate x y) (CC.paintBuffer c')
         = Some (CC.mkBufferedWrite x y None now false))
  /\ (let c' := CC.handleRealtimeUpdate
                  (CC.mkPayload (Some nullRow) old CC.INSERT) c in
      CC.paintedCells c'
        !! hashCoordinate (Store.row_x nullRow) (Store.row_y nullRow)
      = Some (CC.mkCellInfo None (Some (Store.row_owner nullRow))
                (Store.row_owner_name nullRow) (Store.row_owner_avatar nullRow))
      /\ CC.effects c'
         = CC.effects c
           ++ [CC.DrawPixel (Store.row_x nullRow) (Store.row_y nullRow) None]).
Proof.
  intros Hd Hu Hnull Hcanvas Hmap Hrow.
  split; [|split; [|split; [|split]]].
  - cbn. rewrite Hd. unfold scheduleCanvasRender. cbn.
    destruct (animationFrame s); cbn; rewrite lookup_delete_eq;
      repeat split; by rewrite <- ?app_assoc.
  - rewrite remote_paint_lookup by done. unfold cached_paint. by rewrite Hnull.
  - unfold CC.handleRealtimeUpdate. rewrite Hcanvas. cbn.
    unfold CC.clearPixel. cbn. rewrite Hmap. cbn.
    by rewrite lookup_delete_eq.
  - unfold CC.paintPixelInstant. rewrite Hcanvas. cbn.
    unfold CC.clearPixel. cbn. rewrite Hmap. cbn.
    by rewrite lookup_delete_eq, get_set_eq.
  - cbv zeta. split.
    + rewrite CC_insert_lookup by done. unfold CC.cached_cell. by rewrite Hrow.
    + unfold CC.handleRealtimeUpdate. rewrite Hcanvas. cbn.
      unfold CC.drawPixel. cbn. rewrite Hmap. cbn. by rewrite Hrow.
Qed.

(** C3, counterexample: after bob's delete message the cache has no
    entry for (1,1), so none with an erased-marker colour. *)
Lemma remote_delete_leaves_no_tombstone :
  paints painted_by_alice !! getPaintKey 1 1 = cached_paint alice_paint
  /\ ~ exists p : Paint,
        paints (handleRealtimeUpdate subscribed_userId (MsgDelete bob_delete)
                  painted_by_alice)
          !! getPaintKey 1 1 = Some p
        /\ paint_color p = None.
Proof.
  split; [reflexivity|]. intros [p [H _]]. vm_compute in H. discriminate.
Qed.

Lemma erase_removes_the_cache_entry_witness :
  paints (handleRealtimeUpdate subscribed_userId (MsgDelete bob_delete)
            painted_by_alice)
    !! getPaintKey 1 1 = None
  /\ CC.ci_color <$> CC.paintedCells
       (CC.handleRealtimeUpdate (CC.mkPayload (Some null_row) None CC.INSERT)
          (CC.initial None)) !! hashCoordinate 3 1
     = Some None.
Proof.
  pose proof (erase_removes_the_cache_entry subscribed_userId painted_by_alice
    bob_delete bob_null_paint (CC.initial None) alice_row null_row
    None None 1 1 5 eq_refl eq_refl eq_refl eq_refl eq_refl eq_refl)
    as ((_ & H1 & _) & _ & _ & _ & H2 & _).
  split; [exact H1|]. exact (f_equal (fmap CC.ci_color) H2).
Defined.

(** ** Charges *)

Lemma debit_bounds c0 n prev cap :
  0 <= prev <= cap -> 0 <= Ledger.debit c0 n prev <= cap.
Proof. unfold Ledger.debit. destruct (c0 >? 0); lia. Qed.

Lemma refund_bounds c0 cap prev :
  0 <= prev <= cap -> 0 <= Ledger.refund c0 cap prev <= cap.
Proof. unfold Ledger.refund. destruct (c0 <? cap); lia. Qed.

Lemma ledger_apply_well_formed o u :
  Ledger.well_formed u ->
  Ledger.well_formed (Ledger.apply o u)
  /\ Ledger.capacity (Ledger.apply o u) = Ledger.capacity u.
Proof.
  unfold Ledger.well_formed. intros H. destruct o as [n|]; cbn.
  - split; [by apply debit_bounds|done].
  - split; [by apply refund_bounds|done].
Qed.

Lemma ledger_run_well_formed os u :
  Ledger.well_formed u ->
  Ledger.well_formed (Ledger.run os u)
  /\ Ledger.capacity (Ledger.run os u) = Ledger.capacity u.
Proof.
  revert u. induction os as [|o os IH]; cbn; intros u H; [done|].
  destruct (ledger_apply_well_formed o u H) as [H1 H2].
  destruct (IH _ H1) as [H3 H4]. split; [exact H3|].
  etrans; [exact H4|exact H2].
Qed.

Lemma flushErase_charges u closed s rows e :
  CC.userCapacity s = CC.userCapacity closed ->
  0 <= CC.userCharges s <= CC.userCapacity closed ->
  let r := CC.flushErase u closed (s, rows) e in
  CC.userCapacity r.1 = CC.userCapacity closed
  /\ 0 <= CC.userCharges r.1 <= CC.userCapacity closed.
Proof.
  intros Hcap Hb. unfold CC.flushErase.
  destruct (Store.select_single _ rows); cbn; [|done].
  split; [done|]. by apply refund_bounds.
Qed.

Lemma flushErases_charges u closed erases s rows :
  CC.userCapacity s = CC.userCapacity closed ->
  0 <= CC.userCharges s <= CC.userCapacity closed ->
  let r := CC.flushErases u closed erases (s, rows) in
  CC.userCapacity r.1 = CC.userCapacity closed
  /\ 0 <= CC.userCharges r.1 <= CC.userCapacity closed.
Proof.
  revert s rows. unfold CC.flushErases.
  induction erases as [|e erases IH]; intros s rows Hcap Hb; cbn [fold_left]; [done|].
  destruct (flushErase_charges u closed s rows e Hcap Hb) as [H1 H2].
  destruct (CC.flushErase u closed (s, rows) e) as [s1 rows1]. by apply IH.
Qed.

Lemma flushPaintBuffer_charges upsert closed rows :
  0 <= CC.userCharges closed <= CC.userCapacity closed ->
  let r := CC.flushPaintBuffer upsert closed rows in
  CC.userCapacity r.1 = CC.userCapacity closed
  /\ 0 <= CC.userCharges r.1 <= CC.userCapacity closed.
Proof.
  intros Hb. unfold CC.flushPaintBuffer.
  destruct (CC.user closed) as [u|]; [|done].
  destruct (List.filter (fun p => negb (CC.is_erase p)) _) as [|p ps].
  - by apply flushErases_charges.
  - apply flushErases_charges; [done|]. cbn. by apply debit_bounds.
Qed.

(** C7 (amended).  For every sequence of flush debits and refunds the
    integer charges value stays within [0, capacity].  A debit of [n]
    paint writes leaves charges unchanged when charges is 0 and
    otherwise sets it to [max(0, charges - n)]; a refund adds 1, capped
    at capacity; the batched write of CollaborativeCanvas keeps the
    component's counter within bounds.  CollaborativeCanvas admits every
    paint whatever the charges are (the cell is written and the write
    buffered, the counter untouched until the flush).  In PixelCanvas a
    paint by a signed-in user with no charges returns false and changes
    nothing; otherwise, unless the cell already has that colour, it
    returns true and a signed-in user's charges drop by exactly 1. *)
Theorem charges_stay_within_capacity
    (os : list Ledger.op) (u : Ledger.UserPaint) (n : nat)
    (upsert : string -> list Store.upsert_row -> list Store.row -> list Store.row)
    (c : CC.state) (rows : list Store.row)
    (x y now : Z) (color : string) (p : PixelCanvas.state) :
  Ledger.well_formed u ->
  0 <= CC.userCharges c <= CC.userCapacity c ->
  CC.canvasReady c = true ->
  (Ledger.well_formed (Ledger.run os u)
   /\ Ledger.capacity (Ledger.run os u) = Ledger.capacity u)
  /\ Ledger.charges (Ledger.apply (Ledger.Debit n) u)
     = (if Ledger.charges u =? 0 then Ledger.charges u
        else Z.max 0 (Ledger.charges u - Z.of_nat n))
  /\ Ledger.charges (Ledger.apply Ledger.Refund u)
     = Z.min (Ledger.capacity u) (Ledger.charges u + 1)
  /\ (let flushed := CC.flushPaintBuffer upsert c rows in
      CC.userCapacity flushed.1 = CC.userCapacity c
      /\ 0 <= CC.userCharges flushed.1 <= CC.userCapacity c)
  /\ (let c' := CC.paintPixelInstant x y (Some color) now c in
      CC.userCharges c' = CC.userCharges c
      /\ CC.ci_color <$> CC.paintedCells c' !! hashCoordinate x y
         = Some (Some color)
      /\ JsMap.get (hashCoordinate x y) (CC.paintBuffer c')
         = Some (CC.mkBufferedWrite x y (Some color) now true))
  /\ (let r := PixelCanvas.paintPixel x y color now p in
      r.1 = negb (PixelCanvas.signed_in p && (PixelCanvas.charges p <=? 0))
            && negb (PixelCanvas.same_color
                       (PixelCanvas.pixels p !! hashCoordinate x y) color)
      /\ (if r.1
          then PixelCanvas.charges r.2
               = (if PixelCanvas.signed_in p then PixelCanvas.charges p - 1
                  else PixelCanvas.charges p)
          else r.2 = p)).
Proof.
  intros Hu Hc Hcanvas.
  split; [by apply ledger_run_well_formed|].
  split.
  { cbn. unfold Ledger.debit. unfold Ledger.well_formed in Hu.
    destruct (Z.eqb_spec (Ledger.charges u) 0) as [->|]; [done|].
    destruct (Z.gtb_spec (Ledger.charges u) 0); [done|lia]. }
  split.
  { cbn. unfold Ledger.refund. unfold Ledger.well_formed in Hu.
    destruct (Z.ltb_spec (Ledger.charges u) (Ledger.capacity u)); lia. }
  split; [by apply flushPaintBuffer_charges|].
  split.
  { unfold CC.paintPixelInstant. rewrite Hcanvas. cbn.
    unfold CC.drawPixel. cbn. destruct (CC.mapReady c); cbn;
      by rewrite lookup_insert_eq, get_set_eq. }
  cbv zeta. unfold PixelCanvas.paintPixel.
  destruct (PixelCanvas.signed_in p) eqn:S; cbn [andb].
  - destruct (Z.leb_spec (PixelCanvas.charges p) 0); cbn; [done|].
    destruct (PixelCanvas.same_color _ _); cbn; [done|]. split; [done|lia].
  - destruct (PixelCanvas.same_color _ _); cbn; done.
Qed.

(** C7, counterexample: with no charges the paint of (5,5) is applied to
    the cache and sent to the store; with one charge three paints are
    sent and the counter ends at 0. *)
Lemma paint_without_charges_is_admitted :
  CC.userCharges broke = 0
  /\ CC.ci_color <$> CC.paintedCells broke_painted !! hashCoordinate 5 5
     = Some (Some "#FF4500")
  /\ broke_painted <> broke
  /\ CC.effects (CC.flushPaintBuffer keep_rows broke_painted []).1
     = [CC.DrawPixel 5 5 (Some "#FF4500");
        CC.StoreRequest
          (Store.Upsert
             [Store.UpsertRow 5 5 (Some "#FF4500") "me" (Some "Anonymous") None])]
  /\ CC.userCharges one_charge = 1
  /\ JsMap.size (CC.paintBuffer three_paints) = 3%nat
  /\ CC.userCharges (CC.flushPaintBuffer keep_rows three_paints []).1 = 0.
Proof.
  split; [reflexivity|]. split; [reflexivity|].
  split.
  { intros E. apply (f_equal (fun s => JsMap.size (CC.paintBuffer s))) in E.
    vm_compute in E. discriminate. }
  split; [reflexivity|]. split; [reflexivity|]. split; reflexivity.
Qed.

Lemma charges_stay_within_capacity_witness :
  Ledger.well_formed
    (Ledger.run [Ledger.Debit 3; Ledger.Refund; Ledger.Refund] sample_ledger)
  /\ Ledger.charges (Ledger.apply (Ledger.Debit 3) sample_ledger) = 0.
Proof.
  pose proof (charges_stay_within_capacity
    [Ledger.Debit 3; Ledger.Refund; Ledger.Refund] sample_ledger 3 keep_rows
    three_paints [] 5 5 1700 "#FF4500" sample_pixels
    ltac:(unfold Ledger.well_formed; simpl; lia) ltac:(simpl; lia) eq_refl) as H.
  split; [exact (proj1 (proj1 H))|exact (proj1 (proj2 H))].
Defined.

(** ** Write batching *)

Import Performance.

Lemma enqueue_all_snoc es e b :
  enqueue_all (es ++ [e]) b = enqueue_one (enqueue_all es b) e.
Proof. unfold enqueue_all. by rewrite fold_left_app. Qed.

Lemma last_paint_snoc x y es e :
  last_paint x y (es ++ [e])
  = match e with
    | AddPaint p =>
        if (pu_x p =? x) && (pu_y p =? y) then Some p else last_paint x y es
    | AddDelete _ => last_paint x y es
    end.
Proof.
  induction es as [|e' es IH]; cbn.
  - destruct e; [|done]. by destruct (_ && _).
  - rewrite IH. destruct e as [p|d]; [|done].
    destruct ((pu_x p =? x) && (pu_y p =? y)); [done|done].
Qed.

Lemma last_delete_snoc x y es e :
  last_delete x y (es ++ [e])
  = match e with
    | AddDelete d =>
        if (pd_x d =? x) && (pd_y d =? y) then Some d else last_delete x y es
    | AddPaint _ => last_delete x y es
    end.
Proof.
  induction es as [|e' es IH]; cbn.
  - destruct e; [done|]. by destruct (_ && _).
  - rewrite IH. destruct e as [p|d]; [done|].
    destruct ((pd_x d =? x) && (pd_y d =? y)); [done|done].
Qed.

Lemma hash_eqb_coords x y x' y' :
  String.eqb (hashCoordinate x y) (hashCoordinate x' y')
  = (x =? x') && (y =? y').
Proof.
  destruct (String.eqb_spec (hashCoordinate x y) (hashCoordinate x' y')) as [E|E].
  - apply hashCoordinate_inj in E as [-> ->]. by rewrite !Z.eqb_refl.
  - symmetry. apply andb_false_iff.
    destruct (Z.eqb_spec x x') as [->|]; [|by left].
    destruct (Z.eqb_spec y y') as [->|]; [|by right]. done.
Qed.

Lemma enqueue_all_invariant es :
  let b := enqueue_all es newBatcher in
  (Forall (fun kv : string * PaintUpdate =>
             kv.1 = hashCoordinate (pu_x kv.2) (pu_y kv.2)) (b_paints b)
   /\ NoDup (JsMap.keys (b_paints b))
   /\ forall x y, JsMap.get (hashCoordinate x y) (b_paints b) = last_paint x y es)
  /\ (Forall (fun kv : string * PaintDelete =>
             kv.1 = hashCoordinate (pd_x kv.2) (pd_y kv.2)) (b_deletes b)
   /\ NoDup (JsMap.keys (b_deletes b))
   /\ forall x y, JsMap.get (hashCoordinate x y) (b_deletes b) = last_delete x y es).
Proof.
  induction es as [|e es IH] using rev_ind.
  - cbn. repeat split; try constructor.
  - cbv zeta in *. rewrite enqueue_all_snoc.
    destruct IH as [(K1 & N1 & G1) (K2 & N2 & G2)].
    set (b := enqueue_all es newBatcher) in *.
    destruct e as [p|d]; cbn [enqueue_one addPaint addDelete scheduleBatch b_paints b_deletes].
    + split; [|split; [done|split; [done|]]].
      * split; [by apply keyed_set|]. split; [by apply NoDup_keys_set|].
        intros x y. rewrite last_paint_snoc.
        destruct (String.eqb_spec (hashCoordinate (pu_x p) (pu_y p)) (hashCoordinate x y)) as [E|E].
        -- rewrite <- E, get_set_eq.
           apply hashCoordinate_inj in E as [-> ->]. by rewrite !Z.eqb_refl.
        -- rewrite get_set_ne by done. rewrite <- hash_eqb_coords.
           destruct (String.eqb_spec (hashCoordinate (pu_x p) (pu_y p)) (hashCoordinate x y)); [done|].
           apply G1.
      * intros x y. rewrite last_delete_snoc. apply G2.
    + split; [split; [done|split; [done|]]|].
      * intros x y. rewrite last_paint_snoc. apply G1.
      * split; [by apply keyed_set|]. split; [by apply NoDup_keys_set|].
        intros x y. rewrite last_delete_snoc.
        destruct (String.eqb_spec (hashCoordinate (pd_x d) (pd_y d)) (hashCoordinate x y)) as [E|E].
        -- rewrite <- E, get_set_eq.
           apply hashCoordinate_inj in E as [-> ->]. by rewrite !Z.eqb_refl.
        -- rewrite get_set_ne by done. rewrite <- hash_eqb_coords.
           destruct (String.eqb_spec (hashCoordinate (pd_x d) (pd_y d)) (hashCoordinate x y)); [done|].
           apply G2.
Qed.

Lemma flushed_paints es :
  batch_paints (flushed es) = JsMap.values (b_paints (enqueue_all es newBatcher))
  /\ batch_deletes (flushed es) = JsMap.values (b_deletes (enqueue_all es newBatcher)).
Proof.
  unfold flushed, processBatch.
  destruct (b_paints (enqueue_all es newBatcher)) as [|kv m] eqn:E1;
  destruct (b_deletes (enqueue_all es newBatcher)) as [|kv' m'] eqn:E2; cbn; done.
Qed.

Lemma CC_buffer_invariant es s0 :
  CollaborativeCanvas.paintBuffer s0 = JsMap.empty ->
  let s := CollaborativeCanvas.run es s0 in
  Forall (fun kv : string * CollaborativeCanvas.BufferedWrite =>
            kv.1 = hashCoordinate (CollaborativeCanvas.bw_gridX kv.2)
                                  (CollaborativeCanvas.bw_gridY kv.2))
         (CollaborativeCanvas.paintBuffer s)
  /\ NoDup (JsMap.keys (CollaborativeCanvas.paintBuffer s))
  /\ CollaborativeCanvas.canvasReady s = CollaborativeCanvas.canvasReady s0.
Proof.
  intros H0. induction es as [|e es IH] using rev_ind.
  - cbn. rewrite H0. repeat split; constructor.
  - cbv zeta in *. unfold CollaborativeCanvas.run in *. rewrite fold_left_app. cbn [fold_left].
    set (s := fold_left _ es s0) in *. destruct IH as (K & N & C).
    destruct e as [x y color now|p]; cbn [CollaborativeCanvas.step].
    + unfold CollaborativeCanvas.paintPixelInstant.
      destruct (CollaborativeCanvas.canvasReady s) eqn:R; cbn [negb]; [|by rewrite R].
      destruct color as [c|]; cbn;
        unfold CollaborativeCanvas.drawPixel, CollaborativeCanvas.clearPixel; cbn;
        destruct (CollaborativeCanvas.mapReady s); cbn;
        (split; [by apply (keyed_set CollaborativeCanvas.bw_gridX CollaborativeCanvas.bw_gridY (CollaborativeCanvas.mkBufferedWrite x y _ now _))|]);
        (split; [by apply NoDup_keys_set|congruence]).
    + unfold CollaborativeCanvas.handleRealtimeUpdate.
      destruct (CollaborativeCanvas.canvasReady s) eqn:R; cbn [negb]; [|by rewrite R].
      destruct (CollaborativeCanvas.eventType p), (CollaborativeCanvas.payload_new p),
        (CollaborativeCanvas.payload_old p); cbn;
        unfold CollaborativeCanvas.drawPixel, CollaborativeCanvas.clearPixel; cbn;
        try destruct (CollaborativeCanvas.mapReady s); cbn;
        repeat split; try done; congruence.
Qed.

(** C8 (amended).  [PaintBatcher] collapses by key within each of its
    two maps: for every sequence of enqueues the flushed batch holds, for
    each cell, exactly the last paint enqueued for it (if any) and
    exactly the last delete enqueued for it (if any), so a paint and a
    delete of one cell are flushed together.  The paint buffer of
    CollaborativeCanvas is one map: it never holds two writes for a cell
    and a new write replaces the earlier one.  [handlePaint] of
    PaintCanvas appends every paint to the batch array. *)
Theorem batcher_collapses_per_kind (es : list enqueue) (x y : Z)
    (cs : list CollaborativeCanvas.event) (c0 : CollaborativeCanvas.state)
    (color : option string) (now : Z)
    (s : PaintCanvas.state) (uid paintColor : string) :
  CollaborativeCanvas.paintBuffer c0 = JsMap.empty ->
  CollaborativeCanvas.canvasReady c0 = true ->
  userId s = Some uid -> String.eqb uid "" = false ->
  PaintCanvas.mapReady s = true ->
  (paints_at x y (batch_paints (flushed es)) = option_list (last_paint x y es)
   /\ deletes_at x y (batch_deletes (flushed es))
      = option_list (last_delete x y es))
  /\ (let c := CollaborativeCanvas.run cs c0 in
      (length (CollaborativeCanvas.writes_at x y
                 (JsMap.values (CollaborativeCanvas.paintBuffer c))) <= 1)%nat
      /\ CollaborativeCanvas.writes_at x y
           (JsMap.values (CollaborativeCanvas.paintBuffer
              (CollaborativeCanvas.paintPixelInstant x y color now c)))
         = [CollaborativeCanvas.mkBufferedWrite x y color now
              (match color with Some _ => true | None => false end)])
  /\ batch_paints (paintBatch (handlePaint x y paintColor now s))
     = batch_paints (paintBatch s) ++ [paint_update uid s x y paintColor now].
Proof.
  intros Hbuf Hcanvas Huid Hne Hmap.
  split; [|split].
  - destruct (flushed_paints es) as [-> ->].
    destruct (enqueue_all_invariant es) as [(K1 & N1 & G1) (K2 & N2 & G2)].
    split.
    + unfold paints_at. rewrite (filter_values_at pu_x pu_y) by done. by rewrite G1.
    + unfold deletes_at. rewrite (filter_values_at pd_x pd_y) by done. by rewrite G2.
  - cbv zeta.
    destruct (CC_buffer_invariant cs c0 Hbuf) as (K & N & C). cbv zeta in *.
    set (c := CollaborativeCanvas.run cs c0) in *.
    unfold CollaborativeCanvas.writes_at. split.
    + rewrite (filter_values_at CollaborativeCanvas.bw_gridX CollaborativeCanvas.bw_gridY) by done.
      destruct (JsMap.get _ _); cbn; lia.
    + pose proof (CC_buffer_invariant (cs ++ [CollaborativeCanvas.Paint x y color now]) c0 Hbuf) as (K' & N' & _).
      cbv zeta in *. unfold CollaborativeCanvas.run in K', N'.
      rewrite fold_left_app in K', N'. cbn [fold_left CollaborativeCanvas.step] in K', N'.
      fold (CollaborativeCanvas.run cs c0) in K', N'. fold c in K', N'.
      rewrite (filter_values_at CollaborativeCanvas.bw_gridX CollaborativeCanvas.bw_gridY) by done.
      unfold CollaborativeCanvas.paintPixelInstant. rewrite C, Hcanvas. cbn [negb].
      destruct color; cbn;
        unfold CollaborativeCanvas.drawPixel, CollaborativeCanvas.clearPixel; cbn;
        destruct (CollaborativeCanvas.mapReady c); cbn; by rewrite get_set_eq.
  - unfold handlePaint. rewrite Huid, Hne, Hmap. cbn.
    by destruct (channelConnected s).
Qed.

(** C8, counterexample: a delete of (5,5) followed by a paint of (5,5)
    is flushed as both a paint and a delete of that cell; two
    [handlePaint] calls on (5,5) put two entries in the batch. *)
Lemma superseded_write_is_still_flushed :
  flushed [AddDelete delete_5_5; AddPaint paint_5_5]
  = mkPaintBatch [paint_5_5] [delete_5_5]
  /\ length (batch_paints (paintBatch
        (run [LocalPaint 5 5 "#FF4500" 10; LocalPaint 5 5 "#00FF00" 12]
             (initial (Some "me"))))) = 2%nat.
Proof. split; reflexivity. Qed.

Lemma batcher_collapses_per_kind_witness :
  paints_at 5 5 (batch_paints (flushed [AddPaint paint_5_5; AddPaint repaint_5_5]))
  = [repaint_5_5].
Proof.
  exact (proj1 (proj1 (batcher_collapses_per_kind
    [AddPaint paint_5_5; AddPaint repaint_5_5] 5 5
    [CC.Paint 5 5 (Some "#FF4500") 1] (CC.initial None) None 2
    (initial (Some "me")) "me" "#FF4500"
    eq_refl eq_refl eq_refl eq_refl eq_refl))).
Defined.

(** ** Erase flush *)

Section FilterFacts.
Context {A : Type} (f : A -> bool).

Lemma filter_length_le' l : (length (List.filter f l) <= length l)%nat.
Proof. induction l as [|a l IH]; cbn; [lia|]. destruct (f a); cbn; lia. Qed.

Lemma filter_length_lt l x :
  In x l -> f x = false -> (length (List.filter f l) < length l)%nat.
Proof.
  induction l as [|a l IH]; cbn; [done|]. intros [->|Hin] Hx.
  - rewrite Hx. pose proof (filter_length_le' l). lia.
  - specialize (IH Hin Hx). destruct (f a); cbn; lia.
Qed.

Lemma NoDup_map_filter {B} (g : A -> B) l :
  NoDup (List.map g l) -> NoDup (List.map g (List.filter f l)).
Proof.
  induction l as [|a l IH]; cbn; [done|].
  intros [Hnotin Hnd]%NoDup_cons. destruct (f a); cbn; [|by apply IH].
  apply NoDup_cons. split; [|by apply IH].
  intros Hin. apply Hnotin.
  apply list_elem_of_In, in_map_iff in Hin as (b & <- & Hb).
  apply filter_In in Hb as [Hb _].
  apply list_elem_of_In, in_map_iff. by exists b.
Qed.

End FilterFacts.

Lemma NoDup_map_inj {A B} (g : A -> B) l a b :
  NoDup (List.map g l) -> In a l -> In b l -> g a = g b -> a = b.
Proof.
  induction l as [|c l IH]; cbn; [done|].
  intros [Hnotin Hnd]%NoDup_cons [->|Ha] [->|Hb] E; [done|..].
  - exfalso. apply Hnotin. rewrite E. apply list_elem_of_In, in_map. done.
  - exfalso. apply Hnotin. rewrite <- E. apply list_elem_of_In, in_map. done.
  - by apply IH.
Qed.

Lemma select_single_Some fs rows r :
  Store.select_single fs rows = Some r ->
  In r rows /\ Store.matches_all fs r = true.
Proof.
  unfold Store.select_single.
  destruct (List.filter (Store.matches_all fs) rows) as [|r' [|]] eqn:E; [done| |done].
  intros [= <-]. apply filter_In. rewrite E. by left.
Qed.

Lemma select_single_none_matching fs rows :
  Forall (fun row => Store.matches_all fs row = false) rows ->
  Store.select_single fs rows = None.
Proof.
  intros H. unfold Store.select_single.
  assert (List.filter (Store.matches_all fs) rows = []) as ->; [|done].
  induction H as [|row rows Hrow _ IH]; cbn; [done|]. by rewrite Hrow.
Qed.

Lemma delete_where_In uid fs rows row :
  In row (Store.delete_where uid fs rows)
  <-> In row rows
      /\ (Store.matches_all fs row && String.eqb (Store.row_owner row) uid) = false.
Proof.
  unfold Store.delete_where. rewrite filter_In, negb_true_iff. done.
Qed.

Lemma erase_filters_match u e row :
  Store.matches_all (CC.erase_filters u e) row = true ->
  Store.row_x row = CC.bw_gridX e /\ Store.row_y row = CC.bw_gridY e
  /\ Store.row_owner row = CC.user_id u.
Proof.
  unfold Store.matches_all, CC.erase_filters. cbn.
  rewrite !andb_true_iff, !Z.eqb_eq, String.eqb_eq. tauto.
Qed.

Lemma flushErase_scoped u closed s rows e :
  NoDup (List.map Store.row_id rows) ->
  CC.userCapacity s = CC.userCapacity closed ->
  0 <= CC.userCharges s <= CC.userCapacity closed ->
  let r := CC.flushErase u closed (s, rows) e in
  NoDup (List.map Store.row_id r.2)
  /\ (length r.2 <= length rows)%nat
  /\ (forall row, In row r.2 -> In row rows)
  /\ (forall row, In row rows -> ~ In row r.2 ->
        Store.row_owner row = CC.user_id u
        /\ Store.row_x row = CC.bw_gridX e /\ Store.row_y row = CC.bw_gridY e)
  /\ CC.userCapacity r.1 = CC.userCapacity closed
  /\ CC.userCharges s <= CC.userCharges r.1
     <= Z.min (CC.userCapacity closed)
          (CC.userCharges s + (Z.of_nat (length rows) - Z.of_nat (length r.2))).
Proof.
  intros Hnd Hcap Hb. unfold CC.flushErase.
  destruct (Store.select_single _ rows) as [existing|] eqn:Sel; cbn.
  - apply select_single_Some in Sel as [Hin Hm].
    apply erase_filters_match in Hm as (Hx & Hy & Ho).
    split; [by apply NoDup_map_filter|].
    split; [apply filter_length_le'|].
    split; [by intros row [? _]%delete_where_In|].
    split.
    + intros row Hrow Hgone.
      destruct (Store.matches_all [Store.EqId (Store.row_id existing)] row
                && String.eqb (Store.row_owner row) (CC.user_id u)) eqn:M.
      * apply andb_true_iff in M as [M _]. cbn in M.
        rewrite andb_true_r in M. apply Z.eqb_eq in M.
        assert (row = existing) as -> by (by eapply NoDup_map_inj).
        done.
      * exfalso. apply Hgone. by apply delete_where_In.
    + split; [done|].
      assert (Hlt : (length (Store.delete_where (CC.user_id u)
                       [Store.EqId (Store.row_id existing)] rows) < length rows)%nat).
      { apply (filter_length_lt _ _ existing); [done|].
        cbn. by rewrite Z.eqb_refl, Ho, String.eqb_refl. }
      unfold Ledger.refund. destruct (_ <? _); lia.
  - split; [done|]. split; [done|]. split; [done|]. split; [done|].
    split; [done|]. lia.
Qed.

Lemma flushErases_scoped u closed erases s rows :
  NoDup (List.map Store.row_id rows) ->
  CC.userCapacity s = CC.userCapacity closed ->
  0 <= CC.userCharges s <= CC.userCapacity closed ->
  let r := CC.flushErases u closed erases (s, rows) in
  (length r.2 <= length rows)%nat
  /\ (forall row, In row r.2 -> In row rows)
  /\ (forall row, In row rows -> ~ In row r.2 ->
        Store.row_owner row = CC.user_id u
        /\ exists e, In e erases
             /\ Store.row_x row = CC.bw_gridX e /\ Store.row_y row = CC.bw_gridY e)
  /\ CC.userCharges s <= CC.userCharges r.1
     <= Z.min (CC.userCapacity closed)
          (CC.userCharges s + (Z.of_nat (length rows) - Z.of_nat (length r.2))).
Proof.
  revert s rows. unfold CC.flushErases.
  induction erases as [|e erases IH]; intros s rows Hnd Hcap Hb; cbn [fold_left].
  - cbn. split; [done|]. split; [done|]. split; [done|]. lia.
  - destruct (flushErase_scoped u closed s rows e Hnd Hcap Hb)
      as (Hnd1 & Hlen1 & Hsub1 & Hgone1 & Hcap1 & Hch1).
    destruct (CC.flushErase u closed (s, rows) e) as [s1 rows1]. cbn [fst snd] in *.
    destruct (IH s1 rows1 Hnd1 Hcap1 ltac:(lia)) as (Hlen & Hsub & Hgone & Hch).
    set (r := fold_left _ erases (s1, rows1)) in *.
    split; [lia|].
    split; [by intros row H%Hsub%Hsub1|].
    split.
    + intros row Hrow Hnot.
      destruct (decide (row ∈ rows1)) as [Hin%list_elem_of_In|Hout].
      * destruct (Hgone row Hin Hnot) as (Ho & e' & He' & Hxy).
        split; [done|]. exists e'. split; [by right|done].
      * rewrite list_elem_of_In in Hout.
        destruct (Hgone1 row Hrow Hout) as (Ho & Hxy).
        split; [done|]. exists e. split; [by left|done].
    + lia.
Qed.

Lemma flushErase_requests u closed s rows e :
  let r := CC.flushErase u closed (s, rows) e in
  exists new,
    CC.effects r.1 = CC.effects s ++ new
    /\ forall fs, In (CC.StoreRequest (Store.Delete fs)) new ->
         exists row, In row rows
           /\ Store.matches_all (CC.erase_filters u e) row = true
           /\ fs = [Store.EqId (Store.row_id row)].
Proof.
  unfold CC.flushErase.
  destruct (Store.select_single _ rows) as [existing|] eqn:Sel; cbn.
  - apply select_single_Some in Sel as [Hin Hm].
    eexists. rewrite <- app_assoc. split; [reflexivity|].
    cbn. intros fs [H|[H|[]]]; [done|]. injection H as <-. by exists existing.
  - eexists. split; [reflexivity|]. cbn. by intros fs [H|[]].
Qed.

Lemma flushErases_requests u closed erases s rows :
  let r := CC.flushErases u closed erases (s, rows) in
  exists new,
    CC.effects r.1 = CC.effects s ++ new
    /\ forall fs, In (CC.StoreRequest (Store.Delete fs)) new ->
         exists e row, In e erases /\ In row rows
           /\ Store.matches_all (CC.erase_filters u e) row = true
           /\ fs = [Store.EqId (Store.row_id row)].
Proof.
  revert s rows. unfold CC.flushErases.
  induction erases as [|e erases IH]; intros s rows; cbn [fold_left].
  - exists []. cbn. rewrite app_nil_r. split; [done|]. by intros fs [].
  - destruct (flushErase_requests u closed s rows e) as (new1 & E1 & H1).
    assert (Hsub : forall row,
               In row (CC.flushErase u closed (s, rows) e).2 -> In row rows).
    { unfold CC.flushErase. destruct (Store.select_single _ rows); cbn; [|done].
      by intros row [? _]%delete_where_In. }
    destruct (CC.flushErase u closed (s, rows) e) as [s1 rows1]. cbn [fst snd] in *.
    destruct (IH s1 rows1) as (new2 & E2 & H2).
    exists (new1 ++ new2). split; [by rewrite E2, E1, app_assoc|].
    intros fs [Hin|Hin]%in_app_or.
    + destruct (H1 fs Hin) as (row & ? & ? & ?). exists e, row.
      split; [by left|done].
    + destruct (H2 fs Hin) as (e' & row & ? & ? & ? & ?). exists e', row.
      split; [by right|]. split; [by apply Hsub|done].
Qed.

Lemma filter_delete_emit_all (es : list effect) (s : state) :
  forallb (fun e => negb (is_delete_request e)) es = true ->
  List.filter is_delete_request (effects s ++ es)
  = List.filter is_delete_request (effects s).
Proof.
  intros H. rewrite List.filter_app.
  assert (List.filter is_delete_request es = []) as ->; [|by rewrite app_nil_r].
  induction es as [|e es IH]; cbn in *; [done|].
  apply andb_true_iff in H as [He H]. apply negb_true_iff in He. rewrite He. auto.
Qed.

Lemma handleRealtimeUpdate_no_delete closed m s :
  paintBatch (handleRealtimeUpdate closed m s) = paintBatch s
  /\ List.filter is_delete_request (effects (handleRealtimeUpdate closed m s))
     = List.filter is_delete_request (effects s).
Proof.
  destruct m as [d|d|t]; cbn; [| |done].
  - destruct (is_user closed (pu_owner d)); [done|].
    rewrite effects_scheduleCanvasRender. unfold scheduleCanvasRender. cbn.
    split; [by destruct (animationFrame s)|].
    apply filter_delete_emit_all. by destruct (animationFrame s).
  - destruct (is_user closed (pd_owner d)); [done|].
    rewrite effects_scheduleCanvasRender. unfold scheduleCanvasRender. cbn.
    split; [by destruct (animationFrame s)|].
    apply filter_delete_emit_all. by destruct (animationFrame s).
Qed.

Lemma handlePaint_no_delete x y color now s :
  batch_deletes (paintBatch (handlePaint x y color now s))
  = batch_deletes (paintBatch s)
  /\ List.filter is_delete_request (effects (handlePaint x y color now s))
     = List.filter is_delete_request (effects s).
Proof.
  unfold handlePaint. destruct (userId s) as [uid|]; [|done].
  destruct (String.eqb uid "" || negb (mapReady s)); [done|].
  cbn. split; [by destruct (channelConnected s)|].
  destruct (channelConnected s); cbn; rewrite <- !app_assoc;
    by apply filter_delete_emit_all.
Qed.

Lemma processPaintBatch_no_delete closedBatch s :
  batch_deletes closedBatch = [] ->
  batch_deletes (paintBatch s) = [] ->
  batch_deletes (paintBatch (processPaintBatch closedBatch s)) = []
  /\ List.filter is_delete_request (effects (processPaintBatch closedBatch s))
     = List.filter is_delete_request (effects s).
Proof.
  intros Hc Hs. unfold processPaintBatch, batch_requests. rewrite Hc.
  destruct (batch_paints closedBatch) as [|p ps]; [done|].
  cbn. split; [done|]. rewrite <- app_assoc. by apply filter_delete_emit_all.
Qed.

Lemma step_no_delete e s :
  match e with Flush closedBatch => batch_deletes closedBatch = [] | _ => True end ->
  batch_deletes (paintBatch s) = [] ->
  batch_deletes (paintBatch (step e s)) = []
  /\ List.filter is_delete_request (effects (step e s))
     = List.filter is_delete_request (effects s).
Proof.
  intros He Hs. destruct e as [m|x y color now|lng lat now|closedBatch]; cbn [step].
  - destruct (handleRealtimeUpdate_no_delete subscribed_userId m s) as [-> ->]. done.
  - destruct (handlePaint_no_delete x y color now s) as [-> ->]. done.
  - unfold handleMapClick. destruct (negb (isPainting s) || negb (mapReady s)); [done|].
    destruct (Grid.clickCell lng lat) as [x y].
    destruct (handlePaint_no_delete x y (selectedColor s) now s) as [-> ->]. done.
  - by apply processPaintBatch_no_delete.
Qed.

Lemma run_no_delete es s0 :
  batch_deletes (paintBatch s0) = [] ->
  flushes_read_earlier_batches es s0 ->
  forall n k, (k <= n)%nat ->
    batch_deletes (paintBatch (run (take k es) s0)) = []
    /\ List.filter is_delete_request (effects (run (take k es) s0))
       = List.filter is_delete_request (effects s0).
Proof.
  intros H0 Hes. induction n as [|n IH]; intros k Hk.
  - assert (k = 0%nat) as -> by lia. done.
  - destruct (decide (k <= n)%nat) as [Hle|Hgt]; [by apply IH|].
    assert (k = S n) as -> by lia.
    destruct (es !! n) as [e|] eqn:He.
    + rewrite (take_S_r _ _ _ He), run_snoc.
      destruct (IH n ltac:(lia)) as [Hb Hf].
      destruct (step_no_delete e (run (take n es) s0)) as [Hb' Hf']; [|done|].
      * destruct e as [| | |closedBatch]; [done..|].
        destruct (Hes n closedBatch He) as (k' & Hk' & ->).
        by apply IH.
      * by rewrite Hf' in *.
    + apply lookup_ge_None in He. rewrite (take_ge es (S n)) by lia.
      rewrite <- (take_ge es n) by lia. by apply IH.
Qed.

(** C9.  In CollaborativeCanvas every erase of a flush first selects
    the row by (x, y, owner = user) and deletes, by its id, only the row
    that select returned: every delete request of a flush names a row of
    the requesting user at an erased cell, and the rows a flush removes
    are such rows.  An erase whose select finds no row issues the select
    and nothing else: no delete, no refund, no error; so does the erase
    of a cell the user does not own.  The refund is made only after the
    select returned the row, is at most one charge and never takes the
    count above capacity; over a flush the refunds never exceed the rows
    removed.  PaintCanvas has no erase and no refund: in every session
    of remote messages, paints, map clicks and batch timers it issues no
    delete request. *)
Theorem erase_flush_touches_only_own_rows
    (u : CC.User) (closed s : CC.state) (erases : list CC.BufferedWrite)
    (rows : list Store.row) (erase unowned : CC.BufferedWrite)
    (es : list event) (s0 : state) :
  NoDup (List.map Store.row_id rows) ->
  CC.userCapacity s = CC.userCapacity closed ->
  0 <= CC.userCharges s <= CC.userCapacity closed ->
  Forall (fun row => Store.matches_all (CC.erase_filters u unowned) row = false)
         rows ->
  batch_deletes (paintBatch s0) = [] ->
  flushes_read_earlier_batches es s0 ->
  (let r := CC.flushErases u closed erases (s, rows) in
   (forall row, In row r.2 -> In row rows)
   /\ (forall row, In row rows -> ~ In row r.2 ->
         Store.row_owner row = CC.user_id u
         /\ exists e, In e erases
              /\ Store.row_x row = CC.bw_gridX e
              /\ Store.row_y row = CC.bw_gridY e)
   /\ CC.userCharges s <= CC.userCharges r.1
      <= Z.min (CC.userCapacity closed)
           (CC.userCharges s
            + (Z.of_nat (length rows) - Z.of_nat (length r.2)))
   /\ exists new,
        CC.effects r.1 = CC.effects s ++ new
        /\ forall fs, In (CC.StoreRequest (Store.Delete fs)) new ->
             exists e row, In e erases /\ In row rows
               /\ Store.row_x row = CC.bw_gridX e
               /\ Store.row_y row = CC.bw_gridY e
               /\ Store.row_owner row = CC.user_id u
               /\ fs = [Store.EqId (Store.row_id row)])
  /\ (let r := CC.flushErase u closed (s, rows) erase in
      let select := CC.StoreRequest
                      (Store.SelectIdSingle (CC.erase_filters u erase)) in
      match Store.select_single (CC.erase_filters u erase) rows with
      | Some existing =>
          In existing rows
          /\ Store.row_x existing = CC.bw_gridX erase
          /\ Store.row_y existing = CC.bw_gridY erase
          /\ Store.row_owner existing = CC.user_id u
          /\ CC.effects r.1
             = CC.effects s
               ++ [select;
                   CC.StoreRequest
                     (Store.Delete [Store.EqId (Store.row_id existing)])]
          /\ CC.userCharges r.1
             = Ledger.refund (CC.userCharges closed) (CC.userCapacity closed)
                 (CC.userCharges s)
          /\ CC.userCharges s <= CC.userCharges r.1
             <= Z.min (CC.userCapacity closed) (CC.userCharges s + 1)
      | None => r = (CC.emit select s, rows)
      end)
  /\ CC.flushErase u closed (s, rows) unowned
     = (CC.emit (CC.StoreRequest
                   (Store.SelectIdSingle (CC.erase_filters u unowned))) s,
        rows)
  /\ List.filter is_delete_request (effects (run es s0))
     = List.filter is_delete_request (effects s0).
Proof.
  intros Hnd Hcap Hb Hun H0 Hes.
  split.
  { destruct (flushErases_scoped u closed erases s rows Hnd Hcap Hb)
      as (_ & H1 & H2 & H3).
    split; [exact H1|]. split; [exact H2|]. split; [exact H3|].
    destruct (flushErases_requests u closed erases s rows) as (new & E & Hnew).
    exists new. split; [exact E|].
    intros fs Hin. destruct (Hnew fs Hin) as (e & row & He & Hrow & Hm & ->).
    apply erase_filters_match in Hm as (Hx & Hy & Ho).
    by exists e, row. }
  split.
  { cbv zeta. unfold CC.flushErase.
    destruct (Store.select_single _ rows) as [existing|] eqn:Sel; cbn; [|done].
    apply select_single_Some in Sel as [Hin Hm].
    apply erase_filters_match in Hm as (Hx & Hy & Ho).
    rewrite <- app_assoc. cbn.
    repeat (split; [done|]).
    unfold Ledger.refund. destruct (_ <? _); lia. }
  split.
  { unfold CC.flushErase. by rewrite select_single_none_matching. }
  pose proof (run_no_delete es s0 H0 Hes (length es) (length es) (le_n _)) as [_ H].
  by rewrite firstn_all in H.
Qed.

Lemma erase_flush_touches_only_own_rows_witness :
  (CC.flushErases me one_charge [erase_1_1; erase_2_2]
     (one_charge, [my_row; bobs_row])).2 = [bobs_row]
  /\ CC.flushErase me one_charge (one_charge, [my_row; bobs_row]) erase_2_2
     = (CC.emit (CC.StoreRequest
                   (Store.SelectIdSingle (CC.erase_filters me erase_2_2)))
                one_charge,
        [my_row; bobs_row])
  /\ List.filter is_delete_request
       (effects (run two_paints_flushed (initial (Some "me")))) = [].
Proof.
  split; [reflexivity|].
  refine (proj2 (proj2 (erase_flush_touches_only_own_rows me one_charge one_charge
    [erase_1_1; erase_2_2] [my_row; bobs_row] erase_1_1 erase_2_2
    two_paints_flushed (initial (Some "me"))
    _ eq_refl _ _ eq_refl _))).
  - by apply (bool_decide_unpack _).
  - simpl; lia.
  - repeat constructor.
  - intros [|[|[|[|[|i]]]]] closedBatch H; try discriminate H;
      injection H as <-; [exists 0%nat|exists 3%nat]; split; (lia || reflexivity).
Defined.

(** ** PaintGrid *)

Lemma is_hex_enum c : is_hex c = true -> In c hex_chars.
Proof.
  destruct c as [[] [] [] [] [] [] [] []]; vm_compute; intros H;
    first [discriminate H | tauto].
Qed.

Lemma hex_pair_roundtrip a b :
  is_hex a = true -> is_hex b = true ->
  exists n, parseInt16 (String a (String b EmptyString)) = Some n
    /\ 0 <= n < 256
    /\ hex2 n = String (lower a) (String (lower b) EmptyString)
    /\ (n =? 0) = Ascii.eqb a "0" && Ascii.eqb b "0".
Proof.
  intros Ha%is_hex_enum Hb%is_hex_enum.
  unfold hex_chars in *. cbn [In] in Ha, Hb.
  repeat (destruct Ha as [<-|Ha]; [| ]); try done;
  repeat (destruct Hb as [<-|Hb]; [| ]); try done;
  (eexists; split; [vm_compute; reflexivity|];
   split; [lia|]; split; vm_compute; reflexivity).
Qed.

Lemma u8_set_length i v a : u8_length (u8_set i v a) = u8_length a.
Proof. unfold u8_set. by destruct (_ && _). Qed.

Lemma setPaint_ok x y color g : grid_ok g -> grid_ok (setPaint x y color g).
Proof.
  intros Hg k c. unfold setPaint. cbn.
  destruct (decide (chunkKey x y = k)) as [<-|Hne].
  - rewrite lookup_insert_eq. intros [= <-]. rewrite !u8_set_length.
    destruct (grid g !! chunkKey x y) as [c0|] eqn:E; cbn; [by apply Hg in E|done].
  - rewrite lookup_insert_ne by done. apply Hg.
Qed.

Lemma paint_all_ok ops : grid_ok (paint_all ops).
Proof.
  unfold paint_all.
  assert (H : grid_ok newGrid) by (intros k c; cbn; by rewrite lookup_empty).
  revert H. generalize newGrid.
  induction ops as [|[[x y] color] ops IH]; cbn; intros g Hg; [done|].
  by apply IH, setPaint_ok.
Qed.

Lemma chunkIndex_range x y :
  0 <= x -> 0 <= y -> 0 <= chunkIndex x y /\ chunkIndex x y + 2 < CHUNK_BYTES.
Proof.
  intros Hx Hy. unfold chunkIndex, CHUNK_BYTES, chunkSize.
  pose proof (Z.rem_bound_pos x 1000 Hx ltac:(lia)).
  pose proof (Z.rem_bound_pos y 1000 Hy ltac:(lia)).
  lia.
Qed.

Lemma u8_get_set_eq i v a :
  0 <= i < u8_length a ->
  u8_get i (u8_set i v a) = Some (default 0 v `mod` 256).
Proof.
  intros Hi. unfold u8_get, u8_set.
  assert ((0 <=? i) && (i <? u8_length a) = true) as ->
    by (apply andb_true_iff; split; [apply Z.leb_le | apply Z.ltb_lt]; lia).
  cbn. assert ((0 <=? i) && (i <? u8_length a) = true) as ->
    by (apply andb_true_iff; split; [apply Z.leb_le | apply Z.ltb_lt]; lia).
  by rewrite lookup_insert_eq.
Qed.

Lemma u8_get_set_ne i j v a :
  i <> j -> u8_get j (u8_set i v a) = u8_get j a.
Proof.
  intros Hne. unfold u8_get, u8_set.
  destruct ((0 <=? i) && (i <? u8_length a)); [|done]. cbn.
  destruct ((0 <=? j) && (j <? u8_length a)); [|done].
  by rewrite lookup_insert_ne.
Qed.

Lemma getPaint_setPaint_bytes x y color g :
  grid_ok g -> 0 <= x -> 0 <= y ->
  getPaint x y (setPaint x y color g)
  = let r := default 0 (parseInt16 (slice 1 3 color)) `mod` 256 in
    let gr := default 0 (parseInt16 (slice 3 5 color)) `mod` 256 in
    let b := default 0 (parseInt16 (slice 5 7 color)) `mod` 256 in
    if (r =? 0) && (gr =? 0) && (b =? 0) then Returned None
    else Returned (Some ("#" +:+ hex2 r +:+ hex2 gr +:+ hex2 b)).
Proof.
  intros Hg Hx Hy. unfold getPaint, setPaint. cbn [grid].
  rewrite lookup_insert_eq.
  destruct (chunkIndex_range x y Hx Hy) as [Hlo Hhi].
  set (chunk := default (u8_new (chunkSize * chunkSize * 3)) (grid g !! chunkKey x y)).
  assert (Hlen : u8_length chunk = CHUNK_BYTES).
  { subst chunk. destruct (grid g !! chunkKey x y) as [c|] eqn:E; cbn; [by apply Hg in E|done]. }
  set (i := chunkIndex x y) in *.
  rewrite (u8_get_set_ne (i + 2) i), (u8_get_set_ne (i + 1) i), u8_get_set_eq by lia.
  rewrite (u8_get_set_ne (i + 2) (i + 1)) by lia.
  rewrite u8_get_set_eq by (rewrite u8_set_length; lia).
  rewrite u8_get_set_eq by (rewrite !u8_set_length; lia).
  reflexivity.
Qed.

Lemma is_hex_color_inv c :
  is_hex_color c = true ->
  exists a1 a2 b1 b2 c1 c2,
    c = String "#" (String a1 (String a2 (String b1 (String b2
          (String c1 (String c2 EmptyString))))))
    /\ is_hex a1 = true /\ is_hex a2 = true /\ is_hex b1 = true
    /\ is_hex b2 = true /\ is_hex c1 = true /\ is_hex c2 = true.
Proof.
  destruct c as [|h c]; [discriminate|].
  destruct h as [[] [] [] [] [] [] [] []]; try discriminate.
  destruct c as [|a1 [|a2 [|b1 [|b2 [|c1 [|c2 [|]]]]]]]; try discriminate.
  cbn. intros H.
  repeat (apply andb_prop in H as [H ?]).
  by exists a1, a2, b1, b2, c1, c2.
Qed.

(** C10 (amended).  On a grid built by [setPaint] calls, for every pair
    of non-negative coordinates and every 7-character hex colour [c],
    [getPaint] right after [setPaint] returns [c] with its hex digits in
    lower case when [c] is not '#000000', and null when it is. *)
Theorem paintgrid_roundtrip_up_to_case
    (ops : list (Z * Z * string)) (x y : Z) (c : string) :
  0 <= x -> 0 <= y -> is_hex_color c = true ->
  getPaint x y (setPaint x y c (paint_all ops))
  = Returned (if String.eqb c "#000000" then None else Some (lowercase c)).
Proof.
  intros Hx Hy Hc.
  rewrite getPaint_setPaint_bytes by auto using paint_all_ok.
  apply is_hex_color_inv in Hc
    as (a1 & a2 & b1 & b2 & c1 & c2 & -> & ? & ? & ? & ? & ? & ?).
  destruct (hex_pair_roundtrip a1 a2) as (r & Er & Hr & Hhr & Zr); [done..|].
  destruct (hex_pair_roundtrip b1 b2) as (g & Eg & Hg & Hhg & Zg); [done..|].
  destruct (hex_pair_roundtrip c1 c2) as (b & Eb & Hb & Hhb & Zb); [done..|].
  change (slice 1 3 (String "#" (String a1 (String a2 (String b1 (String b2 (String c1 (String c2 ""))))))))
    with (String a1 (String a2 "")).
  change (slice 3 5 (String "#" (String a1 (String a2 (String b1 (String b2 (String c1 (String c2 ""))))))))
    with (String b1 (String b2 "")).
  change (slice 5 7 (String "#" (String a1 (String a2 (String b1 (String b2 (String c1 (String c2 ""))))))))
    with (String c1 (String c2 "")).
  rewrite Er, Eg, Eb. cbn [from_option]. unfold id. cbv zeta.
  rewrite !Z.mod_small by lia.
  rewrite Hhr, Hhg, Hhb, Zr, Zg, Zb.
  cbn [lowercase String.eqb].
  change (lower "#") with "#"%char. cbn [Ascii.eqb Bool.eqb].
  cbn [String.append].
  destruct (Ascii.eqb a1 "0"), (Ascii.eqb a2 "0"), (Ascii.eqb b1 "0"),
    (Ascii.eqb b2 "0"), (Ascii.eqb c1 "0"), (Ascii.eqb c2 "0"); reflexivity.
Qed.

(** C10, counterexample: '#FF4500' comes back as '#ff4500'. *)
Lemma uppercase_colour_does_not_round_trip :
  is_hex_color "#FF4500" = true
  /\ getPaint 0 0 (setPaint 0 0 "#FF4500" newGrid) = Returned (Some "#ff4500")
  /\ getPaint 0 0 (setPaint 0 0 "#FF4500" newGrid) <> Returned (Some "#FF4500").
Proof. split; [reflexivity|]. split; [reflexivity|]. vm_compute. discriminate. Qed.

Lemma paintgrid_roundtrip_up_to_case_witness :
  getPaint 1234 5678 (setPaint 1234 5678 "#3690EA" (paint_all [(1, 2, "#FFFFFF")]))
  = Returned (Some "#3690ea").
Proof.
  exact (paintgrid_roundtrip_up_to_case [(1, 2, "#FFFFFF")] 1234 5678 "#3690EA"
           ltac:(lia) ltac:(lia) eq_refl).
Defined.

(** * Further properties of the code *)

Module AFB := AnimationFrameBatcher.
Module PCh := PaintChannel.
Module CI := CanvasInteraction.
Module PX := PixelCanvas.
Module PXB := PixelCanvasBatch.
Import PaintGridReads.
Import ParseCoordinate.
Import Viewport.
Import MoreSamples.

(** ** Strokes *)

Lemma minor_offset_bounds a b k :
  0 < a -> 0 <= b -> 0 <= k <= a -> 0 <= minor_offset a b k <= b.
Proof.
  intros Ha Hb Hk.
  assert (H : 2 * k * b - a <= 2 * minor_offset a b k * a < 2 * k * b + a)
    by (apply minor_offset_spec; [lia | reflexivity]).
  set (j := minor_offset a b k) in *. nia.
Qed.

Lemma cell_at_step x0 y0 x1 y1 k :
  0 <= k < Z.max (Z.abs (x1 - x0)) (Z.abs (y1 - y0)) ->
  Z.max (Z.abs (cell_x (cell_at x0 y0 x1 y1 (k + 1)) - cell_x (cell_at x0 y0 x1 y1 k)))
        (Z.abs (cell_y (cell_at x0 y0 x1 y1 (k + 1)) - cell_y (cell_at x0 y0 x1 y1 k)))
  = 1.
Proof.
  intros Hk. unfold cell_at.
  set (a := Z.abs (x1 - x0)) in *. set (b := Z.abs (y1 - y0)) in *.
  assert (Hsx : (if x0 <? x1 then 1 else -1) = 1 \/ (if x0 <? x1 then 1 else -1) = -1)
    by (destruct (x0 <? x1); auto).
  assert (Hsy : (if y0 <? y1 then 1 else -1) = 1 \/ (if y0 <? y1 then 1 else -1) = -1)
    by (destruct (y0 <? y1); auto).
  set (sx := if x0 <? x1 then 1 else -1) in *.
  set (sy := if y0 <? y1 then 1 else -1) in *.
  assert (Ha : 0 <= a) by (subst a; lia).
  assert (Hb : 0 <= b) by (subst b; lia).
  clearbody a b sx sy.
  destruct (Z.leb_spec b a) as [Hba|Hab]; cbn [xmajor_cell ymajor_cell cell_x cell_y].
  - destruct (minor_offset_step a b k ltac:(lia) ltac:(lia)) as [_ Hn].
    cbv zeta in Hn. rewrite Hn.
    destruct (_ <? _); nia.
  - destruct (minor_offset_step_y a b k ltac:(lia)) as [_ Hn].
    cbv zeta in Hn. rewrite Hn.
    destruct (_ >? _); nia.
Qed.

Lemma lineCells_lookup from to (i : nat) :
  (i < stroke_steps from to)%nat ->
  lineCells from to !! i
  = Some (cell_at (cell_x from) (cell_y from) (cell_x to) (cell_y to) (Z.of_nat i)).
Proof.
  intros Hi. rewrite lineCells_closed_form.
  apply closed_form_lookup. unfold stroke_steps in Hi. lia.
Qed.

(** X1.  Consecutive cells of a stroke are neighbours: each step of
    [getLineCells] moves to one of the eight cells around the previous
    one, so a stroke has no gap. *)
Theorem lineCells_steps_to_a_neighbour (from to : cell) (i : nat) (c1 c2 : cell) :
  lineCells from to !! i = Some c1 ->
  lineCells from to !! S i = Some c2 ->
  Z.max (Z.abs (cell_x c2 - cell_x c1)) (Z.abs (cell_y c2 - cell_y c1)) = 1.
Proof.
  intros H1 H2.
  assert (Hi : (S i < stroke_steps from to)%nat).
  { apply lookup_lt_Some in H2. by rewrite lineCells_length in H2. }
  rewrite lineCells_lookup in H1, H2 by lia.
  injection H1 as <-. injection H2 as <-.
  replace (Z.of_nat (S i)) with (Z.of_nat i + 1) by lia.
  apply cell_at_step. unfold stroke_steps in Hi. lia.
Qed.

Lemma lineCells_steps_to_a_neighbour_witness :
  lineCells (Cell 0 0) (Cell 3 1) !! 1%nat = Some (Cell 1 0)
  /\ lineCells (Cell 0 0) (Cell 3 1) !! 2%nat = Some (Cell 2 1)
  /\ Z.max (Z.abs (cell_x (Cell 2 1) - cell_x (Cell 1 0)))
           (Z.abs (cell_y (Cell 2 1) - cell_y (Cell 1 0))) = 1.
Proof.
  split; [reflexivity|]. split; [reflexivity|].
  exact (lineCells_steps_to_a_neighbour (Cell 0 0) (Cell 3 1) 1 (Cell 1 0) (Cell 2 1)
           eq_refl eq_refl).
Defined.

Lemma cell_at_inj x0 y0 x1 y1 : Inj (=) (=) (cell_at x0 y0 x1 y1).
Proof.
  intros i j. unfold cell_at, xmajor_cell, ymajor_cell.
  destruct (_ <=? _); intros [= Hx Hy];
    [destruct (x0 <? x1) | destruct (y0 <? y1)]; lia.
Qed.

(** X2.  [getLineCells] lists no cell twice. *)
Theorem lineCells_visits_no_cell_twice (from to : cell) :
  NoDup (lineCells from to).
Proof.
  rewrite lineCells_closed_form. unfold closed_form.
  apply NoDup_fmap_2; [apply cell_at_inj | apply NoDup_seqZ].
Qed.

(** X3.  Every cell of a stroke lies in the bounding box of its two
    end points. *)
Theorem lineCells_stays_in_bounding_box (from to c : cell) :
  c ∈ lineCells from to ->
  Z.min (cell_x from) (cell_x to) <= cell_x c <= Z.max (cell_x from) (cell_x to)
  /\ Z.min (cell_y from) (cell_y to) <= cell_y c <= Z.max (cell_y from) (cell_y to).
Proof.
  rewrite lineCells_closed_form. unfold closed_form.
  intros (k & -> & Hk%elem_of_seqZ)%list_elem_of_fmap.
  destruct from as [x0 y0], to as [x1 y1]. cbn [cell_x cell_y] in *.
  unfold cell_at.
  set (a := Z.abs (x1 - x0)) in *. set (b := Z.abs (y1 - y0)) in *.
  assert (Hx : x1 = x0 + (if x0 <? x1 then 1 else -1) * a)
    by (subst a; destruct (Z.ltb_spec x0 x1); lia).
  assert (Hy : y1 = y0 + (if y0 <? y1 then 1 else -1) * b)
    by (subst b; destruct (Z.ltb_spec y0 y1); lia).
  assert (Hsx : (if x0 <? x1 then 1 else -1) = 1 \/ (if x0 <? x1 then 1 else -1) = -1)
    by (destruct (x0 <? x1); auto).
  assert (Hsy : (if y0 <? y1 then 1 else -1) = 1 \/ (if y0 <? y1 then 1 else -1) = -1)
    by (destruct (y0 <? y1); auto).
  set (sx := if x0 <? x1 then 1 else -1) in *.
  set (sy := if y0 <? y1 then 1 else -1) in *.
  assert (Ha : 0 <= a) by (subst a; lia).
  assert (Hb : 0 <= b) by (subst b; lia).
  clearbody a b sx sy.
  destruct (Z.leb_spec b a) as [Hba|Hab]; cbn [xmajor_cell ymajor_cell cell_x cell_y].
  - rewrite Z.max_l in Hk by lia.
    destruct (Z.eq_dec a 0) as [->|Ha0].
    + assert (b = 0) as -> by lia. assert (k = 0) as -> by lia.
      unfold minor_offset. change ((2 * 0 * 0 + 0 - 1) `div` (2 * 0)) with 0. lia.
    + pose proof (minor_offset_bounds a b k ltac:(lia) Hb ltac:(lia)). nia.
  - rewrite Z.max_r in Hk by lia.
    pose proof (minor_offset_bounds b a k ltac:(lia) Ha ltac:(lia)). nia.
Qed.

Lemma lineCells_stays_in_bounding_box_witness :
  Cell 2 1 ∈ lineCells (Cell 0 0) (Cell 3 1)
  /\ Z.min 0 3 <= 2 <= Z.max 0 3 /\ Z.min 0 1 <= 1 <= Z.max 0 1.
Proof.
  split; [by apply (bool_decide_unpack _)|].
  exact (lineCells_stays_in_bounding_box (Cell 0 0) (Cell 3 1) (Cell 2 1)
           ltac:(by apply (bool_decide_unpack _))).
Defined.

(** ** Reading a [PaintGrid] *)

Lemma chunk_same_cell x y x' y' :
  0 <= x -> 0 <= y ->
  chunkKey x' y' = chunkKey x y -> chunkIndex x' y' = chunkIndex x y ->
  x' = x /\ y' = y.
Proof.
  intros Hx Hy Hk Hi. unfold chunkKey in Hk.
  apply hashCoordinate_inj in Hk as [Hqx Hqy].
  unfold chunkIndex, chunkSize in *.
  assert (0 <= x') by (pose proof (Z.div_pos x 1000 Hx ltac:(lia)); 
    destruct (Z.lt_ge_cases x' 0); [|done];
    pose proof (Z.div_lt_upper_bound x' 1000 0 ltac:(lia) ltac:(lia)); lia).
  assert (0 <= y') by (pose proof (Z.div_pos y 1000 Hy ltac:(lia)); 
    destruct (Z.lt_ge_cases y' 0); [|done];
    pose proof (Z.div_lt_upper_bound y' 1000 0 ltac:(lia) ltac:(lia)); lia).
  rewrite !Z.rem_mod_nonneg in Hi by lia.
  pose proof (Z.div_mod x 1000 ltac:(lia)). pose proof (Z.div_mod x' 1000 ltac:(lia)).
  pose proof (Z.div_mod y 1000 ltac:(lia)). pose proof (Z.div_mod y' 1000 ltac:(lia)).
  pose proof (Z.mod_pos_bound x 1000 ltac:(lia)). pose proof (Z.mod_pos_bound x' 1000 ltac:(lia)).
  pose proof (Z.mod_pos_bound y 1000 ltac:(lia)). pose proof (Z.mod_pos_bound y' 1000 ltac:(lia)).
  lia.
Qed.

Lemma chunkIndex_multiple x y : exists n, chunkIndex x y = 3 * n.
Proof. unfold chunkIndex. eexists. apply Z.mul_comm. Qed.

Lemma getPaint_fresh_chunk x y :
  0 <= x -> 0 <= y ->
  forall chunk, u8_length chunk = CHUNK_BYTES ->
  match u8_get (chunkIndex x y) chunk, u8_get (chunkIndex x y + 1) chunk,
        u8_get (chunkIndex x y + 2) chunk with
  | Some _, Some _, Some _ => True
  | _, _, _ => False
  end.
Proof.
  intros Hx Hy chunk Hlen.
  destruct (chunkIndex_range x y Hx Hy) as [Hlo Hhi].
  unfold u8_get. rewrite Hlen.
  repeat match goal with
  | |- context [(0 <=? ?i) && (?i <? CHUNK_BYTES)] =>
      replace ((0 <=? i) && (i <? CHUNK_BYTES)) with true
        by (symmetry; apply andb_true_iff; split; [apply Z.leb_le|apply Z.ltb_lt]; lia)
  end.
  done.
Qed.

Lemma getPaint_setPaint_other x y x' y' color g :
  grid_ok g -> 0 <= x -> 0 <= y -> (x', y') <> (x, y) ->
  getPaint x y (setPaint x' y' color g) = getPaint x y g.
Proof.
  intros Hg Hx Hy Hne. unfold getPaint, setPaint. cbn [grid].
  destruct (decide (chunkKey x' y' = chunkKey x y)) as [Ek|Nk];
    [|by rewrite lookup_insert_ne].
  rewrite Ek, lookup_insert_eq.
  assert (Hi : chunkIndex x' y' <> chunkIndex x y).
  { intros Ei. destruct (chunk_same_cell x y x' y' Hx Hy Ek Ei). congruence. }
  destruct (chunkIndex_multiple x y) as [n Hn].
  destruct (chunkIndex_multiple x' y') as [n' Hn'].
  set (i := chunkIndex x y) in *. set (i' := chunkIndex x' y') in *.
  rewrite !u8_get_set_ne by lia.
  destruct (grid g !! chunkKey x y) as [chunk|] eqn:E; cbn [default from_option id]; [done|].
  destruct (chunkIndex_range x y Hx Hy) as [Hlo Hhi]. fold i in Hlo, Hhi.
  unfold u8_get, u8_new. cbn [u8_length u8_data]. fold CHUNK_BYTES.
  rewrite !lookup_empty. cbn [default from_option id].
  repeat match goal with
  | |- context [(0 <=? ?j) && (?j <? CHUNK_BYTES)] =>
      replace ((0 <=? j) && (j <? CHUNK_BYTES)) with true
        by (symmetry; apply andb_true_iff; split; [apply Z.leb_le|apply Z.ltb_lt]; lia)
  end.
  reflexivity.
Qed.

Lemma paint_all_snoc ops x y color :
  paint_all (ops ++ [(x, y, color)]) = setPaint x y color (paint_all ops).
Proof. unfold paint_all. by rewrite fold_left_app. Qed.

Lemma last_set_snoc x y ops x' y' color :
  last_set x y (ops ++ [(x', y', color)])
  = if (x' =? x) && (y' =? y) then Some color else last_set x y ops.
Proof.
  induction ops as [|[[a b] c] ops IH]; cbn.
  - by destruct (_ && _).
  - rewrite IH. destruct ((x' =? x) && (y' =? y)); [done|done].
Qed.

(** X4.  On a grid built by [setPaint] calls, [getPaint] at
    non-negative coordinates returns what the last [setPaint] on that
    very cell stored (its bytes as lower-case hex, null for the bytes
    0,0,0) and null when the cell was never set: writes to other cells
    never show through. *)
Theorem getPaint_reads_the_last_setPaint
    (ops : list (Z * Z * string)) (x y : Z) :
  0 <= x -> 0 <= y ->
  getPaint x y (paint_all ops) = Returned (last_set x y ops ≫= stored_color).
Proof.
  intros Hx Hy. induction ops as [|[[x' y'] color] ops IH] using rev_ind.
  - reflexivity.
  - rewrite paint_all_snoc, last_set_snoc.
    destruct (Z.eqb_spec x' x) as [->|Nx]; cbn [andb].
    + destruct (Z.eqb_spec y' y) as [->|Ny].
      * rewrite getPaint_setPaint_bytes by auto using paint_all_ok.
        unfold stored_color. cbn [mbind option_bind]. cbv zeta.
        by destruct (_ && _).
      * rewrite getPaint_setPaint_other by (auto using paint_all_ok; congruence).
        exact IH.
    + rewrite getPaint_setPaint_other by (auto using paint_all_ok; congruence).
      exact IH.
Qed.

Lemma getPaint_reads_the_last_setPaint_witness :
  getPaint 7 7 (paint_all [(7, 7, "#112233"); (8, 7, "#FFFFFF"); (7, 7, "#AbCdEf")])
  = Returned (Some "#abcdef").
Proof.
  exact (getPaint_reads_the_last_setPaint
           [(7, 7, "#112233"); (8, 7, "#FFFFFF"); (7, 7, "#AbCdEf")] 7 7
           ltac:(lia) ltac:(lia)).
Defined.

(** X5.  When the byte index of a cell is negative, which negative
    coordinates produce because [%] keeps the sign of the dividend,
    [getPaint] right after [setPaint] on that cell throws instead of
    returning a colour or null. *)
Theorem getPaint_throws_at_a_negative_index
    (x y : Z) (color : string) (g : PaintGrid) :
  chunkIndex x y < 0 ->
  getPaint x y (setPaint x y color g) = Threw.
Proof.
  intros Hi. unfold getPaint, setPaint. cbn [grid].
  rewrite lookup_insert_eq.
  set (i := chunkIndex x y) in *.
  assert (forall a, u8_get i a = None) as Hnone.
  { intros a. unfold u8_get. destruct (Z.leb_spec 0 i); [lia|done]. }
  by rewrite Hnone.
Qed.

Lemma getPaint_throws_at_a_negative_index_witness :
  chunkIndex (-1) 0 < 0
  /\ getPaint (-1) 0 (setPaint (-1) 0 "#FF4500" newGrid) = Threw.
Proof.
  split; [reflexivity|].
  exact (getPaint_throws_at_a_negative_index (-1) 0 "#FF4500" newGrid eq_refl).
Defined.

(** ** Cell keys read back *)

Lemma split_comma_join a b :
  comma_free a = true -> comma_free b = true ->
  split_comma (a +:+ "," +:+ b) = [a; b].
Proof.
  intros Ha Hb.
  assert (Hb' : split_comma b = [b]).
  { clear Ha. induction b as [|c b IH]; [done|].
    cbn in Hb. cbn [split_comma].
    destruct (Ascii.eqb c ","); [done|]. cbn in Hb. by rewrite IH. }
  assert (Ht : split_comma ("," +:+ b) = [""; b]).
  { change (split_comma ("," +:+ b)) with ("" :: split_comma b). by rewrite Hb'. }
  generalize dependent ("," +:+ b). intros t Ht.
  induction a as [|c a IH].
  - exact Ht.
  - cbn in Ha.
    change (split_comma (String c a +:+ t))
      with (if Ascii.eqb c ","%char then "" :: split_comma (a +:+ t)
            else match split_comma (a +:+ t) with
                 | [] => [String c ""]
                 | first :: others => String c first :: others
                 end).
    destruct (Ascii.eqb c ","); [done|]. cbn in Ha.
    by rewrite IH.
Qed.

Lemma digit_value_pretty_N_char d :
  (d < 10)%N -> digit_value (pretty_N_char d) = Some (Z.of_N d).
Proof.
  intros Hd.
  assert (d = 0 ∨ d = 1 ∨ d = 2 ∨ d = 3 ∨ d = 4 ∨ d = 5
          ∨ d = 6 ∨ d = 7 ∨ d = 8 ∨ d = 9)%N as H by lia.
  repeat (destruct H as [->|H]; [reflexivity|]). by subst.
Qed.

Lemma decimal_pretty_N_go x s v w :
  decimal s = Some (v, w) ->
  exists w', decimal (pretty_N_go x s) = Some (Z.of_N x * w + v, w').
Proof.
  revert s v w. induction (N.lt_wf_0 x) as [x _ IH]; intros s v w Hs.
  assert (x = 0 ∨ 0 < x)%N as [->|Hx] by lia.
  - rewrite pretty_N_go_0. exists w. rewrite Hs. repeat f_equal; lia.
  - rewrite pretty_N_go_step by done.
    destruct (IH (x `div` 10)%N ltac:(by apply N.div_lt)
                (String (pretty_N_char (x `mod` 10)) s)
                (Z.of_N (x `mod` 10) * w + v) (10 * w)) as [w' Hw'].
    { cbn [decimal]. rewrite digit_value_pretty_N_char by (apply N.mod_lt; lia).
      by rewrite Hs. }
    exists w'. rewrite Hw'. f_equal. f_equal.
    pose proof (N.div_mod x 10 ltac:(lia)) as Hdm.
    apply (f_equal Z.of_N) in Hdm.
    rewrite N2Z.inj_add, N2Z.inj_mul in Hdm. change (Z.of_N 10) with 10 in Hdm.
    set (q := Z.of_N (x `div` 10)) in *. set (r := Z.of_N (x `mod` 10)) in *.
    rewrite Hdm. ring.
Qed.

Lemma Number_digits c rest v w :
  decimal (String c rest) = Some (v, w) -> Number (String c rest) = Some v.
Proof.
  intros H.
  assert (Hd : is_Some (digit_value c)).
  { cbn [decimal] in H. destruct (digit_value c); [by eexists|done]. }
  assert (Hm : c <> "-"%char) by (intros ->; by destruct Hd).
  assert (Hp : c <> "+"%char) by (intros ->; by destruct Hd).
  assert (Number (String c rest) = fst <$> decimal (String c rest)) as ->.
  { clear H Hd. destruct c as [[] [] [] [] [] [] [] []]; try reflexivity;
      destruct rest; try reflexivity; congruence. }
  by rewrite H.
Qed.

Lemma pretty_pos_digits p :
  exists c rest w,
    pretty (N.pos p) = String c rest
    /\ decimal (String c rest) = Some (Z.pos p, w).
Proof.
  unfold pretty, pretty_N.
  destruct (decide (N.pos p = 0%N)) as [|_]; [done|].
  destruct (decimal_pretty_N_go (N.pos p) "" 0 1 eq_refl) as [w' H].
  replace (Z.of_N (N.pos p) * 1 + 0) with (Z.pos p) in H by lia.
  destruct (pretty_N_go (N.pos p) "") as [|c rest] eqn:E.
  { cbn in H. discriminate. }
  by exists c, rest, w'.
Qed.

Lemma Number_pretty (z : Z) : Number (pretty z) = Some z.
Proof.
  destruct z as [|p|p].
  - reflexivity.
  - destruct (pretty_pos_digits p) as (c & rest & w & E & H).
    change (pretty (Z.pos p)) with (pretty (N.pos p)). rewrite E.
    by apply Number_digits with w.
  - destruct (pretty_pos_digits p) as (c & rest & w & E & H).
    change (pretty (Z.neg p)) with ("-" +:+ pretty (N.pos p)). rewrite E.
    change (Number ("-" +:+ String c rest))
      with (Z.opp <$> (fst <$> decimal (String c rest))).
    by rewrite H.
Qed.

Lemma parseCoordinate_hashCoordinate (x y : Z) :
  parseCoordinate (hashCoordinate x y) = (Some x, Some y).
Proof.
  unfold parseCoordinate, hashCoordinate.
  rewrite split_comma_join by apply pretty_Z_comma_free.
  cbn. by rewrite !Number_pretty.
Qed.

(** X6.  [parseCoordinate] inverts [hashCoordinate] on all pairs of
    integers. *)
Theorem parseCoordinate_inverts_hashCoordinate (x y : Z) :
  parseCoordinate (hashCoordinate x y) = (Some x, Some y).
Proof. apply parseCoordinate_hashCoordinate. Qed.

(** ** The two batchers of lib/performance.ts *)

Section AFBFacts.
Context {T : Type}.
Implicit Types (b : AFB.batcher T) (o : AFB.op T) (os : list (AFB.op T)).

Lemma afb_run_snoc os o : AFB.run (os ++ [o]) = AFB.apply (AFB.run os) o.
Proof. unfold AFB.run. by rewrite fold_left_app. Qed.

Lemma afb_inv_apply b o : AFB.consistent b -> AFB.consistent (AFB.apply b o).
Proof.
  intros (Hs & Hf & Hd). destruct o as [item| |]; simpl.
  - unfold AFB.add, AFB.schedule. simpl.
    destruct (AFB.isScheduled b) eqn:E; simpl.
    + split; [|split; [|done]].
      * split; [intros _; by destruct (AFB.items b)|done].
      * intros _. apply Hf, Hs. done.
    + split; [|split; [|done]].
      * split; [intros _; by destruct (AFB.items b)|done].
      * intros _. simpl. lia.
  - unfold AFB.frame. destruct (AFB.frames b) as [|n] eqn:En.
    { split; [done|]. split; [|done]. intros Hi. specialize (Hf Hi). lia. }
    unfold AFB.flush. simpl.
    destruct (AFB.items b) as [|x l] eqn:Ei; simpl.
    + split; [exact Hs|]. split; [done|done].
    + split; [done|]. split; [done|].
      apply Forall_app. split; [done|]. by constructor.
  - unfold AFB.clear. simpl. split; [done|]. split; [done|done].
Qed.

Lemma afb_inv_run os : AFB.consistent (AFB.run os).
Proof.
  induction os as [|o os IH] using rev_ind.
  - cbn. split; [done|]. split; [done|constructor].
  - rewrite afb_run_snoc. by apply afb_inv_apply.
Qed.

Lemma afb_added_snoc os o :
  AFB.added (os ++ [o])
  = AFB.added os ++ match o with AFB.Add item => [item] | _ => [] end.
Proof. unfold AFB.added. rewrite flat_map_app. cbn. by rewrite app_nil_r. Qed.

(** X7.  AnimationFrameBatcher, after any sequence of [add], frames
    and [clear]: items are waiting exactly when [isScheduled] is set, a
    requested frame is then still to run, the callback never received an
    empty list, and one more frame leaves no item waiting. *)
Theorem frame_batcher_never_strands_an_item (os : list (AFB.op T)) :
  let b := AFB.run os in
  (AFB.isScheduled b = true <-> AFB.items b <> [])
  /\ (AFB.items b <> [] -> (1 <= AFB.frames b)%nat)
  /\ Forall (fun l => l <> []) (AFB.delivered b)
  /\ AFB.items (AFB.frame b) = [].
Proof.
  cbv zeta. destruct (afb_inv_run os) as (Hs & Hf & Hd).
  split; [done|]. split; [done|]. split; [done|].
  unfold AFB.frame. destruct (AFB.frames (AFB.run os)) as [|n] eqn:En.
  - destruct (AFB.items (AFB.run os)) eqn:Ei; [done|].
    specialize (Hf ltac:(done)). lia.
  - unfold AFB.flush. simpl. by destruct (AFB.items (AFB.run os)).
Qed.

(** X8.  AnimationFrameBatcher without [clear]: the batches handed to
    the callback, followed by the items still waiting, are the added
    items in order, each exactly once. *)
Theorem frame_batcher_delivers_in_order_once (os : list (AFB.op T)) :
  forallb (fun o => negb (AFB.is_clear o)) os = true ->
  concat (AFB.delivered (AFB.run os)) ++ AFB.items (AFB.run os) = AFB.added os.
Proof.
  induction os as [|o os IH] using rev_ind; [done|].
  rewrite forallb_app. intros [Hos Ho]%andb_prop. specialize (IH Hos).
  rewrite afb_run_snoc, afb_added_snoc, <- IH.
  set (b := AFB.run os). clearbody b. clear IH Hos.
  destruct o as [item| |]; cbn [AFB.apply]; [| |done].
  - unfold AFB.add, AFB.schedule. cbn.
    destruct (AFB.isScheduled b); cbn; by rewrite app_assoc.
  - rewrite app_nil_r. unfold AFB.frame.
    destruct (AFB.frames b); [done|]. unfold AFB.flush. cbn.
    destruct (AFB.items b) as [|x l]; [done|]. cbn.
    rewrite concat_app. cbn. by rewrite !app_nil_r.
Qed.

End AFBFacts.

Lemma frame_batcher_delivers_in_order_once_witness :
  concat (AFB.delivered (AFB.run [AFB.Add 1; AFB.Add 2; AFB.Frame; AFB.Add 3]))
    ++ AFB.items (AFB.run [AFB.Add 1; AFB.Add 2; AFB.Frame; AFB.Add 3])
  = [1; 2; 3].
Proof.
  exact (frame_batcher_delivers_in_order_once
           [AFB.Add 1; AFB.Add 2; AFB.Frame; AFB.Add 3] eq_refl).
Defined.


Lemma size_set_pos {V} k (v : V) (m : JsMap.t V) : JsMap.size (JsMap.set k v m) <> 0%nat.
Proof.
  pose proof (get_set_eq k v m) as H. unfold JsMap.size.
  by destruct (JsMap.set k v m).
Qed.

Lemma enqueue_one_pending b e :
  b_timeout (enqueue_one b e) = true
  /\ (JsMap.size (b_paints (enqueue_one b e))
      + JsMap.size (b_deletes (enqueue_one b e)) <> 0)%nat.
Proof.
  destruct e as [p|d]; (split; [done|]).
  - pose proof (size_set_pos (hashCoordinate (pu_x p) (pu_y p)) p (b_paints b)).
    unfold enqueue_one, addPaint, scheduleBatch. cbn [b_paints b_deletes]. lia.
  - pose proof (size_set_pos (hashCoordinate (pd_x d) (pd_y d)) d (b_deletes b)).
    unfold enqueue_one, addDelete, scheduleBatch. cbn [b_paints b_deletes]. lia.
Qed.

(** X9.  PaintBatcher, after any enqueues on a new batcher: the
    timeout is pending exactly when something was enqueued,
    [processBatch] hands over a batch exactly then and leaves the
    batcher as new, so a second [processBatch] delivers nothing. *)
Theorem paint_batcher_flushes_once (es : list enqueue) :
  let b := enqueue_all es newBatcher in
  (b_timeout b = true <-> es <> [])
  /\ (snd (processBatch b) = None <-> es = [])
  /\ fst (processBatch b) = newBatcher
  /\ processBatch (fst (processBatch b)) = (newBatcher, None).
Proof.
  cbv zeta. destruct es as [|e es _] using rev_ind.
  - cbn. split; [split; done|]. split; [done|]. done.
  - rewrite enqueue_all_snoc.
    destruct (enqueue_one_pending (enqueue_all es newBatcher) e) as [Ht Hn].
    set (b := enqueue_one _ e) in *. clearbody b.
    assert (es ++ [e] <> []) by (by destruct es).
    unfold processBatch.
    destruct (JsMap.size (b_paints b)) eqn:E1, (JsMap.size (b_deletes b)) eqn:E2;
      try lia; cbn; (split; [done|]); (split; [done|]); done.
Qed.

(** ** Subscribers of the realtime channel *)

Lemma has_In cb l : PCh.has cb l = true <-> In cb l.
Proof.
  unfold PCh.has. rewrite existsb_exists. split.
  - intros (f & Hf & E). apply Nat.eqb_eq in E. by subst.
  - intros H. exists cb. split; [done|apply Nat.eqb_refl].
Qed.

Lemma has_app cb l f :
  PCh.has cb (l ++ [f]) = PCh.has cb l || Nat.eqb cb f.
Proof. unfold PCh.has. rewrite existsb_app. cbn. by rewrite orb_false_r. Qed.

Lemma has_filter cb f l :
  PCh.has cb (List.filter (fun g => negb (Nat.eqb f g)) l)
  = negb (Nat.eqb cb f) && PCh.has cb l.
Proof.
  apply eq_true_iff_eq.
  rewrite andb_true_iff, negb_true_iff, !has_In, filter_In, negb_true_iff,
    !Nat.eqb_neq.
  split; intros [? ?]; split; congruence.
Qed.

Lemma subscribed_snoc cb os o :
  PCh.subscribed cb (os ++ [o])
  = match o with
    | PCh.Subscribe f => if Nat.eqb cb f then true else PCh.subscribed cb os
    | PCh.Unsubscribe f => if Nat.eqb cb f then false else PCh.subscribed cb os
    | _ => PCh.subscribed cb os
    end.
Proof. unfold PCh.subscribed. by rewrite fold_left_app. Qed.

Lemma channel_run_snoc os o : PCh.run (os ++ [o]) = PCh.apply (PCh.run os) o.
Proof. unfold PCh.run. by rewrite fold_left_app. Qed.

Lemma subscribers_invariant os :
  List.NoDup (PCh.subscribers (PCh.run os))
  /\ forall cb, PCh.has cb (PCh.subscribers (PCh.run os)) = PCh.subscribed cb os.
Proof.
  induction os as [|o os [Hnd Hhas]] using rev_ind.
  - split; [constructor|done].
  - rewrite channel_run_snoc. set (c := PCh.run os) in *.
    destruct o as [|b| |f|f]; cbn [PCh.apply].
    + unfold PCh.connect. split.
      * by destruct (PCh.opened c).
      * intros cb. rewrite subscribed_snoc, <- Hhas. by destruct (PCh.opened c).
    + split; [done|]. intros cb. by rewrite subscribed_snoc, <- Hhas.
    + unfold PCh.disconnect. split.
      * by destruct (PCh.opened c).
      * intros cb. rewrite subscribed_snoc, <- Hhas. by destruct (PCh.opened c).
    + unfold PCh.subscribe. cbn [PCh.subscribers].
      destruct (PCh.has f (PCh.subscribers c)) eqn:Ef.
      * split; [done|]. intros cb. rewrite subscribed_snoc, <- Hhas.
        destruct (Nat.eqb_spec cb f) as [->|]; done.
      * split.
        -- apply NoDup_ListNoDup, NoDup_app. apply NoDup_ListNoDup in Hnd.
           split; [done|]. split; [|apply NoDup_singleton].
           intros g Hg ->%list_elem_of_singleton.
           apply list_elem_of_In, has_In in Hg. congruence.
        -- intros cb. rewrite subscribed_snoc, <- Hhas, has_app.
           destruct (Nat.eqb_spec cb f) as [->|]; [by rewrite orb_true_r|by rewrite orb_false_r].
    + unfold PCh.unsubscribe. cbn [PCh.subscribers]. split.
      * by apply List.NoDup_filter.
      * intros cb. rewrite subscribed_snoc, <- Hhas, has_filter.
        by destruct (Nat.eqb_spec cb f).
Qed.

Lemma notify_filter (throws : PCh.callback -> bool) m cb l :
  List.NoDup l ->
  List.filter (PCh.called cb)
    (List.flat_map
       (fun f => PCh.Called f m :: if throws f then [PCh.ConsoleError] else []) l)
  = if PCh.has cb l then [PCh.Called cb m] else [].
Proof.
  intros Hnd. induction Hnd as [|f l Hf Hnd IH].
  { reflexivity. }
  cbn [List.flat_map]. rewrite List.filter_app, IH.
  cbn [List.filter PCh.called PCh.has existsb].
  destruct (Nat.eqb_spec cb f) as [->|Hne]; cbn [orb].
  - assert (PCh.has f l = false) as ->.
    { destruct (PCh.has f l) eqn:E; [|done]. apply has_In in E. done. }
    destruct (throws f); cbn; done.
  - fold (PCh.has cb l). destruct (throws f); cbn; done.
Qed.

(** X10.  PaintChannel, after any sequence of connect, status change,
    disconnect, subscribe and unsubscribe: [notifySubscribers] calls a
    callback exactly once when its last subscribe was not followed by an
    unsubscribe of it, and never otherwise.  Subscribing twice does not
    double the calls, connection changes keep the subscriptions, and a
    callback that throws does not keep the others from being called. *)
Theorem subscribers_are_notified_exactly_once
    (os : list PCh.op) (throws : PCh.callback -> bool)
    (message : RealtimeMessage) (cb : PCh.callback) :
  List.filter (PCh.called cb) (PCh.notifySubscribers throws message (PCh.run os))
  = if PCh.subscribed cb os then [PCh.Called cb message] else [].
Proof.
  destruct (subscribers_invariant os) as [Hnd Hhas].
  unfold PCh.notifySubscribers. rewrite notify_filter by done. by rewrite Hhas.
Qed.

(** ** PaintCanvas: remote updates, rendering and local paints *)

Lemma key_eqb_cell x y x' y' :
  (x' =? x) && (y' =? y) = false -> getPaintKey x' y' <> getPaintKey x y.
Proof.
  intros H E. apply hashCoordinate_inj in E as [-> ->].
  by rewrite !Z.eqb_refl in H.
Qed.

(** One remote message: what it leaves alone, and the frame request. *)
Lemma remote_step closed m s :
  let s' := handleRealtimeUpdate closed m s in
  pendingPaints s' = pendingPaints s
  /\ paintBatch s' = paintBatch s
  /\ batchTimeout s' = batchTimeout s
  /\ userId s' = userId s
  /\ (forall x y, names_cell x y m = false ->
        paints s' !! getPaintKey x y = paints s !! getPaintKey x y)
  /\ exists new,
       effects s' = effects s ++ new
       /\ forallb is_render new = true
       /\ List.filter is_render_call new = []
       /\ (length (List.filter is_frame_request new)
           + (if animationFrame s then 1 else 0)
           = if animationFrame s' then 1 else 0)%nat.
Proof.
  cbv zeta. destruct m as [d|d|t]; cbn [handleRealtimeUpdate names_cell].
  - destruct (is_user closed (pu_owner d)).
    { repeat (split; [done|]). exists []. rewrite app_nil_r.
      by destruct (animationFrame s). }
    unfold scheduleCanvasRender. cbn.
    destruct (animationFrame s) eqn:A; cbn.
    + repeat (split; [done|]). split.
      * intros x y H. apply key_eqb_cell in H.
        destruct (pu_color d); [by rewrite lookup_insert_ne|by rewrite lookup_delete_ne].
      * exists [ScheduleCanvasRender]. by rewrite A.
    + repeat (split; [done|]). split.
      * intros x y H. apply key_eqb_cell in H.
        destruct (pu_color d); [by rewrite lookup_insert_ne|by rewrite lookup_delete_ne].
      * exists [ScheduleCanvasRender; RequestAnimationFrame].
        rewrite <- app_assoc. done.
  - destruct (is_user closed (pd_owner d)).
    { repeat (split; [done|]). exists []. rewrite app_nil_r.
      by destruct (animationFrame s). }
    unfold scheduleCanvasRender. cbn.
    destruct (animationFrame s) eqn:A; cbn.
    + repeat (split; [done|]). split.
      * intros x y H. apply key_eqb_cell in H. by rewrite lookup_delete_ne.
      * exists [ScheduleCanvasRender]. by rewrite A.
    + repeat (split; [done|]). split.
      * intros x y H. apply key_eqb_cell in H. by rewrite lookup_delete_ne.
      * exists [ScheduleCanvasRender; RequestAnimationFrame].
        rewrite <- app_assoc. done.
  - repeat (split; [done|]). exists []. rewrite app_nil_r.
    by destruct (animationFrame s).
Qed.

Lemma remote_run_snoc closed ms m s :
  remote_run closed (ms ++ [m]) s
  = handleRealtimeUpdate closed m (remote_run closed ms s).
Proof. unfold remote_run. by rewrite fold_left_app. Qed.

Lemma run_remote ms s :
  run (Remote <$> ms) s = remote_run subscribed_userId ms s.
Proof.
  induction ms as [|m ms IH] using rev_ind; [done|].
  rewrite fmap_app. cbn [fmap list_fmap]. by rewrite run_snoc, remote_run_snoc, IH.
Qed.

Lemma remote_run_frame closed ms s :
  let s' := remote_run closed ms s in
  pendingPaints s' = pendingPaints s
  /\ paintBatch s' = paintBatch s
  /\ batchTimeout s' = batchTimeout s
  /\ userId s' = userId s
  /\ (forall x y, existsb (names_cell x y) ms = false ->
        paints s' !! getPaintKey x y = paints s !! getPaintKey x y)
  /\ exists new,
       effects s' = effects s ++ new
       /\ forallb is_render new = true
       /\ List.filter is_render_call new = []
       /\ (length (List.filter is_frame_request new)
           + (if animationFrame s then 1 else 0)
           = if animationFrame s' then 1 else 0)%nat.
Proof.
  cbv zeta. induction ms as [|m ms IH] using rev_ind.
  - cbn. repeat (split; [done|]). exists []. rewrite app_nil_r.
    by destruct (animationFrame s).
  - rewrite remote_run_snoc.
    destruct IH as (P & B & T & U & L & new & E & R & N & F).
    destruct (remote_step closed m (remote_run closed ms s))
      as (P' & B' & T' & U' & L' & new' & E' & R' & N' & F').
    split; [congruence|]. split; [congruence|]. split; [congruence|].
    split; [congruence|]. split.
    + intros x y H. rewrite existsb_app in H. cbn in H.
      apply orb_false_elim in H as [H1 H2]. rewrite orb_false_r in H2.
      rewrite L' by done. by apply L.
    + exists (new ++ new'). rewrite E', E, app_assoc. split; [done|].
      split; [by rewrite forallb_app, R, R'|].
      split; [by rewrite List.filter_app, N, N'|].
      rewrite List.filter_app, length_app. lia.
Qed.

(** X11.  Whatever remote messages arrive, and whatever user id the
    handler closed over, the pending paints, the write batch and its
    timeout stay as they are, cells no message names keep their cache
    entry, and the only effects are calls of [scheduleCanvasRender] and
    frame requests: nothing is broadcast or sent to the store in
    response.  The messages of a session go to the handler subscribed at
    mount. *)
Theorem remote_updates_leave_local_writes_alone
    (closed : option string) (ms : list RealtimeMessage) (s : state) :
  let s' := remote_run closed ms s in
  pendingPaints s' = pendingPaints s
  /\ paintBatch s' = paintBatch s
  /\ batchTimeout s' = batchTimeout s
  /\ (forall x y, existsb (names_cell x y) ms = false ->
        paints s' !! getPaintKey x y = paints s !! getPaintKey x y)
  /\ (exists new, effects s' = effects s ++ new /\ forallb is_render new = true)
  /\ run (Remote <$> ms) s = remote_run subscribed_userId ms s.
Proof.
  cbv zeta.
  destruct (remote_run_frame closed ms s) as (P & B & T & U & L & new & E & R & N & F).
  repeat (split; [done|]). split; [by exists new|apply run_remote].
Qed.

Lemma render_run_snoc closed es e s :
  render_run closed (es ++ [e]) s = render_step closed (render_run closed es s) e.
Proof. unfold render_run. by rewrite fold_left_app. Qed.

(** X12.  Render coalescing: over any interleaving of remote messages
    and frames run by the browser, and whatever user id the handler
    closed over, the frames requested equal the renders done by frame
    callbacks plus the one frame still pending, if any.  So however many
    updates arrive between two frames, one frame is requested and one
    render follows. *)
Theorem every_frame_request_renders_once
    (closed : option string) (es : list render_event) (s : state) :
  let s' := render_run closed es s in
  exists new,
    effects s' = effects s ++ new
    /\ (length (List.filter is_frame_request new)
        + (if animationFrame s then 1 else 0)
        = length (List.filter is_render_call new)
          + (if animationFrame s' then 1 else 0))%nat.
Proof.
  cbv zeta. induction es as [|e es (new & E & F)] using rev_ind.
  - exists []. cbn. by rewrite app_nil_r.
  - rewrite render_run_snoc. set (s1 := render_run closed es s) in *.
    destruct e as [m|]; cbn [render_step].
    + destruct (remote_step closed m s1) as (_ & _ & _ & _ & _ & new' & E' & _ & N' & F').
      exists (new ++ new'). rewrite E', E, app_assoc. split; [done|].
      rewrite !List.filter_app, !length_app, N'. cbn [length]. lia.
    + destruct (animationFrame s1) eqn:A.
      * exists (new ++ [RenderCanvas]). unfold animationFrameCallback. cbn.
        rewrite E, app_assoc. split; [done|].
        rewrite !List.filter_app, !length_app. cbn. lia.
      * exists new. rewrite A. done.
Qed.


(** X13.  A local paint that passes the guards of [handlePaint]
    writes the pending entry and the cache entry of the cell, with the
    session user and the clock value, leaves the entries of every other
    cell as they are, appends the paint to the write batch and sets the
    batch timeout; its effects are one call of [renderCanvas], one
    broadcast (a logged error when the channel is down) and the batch
    timeout, in that order.  The call of [renderCanvas] is made by the
    handler itself, before the component renders again. *)
Theorem handlePaint_records_the_paint
    (x y : Z) (color : string) (now : Z) (s : state) (uid : string) :
  userId s = Some uid -> String.eqb uid "" = false -> mapReady s = true ->
  let s' := handlePaint x y color now s in
  pendingPaints s' !! getPaintKey x y
  = Some (mkPendingPaint x y (Some color) uid now)
  /\ paints s' !! getPaintKey x y
     = Some (mkPaint None x y (Some color) uid None
               (Some (userName s)) (Some (userAvatar s)))
  /\ (forall x' y', (x' =? x) && (y' =? y) = false ->
        pendingPaints s' !! getPaintKey x' y' = pendingPaints s !! getPaintKey x' y'
        /\ paints s' !! getPaintKey x' y' = paints s !! getPaintKey x' y')
  /\ paintBatch s'
     = mkPaintBatch
         (batch_paints (paintBatch s) ++ [paint_update uid s x y color now])
         (batch_deletes (paintBatch s))
  /\ batchTimeout s' = true
  /\ exists sent,
       effects s' = effects s ++ [RenderCanvas; sent; SetBatchTimeout]
       /\ sent = (if channelConnected s
                  then Broadcast (MsgPaint (paint_update uid s x y color now))
                  else ConsoleError).
Proof.
  intros U N M. cbv zeta.
  destruct (handlePaint_fields x y color now s uid U N M) as (P & C & B).
  assert (E : effects (handlePaint x y color now s)
              = effects s ++ [RenderCanvas;
                  (if channelConnected s
                   then Broadcast (MsgPaint (paint_update uid s x y color now))
                   else ConsoleError); SetBatchTimeout]).
  { unfold handlePaint. rewrite U, N, M. cbn.
    destruct (channelConnected s); cbn; by rewrite <- !app_assoc. }
  split; [by rewrite P, lookup_insert_eq|].
  split; [by rewrite C, lookup_insert_eq|].
  split.
  { intros x' y' H. apply key_eqb_cell in H.
    rewrite P, C. by rewrite !lookup_insert_ne. }
  split.
  { unfold handlePaint. rewrite U, N, M. cbn. by destruct (channelConnected s). }
  split.
  { unfold handlePaint. rewrite U, N, M. cbn. by destruct (channelConnected s). }
  eexists. split; [exact E|done].
Qed.

Lemma handlePaint_records_the_paint_witness :
  pendingPaints (handlePaint 5 5 "#FF4500" 1700 (initial (Some "me")))
    !! getPaintKey 5 5
  = Some echo_pending.
Proof.
  exact (proj1 (handlePaint_records_the_paint 5 5 "#FF4500" 1700
                  (initial (Some "me")) "me" eq_refl eq_refl eq_refl)).
Defined.

(** ** PaintCanvas: flush and viewport load *)

Lemma fold_delete_lookup_iff {A} (l : list string) (m : gmap string A) k :
  fold_left (fun m key => delete key m) l m !! k
  = if bool_decide (k ∈ l) then None else m !! k.
Proof.
  revert m. induction l as [|b l IH]; intros m; cbn [fold_left]; [done|].
  rewrite IH. destruct (decide (k = b)) as [->|Hne].
  - rewrite lookup_delete_eq.
    rewrite (bool_decide_eq_true_2 (b ∈ b :: l)) by apply list_elem_of_here.
    by destruct (bool_decide (b ∈ l)).
  - rewrite lookup_delete_ne by done.
    destruct (bool_decide_reflect (k ∈ l)) as [Hin|Hin].
    + by rewrite bool_decide_eq_true_2 by (by apply list_elem_of_further).
    + rewrite bool_decide_eq_false_2; [done|].
      intros [?|?]%elem_of_cons; done.
Qed.

Lemma empty_batch (b : PaintBatch) :
  batch_paints b = [] -> batch_deletes b = [] -> b = mkPaintBatch [] [].
Proof. destruct b; cbn; by intros -> ->. Qed.

Lemma filter_store_requests (l : list Store.request) :
  List.filter is_store_request (StoreRequest <$> l) = StoreRequest <$> l.
Proof. induction l as [|r l IH]; [done|]. cbn. by rewrite IH. Qed.

(** X14.  [processPaintBatch] works from the batch it closed over.
    When that batch is empty it does nothing.  Otherwise it sends
    exactly the requests of that batch to the store, removes from the
    pending map exactly the keys of that batch, leaves the paint cache
    untouched, and empties the live batch whatever the live batch holds:
    a paint appended since the closure was built is dropped without
    being sent. *)
Theorem processPaintBatch_sends_the_batch_it_closed_over
    (closedBatch : PaintBatch) (s : state) :
  let s' := processPaintBatch closedBatch s in
  (closedBatch = mkPaintBatch [] [] /\ s' = s)
  \/ (closedBatch <> mkPaintBatch [] []
      /\ paintBatch s' = mkPaintBatch [] []
      /\ paints s' = paints s
      /\ (forall k, pendingPaints s' !! k
                    = if bool_decide (k ∈ batch_keys closedBatch) then None
                      else pendingPaints s !! k)
      /\ List.filter is_store_request (effects s')
         = List.filter is_store_request (effects s)
           ++ (StoreRequest <$> batch_requests closedBatch)).
Proof.
  cbv zeta.
  assert (C : (batch_paints closedBatch = [] /\ batch_deletes closedBatch = [])
              \/ (closedBatch <> mkPaintBatch [] []
                  /\ processPaintBatch closedBatch s
                     = emit RenderCanvas
                         (set_pendingPaints
                            (fun prev =>
                               fold_left (fun newPending key => delete key newPending)
                                         (batch_keys closedBatch) prev)
                            (set_paintBatch (fun _ => mkPaintBatch [] [])
                               (emit_all (StoreRequest <$> batch_requests closedBatch)
                                         s))))).
  { unfold processPaintBatch.
    destruct closedBatch as [[|p ps] [|d ds]]; cbn [batch_paints batch_deletes];
      [by left|right; by split..]. }
  destruct C as [[P D]|[Hne ->]].
  - left. split; [by apply empty_batch|]. unfold processPaintBatch. by rewrite P, D.
  - right. split; [done|].
    cbn -[batch_keys batch_requests]. split; [done|]. split; [done|].
    split; [intros k; apply fold_delete_lookup_iff|].
    rewrite !List.filter_app, filter_store_requests. cbn. by rewrite app_nil_r.
Qed.

Lemma processPaintBatch_sends_the_batch_it_closed_over_witness :
  batch_paints (paintBatch two_paints_batched) = [first_paint; second_paint]
  /\ paintBatch (processPaintBatch batch_after_first_paint two_paints_batched)
     = mkPaintBatch [] []
  /\ List.filter is_store_request
       (effects (processPaintBatch batch_after_first_paint two_paints_batched))
     = [StoreRequest (Store.Upsert [upsert_of first_paint])].
Proof.
  split; [reflexivity|].
  destruct (processPaintBatch_sends_the_batch_it_closed_over
              batch_after_first_paint two_paints_batched)
    as [[H _]|(_ & B & _ & _ & R)]; [discriminate H|].
  split; [exact B|exact R].
Defined.


Lemma cell_index_mono (a b : Q) :
  (a <= b)%Q ->
  Qfloor (a / Grid.CELL_SIZE_METERS) <= Qfloor (b / Grid.CELL_SIZE_METERS)
  /\ Qfloor (a / Grid.CELL_SIZE_METERS) <= Qceiling (b / Grid.CELL_SIZE_METERS).
Proof.
  intros H.
  assert (Hd : (a / Grid.CELL_SIZE_METERS <= b / Grid.CELL_SIZE_METERS)%Q).
  { unfold Qdiv. apply Qmult_le_compat_r; [done|]. by vm_compute. }
  split; [by apply Qfloor_resp_le|].
  rewrite Zle_Qle.
  eapply Qle_trans; [apply Qfloor_le|].
  eapply Qle_trans; [exact Hd|apply Qle_ceiling].
Qed.

(** X15.  The cell [handleMapClick] computes for a click inside the
    map bounds lies in the range [loadVisiblePaints] queries for those
    bounds. *)
Theorem visible_range_covers_every_click_inside
    (bounds : LngLatBounds) (lng lat : Q) :
  (getWest bounds <= lng)%Q -> (lng <= getEast bounds)%Q ->
  (getSouth bounds <= lat)%Q -> (lat <= getNorth bounds)%Q ->
  in_range (visibleRange bounds) (Grid.clickCell lng lat).1
           (Grid.clickCell lng lat).2 = true.
Proof.
  intros Hw He Hs Hn. unfold in_range, visibleRange, Grid.clickCell. cbn.
  destruct (cell_index_mono _ _ Hw) as [H1 _].
  destruct (cell_index_mono _ _ He) as [_ H2].
  destruct (cell_index_mono _ _ Hs) as [H3 _].
  destruct (cell_index_mono _ _ Hn) as [_ H4].
  rewrite !andb_true_iff, !Z.leb_le. done.
Qed.

Lemma visible_range_covers_every_click_inside_witness :
  in_range (visibleRange (mkBounds (120 # 1) (121 # 1) (13 # 1) (14 # 1)))
    (Grid.clickCell (1207 # 10) (139 # 10)).1
    (Grid.clickCell (1207 # 10) (139 # 10)).2 = true.
Proof.
  exact (visible_range_covers_every_click_inside
           (mkBounds (120 # 1) (121 # 1) (13 # 1) (14 # 1)) (1207 # 10) (139 # 10)
           ltac:(by vm_compute) ltac:(by vm_compute)
           ltac:(by vm_compute) ltac:(by vm_compute)).
Defined.

Lemma newPaints_snoc data p :
  newPaints (data ++ [p])
  = <[getPaintKey (paint_x p) (paint_y p) := p]> (newPaints data).
Proof. unfold newPaints. by rewrite fold_left_app. Qed.

Lemma last_row_snoc x y data p :
  last_row x y (data ++ [p])
  = if (paint_x p =? x) && (paint_y p =? y) then Some p else last_row x y data.
Proof.
  induction data as [|q data IH]; cbn.
  - by destruct (_ && _).
  - rewrite IH. destruct ((paint_x p =? x) && (paint_y p =? y)); [done|done].
Qed.

Lemma newPaints_lookup data x y :
  newPaints data !! getPaintKey x y = last_row x y data.
Proof.
  induction data as [|p data IH] using rev_ind; [done|].
  rewrite newPaints_snoc, last_row_snoc.
  destruct ((paint_x p =? x) && (paint_y p =? y)) eqn:E.
  - apply andb_prop in E as [H1%Z.eqb_eq H2%Z.eqb_eq]. subst x y.
    by rewrite lookup_insert_eq.
  - rewrite lookup_insert_ne; [done|].
    intros H. apply hashCoordinate_inj in H as [H1 H2].
    by rewrite H1, H2, !Z.eqb_refl in E.
Qed.

(** X16.  A viewport load that gets rows replaces the paint cache as a
    whole: each cell holds the last row returned for it and every entry
    that was cached before but is not in the response is gone; pending
    paints and the write batch are kept, and one render follows.  A
    failed load keeps the cache. *)
Theorem loadVisiblePaints_replaces_the_cache
    (data : list Paint) (s : state) :
  mapReady s = true -> no_user (userId s) = false ->
  let s' := loadVisiblePaints (Rows data) s in
  (forall x y, paints s' !! getPaintKey x y = last_row x y data)
  /\ pendingPaints s' = pendingPaints s
  /\ paintBatch s' = paintBatch s
  /\ effects s' = effects s ++ [RenderCanvas]
  /\ paints (loadVisiblePaints Failed s) = paints s.
Proof.
  intros M U. cbv zeta. unfold loadVisiblePaints. rewrite M, U. cbn.
  split; [|done]. intros x y. apply newPaints_lookup.
Qed.

Lemma loadVisiblePaints_replaces_the_cache_witness :
  paints (loadVisiblePaints (Rows [stored_paint]) painted_by_alice) !! getPaintKey 1 1
  = None
  /\ paints painted_by_alice !! getPaintKey 1 1 = cached_paint alice_paint.
Proof.
  split; [|reflexivity].
  exact (proj1 (loadVisiblePaints_replaces_the_cache [stored_paint] painted_by_alice
                  eq_refl eq_refl) 1 1).
Defined.

(** ** CollaborativeCanvas: strokes from pointer events *)

Lemma has_get {V} k (m : JsMap.t V) :
  JsMap.has k m = true <-> is_Some (JsMap.get k m).
Proof. unfold JsMap.has. destruct (JsMap.get k m); split; (done || by eauto || by intros []). Qed.

Lemma paintPixelInstant_paint x y color now s :
  CC.canvasReady s = true ->
  let s' := CC.paintPixelInstant x y (Some color) now s in
  CC.canvasReady s' = true
  /\ CC.mapReady s' = CC.mapReady s
  /\ CC.paintBuffer s'
     = JsMap.set (hashCoordinate x y)
         (CC.mkBufferedWrite x y (Some color) now true) (CC.paintBuffer s)
  /\ CC.paintedCells s'
     = <[hashCoordinate x y :=
           CC.mkCellInfo (Some color) (CC.user_id <$> CC.user s)
             (Some (CC.displayName (CC.user s)))
             (CC.user s ≫= CC.user_avatar_url)]> (CC.paintedCells s).
Proof.
  intros R. cbv zeta. unfold CC.paintPixelInstant. rewrite R. cbn.
  unfold CC.drawPixel. cbn. destruct (CC.mapReady s) eqn:M; cbn; done.
Qed.

Lemma stroke_snoc buffer color now cells c acc :
  fold_left (CI.strokeCell buffer color now) (cells ++ [c]) acc
  = CI.strokeCell buffer color now
      (fold_left (CI.strokeCell buffer color now) cells acc) c.
Proof. by rewrite fold_left_app. Qed.

Lemma stroke_fold buffer color now cells s :
  CC.canvasReady s = true ->
  let r := CI.paintStroke buffer color now cells s in
  CC.canvasReady r = true
  /\ (forall k, JsMap.has k buffer = true ->
        JsMap.get k (CC.paintBuffer r) = JsMap.get k (CC.paintBuffer s)
        /\ CC.paintedCells r !! k = CC.paintedCells s !! k)
  /\ (forall k, k ∉ CI.cell_key <$> cells ->
        JsMap.get k (CC.paintBuffer r) = JsMap.get k (CC.paintBuffer s)
        /\ CC.paintedCells r !! k = CC.paintedCells s !! k)
  /\ (forall c, c ∈ cells -> JsMap.has (CI.cell_key c) buffer = false ->
        (exists t, JsMap.get (CI.cell_key c) (CC.paintBuffer r)
                   = Some (CC.mkBufferedWrite (cell_x c) (cell_y c)
                             (Some color) t true))
        /\ CC.ci_color <$> CC.paintedCells r !! CI.cell_key c
           = Some (Some color)).
Proof.
  intros R. cbv zeta. unfold CI.paintStroke.
  induction cells as [|c cells IH] using rev_ind.
  - cbn. split; [done|]. split; [done|]. split; [done|].
    intros c Hc. by apply elem_of_nil in Hc.
  - rewrite stroke_snoc. destruct IH as (R' & Hkeep & Hout & Hnew).
    set (acc := fold_left _ cells (0%nat, s)) in *.
    unfold CI.strokeCell. fold (CI.cell_key c).
    destruct (JsMap.has (CI.cell_key c) buffer) eqn:Hc.
    + split; [done|]. split; [done|]. split.
      * intros k Hk. apply Hout. rewrite fmap_app in Hk.
        intros Hin. apply Hk. apply elem_of_app. by left.
      * intros c' [Hin|Hin%list_elem_of_singleton]%elem_of_app Hfree.
        -- by apply Hnew.
        -- subst c'. congruence.
    + cbn [snd].
      destruct (paintPixelInstant_paint (cell_x c) (cell_y c) color (now acc.1) acc.2 R')
        as (R'' & _ & B & P).
      fold (CI.cell_key c) in B, P.
      split; [done|]. split; [|split].
      * intros k Hk. rewrite B, P.
        assert (k <> CI.cell_key c) by congruence.
        rewrite get_set_ne, lookup_insert_ne by done. by apply Hkeep.
      * intros k Hk. rewrite fmap_app in Hk. rewrite B, P.
        assert (k <> CI.cell_key c).
        { intros ->. apply Hk. apply elem_of_app. right. cbn. apply list_elem_of_here. }
        rewrite get_set_ne, lookup_insert_ne by done. apply Hout.
        intros Hin. apply Hk. apply elem_of_app. by left.
      * intros c' Hin Hfree. rewrite B, P.
        destruct (decide (CI.cell_key c' = CI.cell_key c)) as [E|E].
        -- rewrite E, get_set_eq, lookup_insert_eq.
           apply hashCoordinate_inj in E as [-> ->]. split; [by eexists|done].
        -- rewrite get_set_ne, lookup_insert_ne by done.
           apply elem_of_app in Hin as [Hin|Hin%list_elem_of_singleton]; [|by subst].
           by apply Hnew.
Qed.

(** X17.  A move event while drawing buffers a write for every cell of
    the line from the last painted cell to the current one and makes the
    current cell the last painted one.  Cells that already had a
    buffered write, and cells off the line, keep their buffered write
    and cache entry; the other cells of the line get the selected colour
    both in the buffer and in the cache. *)
Theorem stroke_buffers_every_cell_of_the_line
    (e : CI.pointer) (now : nat -> Z) (c : CI.canvas) (l : cell) :
  CI.isPaintingMode c = true ->
  CC.mapReady (CI.component c) = true ->
  CC.canvasReady (CI.component c) = true ->
  CI.isDrawing c = true ->
  CI.lastPaintedCell c = Some l ->
  CI.p_type e = CI.Mousemove \/ CI.p_type e = CI.Touchmove ->
  let c' := CI.handleCanvasInteraction e now c in
  let line := Rasterizer.lineCells l (Cell (CI.p_gridX e) (CI.p_gridY e)) in
  let before := CC.paintBuffer (CI.component c) in
  let after := CC.paintBuffer (CI.component c') in
  CI.lastPaintedCell c' = Some (Cell (CI.p_gridX e) (CI.p_gridY e))
  /\ (forall cl, cl ∈ line -> JsMap.has (CI.cell_key cl) after = true)
  /\ (forall k, JsMap.has k before = true \/ k ∉ CI.cell_key <$> line ->
        JsMap.get k after = JsMap.get k before
        /\ CC.paintedCells (CI.component c') !! k
           = CC.paintedCells (CI.component c) !! k)
  /\ (forall cl, cl ∈ line -> JsMap.has (CI.cell_key cl) before = false ->
        CC.bw_color <$> JsMap.get (CI.cell_key cl) after
        = Some (Some (CI.selectedColor c))
        /\ CC.ci_color <$> CC.paintedCells (CI.component c') !! CI.cell_key cl
           = Some (Some (CI.selectedColor c))).
Proof.
  intros Hmode Hmap Hcanvas Hdraw Hlast Htype. cbv zeta.
  assert (E : CI.handleCanvasInteraction e now c
              = CI.mkCanvas
                  (CI.paintStroke (CC.paintBuffer (CI.component c))
                     (CI.selectedColor c) now
                     (Rasterizer.lineCells l (Cell (CI.p_gridX e) (CI.p_gridY e)))
                     (CI.component c))
                  (CI.isPaintingMode c) (CI.isSpacePressed c)
                  (CI.isRightMouseDown c) (CI.selectedColor c) (CI.isDrawing c)
                  (Some (Cell (CI.p_gridX e) (CI.p_gridY e)))).
  { unfold CI.handleCanvasInteraction. rewrite Hmode, Hmap, Hcanvas. cbn [negb orb].
    destruct Htype as [-> | ->]; by rewrite Hdraw, Hlast. }
  rewrite E. cbn [CI.lastPaintedCell CI.component].
  destruct (stroke_fold (CC.paintBuffer (CI.component c)) (CI.selectedColor c) now
              (Rasterizer.lineCells l (Cell (CI.p_gridX e) (CI.p_gridY e)))
              (CI.component c) Hcanvas) as (R & Hkeep & Hout & Hnew).
  split; [done|]. split; [|split].
  - intros cl Hin.
    destruct (JsMap.has (CI.cell_key cl) (CC.paintBuffer (CI.component c))) eqn:Hb.
    + apply has_get. destruct (Hkeep _ Hb) as [-> _]. by apply has_get.
    + apply has_get. destruct (Hnew cl Hin Hb) as [[t ->] _]. by eexists.
  - intros k [Hk|Hk]; [by apply Hkeep|by apply Hout].
  - intros cl Hin Hb. destruct (Hnew cl Hin Hb) as [[t ->] Hp]. done.
Qed.

Lemma stroke_buffers_every_cell_of_the_line_witness :
  CI.lastPaintedCell (CI.handleCanvasInteraction move_to_3_1 clock stroke_start)
  = Some (Cell 3 1)
  /\ JsMap.has (CI.cell_key (Cell 2 1))
       (CC.paintBuffer (CI.component
          (CI.handleCanvasInteraction move_to_3_1 clock stroke_start))) = true.
Proof.
  pose proof (stroke_buffers_every_cell_of_the_line move_to_3_1 clock stroke_start
                (Cell 0 0) eq_refl eq_refl eq_refl eq_refl eq_refl
                (or_introl eq_refl)) as (H1 & H2 & _).
  split; [exact H1|].
  exact (H2 (Cell 2 1) ltac:(by apply (bool_decide_unpack _))).
Defined.

(** X18.  After the Space key is released, a pointer event that is not
    an erase (right button) changes nothing: strokes stop and a press
    paints no cell. *)
Theorem releasing_space_ends_the_stroke
    (e : CI.pointer) (now : nat -> Z) (c : CI.canvas) :
  CI.right_button e || CI.isRightMouseDown c = false ->
  CI.handleCanvasInteraction e now (CI.handleKeyUp "Space" c)
  = CI.handleKeyUp "Space" c.
Proof.
  intros H. unfold CI.handleKeyUp. cbn [String.eqb Ascii.eqb Bool.eqb].
  unfold CI.handleCanvasInteraction.
  cbn [CI.isPaintingMode CI.component CI.isSpacePressed CI.isRightMouseDown
       CI.isDrawing andb].
  rewrite H.
  destruct (negb (CI.isPaintingMode c) || negb (CC.mapReady (CI.component c))
            || negb (CC.canvasReady (CI.component c))); [done|].
  by destruct (CI.p_type e).
Qed.

Lemma releasing_space_ends_the_stroke_witness :
  CI.handleCanvasInteraction press_at_3_1 clock (CI.handleKeyUp "Space" stroke_start)
  = CI.handleKeyUp "Space" stroke_start.
Proof.
  exact (releasing_space_ends_the_stroke press_at_3_1 clock stroke_start eq_refl).
Defined.

(** ** CollaborativeCanvas: initial load and flush *)

Lemma set_fresh {V} k (v : V) (m : JsMap.t V) :
  k ∉ JsMap.keys m -> JsMap.set k v m = m ++ [(k, v)].
Proof.
  induction m as [|[k' v'] m IH]; [done|].
  cbn. intros H. apply not_elem_of_cons in H as [Hne H].
  destruct (String.eqb_spec k k'); [done|]. by rewrite IH.
Qed.

Lemma newPaintedCells_snoc data r :
  CI.newPaintedCells (data ++ [r])
  = JsMap.set (CI.row_key r) (CC.cached_cell r) (CI.newPaintedCells data).
Proof. unfold CI.newPaintedCells. by rewrite fold_left_app. Qed.

Lemma newPaintedCells_distinct data :
  NoDup (CI.row_key <$> data) ->
  CI.newPaintedCells data = CI.loaded_entry <$> data.
Proof.
  induction data as [|r data IH] using rev_ind; [done|].
  rewrite fmap_app. cbn [fmap list_fmap]. intros H.
  apply NoDup_app in H as (H1 & H2 & _).
  rewrite newPaintedCells_snoc, IH by done.
  rewrite set_fresh; [by rewrite fmap_app|].
  unfold JsMap.keys. change (@List.map) with (@fmap list _).
  rewrite <- list_fmap_compose. intros Hin. apply (H2 (CI.row_key r)); [done|].
  apply list_elem_of_here.
Qed.

Lemma drawLoaded_entry s r :
  CC.mapReady s = true ->
  CI.drawLoaded s (CI.loaded_entry r) = CC.emit (CI.drawn r) s.
Proof.
  intros M. unfold CI.drawLoaded, CI.loaded_entry. cbn [fst snd]. unfold CI.row_key.
  rewrite parseCoordinate_hashCoordinate. unfold CC.drawPixel. by rewrite M.
Qed.

Lemma drawLoaded_fold data s :
  CC.mapReady s = true ->
  let s' := fold_left CI.drawLoaded (CI.loaded_entry <$> data) s in
  CC.mapReady s' = true
  /\ CC.effects s' = CC.effects s ++ (CI.drawn <$> data)
  /\ CC.paintedCells s' = CC.paintedCells s
  /\ CC.paintBuffer s' = CC.paintBuffer s.
Proof.
  intros M. cbv zeta. induction data as [|r data IH] using rev_ind.
  - cbn. by rewrite app_nil_r.
  - rewrite !fmap_app, fold_left_app. cbn [fmap list_fmap fold_left].
    destruct IH as (M1 & E & P & B).
    rewrite drawLoaded_entry by done. cbn.
    rewrite E, <- app_assoc. done.
Qed.

Lemma loaded_lookup data :
  NoDup (CI.row_key <$> data) ->
  (forall r, r ∈ data ->
     (list_to_map (CI.loaded_entry <$> data) : gmap string CC.CellInfo) !! CI.row_key r
     = Some (CC.cached_cell r))
  /\ (forall k, k ∉ CI.row_key <$> data ->
        (list_to_map (CI.loaded_entry <$> data) : gmap string CC.CellInfo) !! k = None).
Proof.
  intros Hnd.
  assert (Hfst : (CI.loaded_entry <$> data).*1 = CI.row_key <$> data).
  { rewrite <- list_fmap_compose. done. }
  split.
  - intros r Hr. apply elem_of_list_to_map; [by rewrite Hfst|].
    apply list_elem_of_fmap. by exists r.
  - intros k Hk. apply not_elem_of_list_to_map. by rewrite Hfst.
Qed.

(** X19.  [loadExistingPaints] on rows of distinct cells (the table is
    UNIQUE(x, y)) draws each row once, in order, at the coordinates read
    back from its key, which are the row's own; afterwards the cache
    holds exactly the loaded rows, and the paint buffer is untouched. *)
Theorem loadExistingPaints_draws_each_row_at_its_cell
    (data : list Store.row) (s : CC.state) :
  CC.canvasReady s = true -> CC.mapReady s = true ->
  NoDup (CI.row_key <$> data) ->
  let s' := CI.loadExistingPaints (Some data) s in
  CC.effects s' = CC.effects s ++ (CI.drawn <$> data)
  /\ (forall r, r ∈ data ->
        CC.paintedCells s' !! CI.row_key r = Some (CC.cached_cell r))
  /\ (forall k, k ∉ CI.row_key <$> data -> CC.paintedCells s' !! k = None)
  /\ CC.paintBuffer s' = CC.paintBuffer s.
Proof.
  intros R M Hnd. cbv zeta. unfold CI.loadExistingPaints.
  cbn [CC.set_paintedCells CC.canvasReady]. rewrite R.
  rewrite newPaintedCells_distinct by done.
  destruct (drawLoaded_fold data
              (CC.set_paintedCells
                 (fun _ => list_to_map (CI.loaded_entry <$> data)) s) M)
    as (_ & E & P & B).
  destruct (loaded_lookup data Hnd) as [L1 L2].
  split; [exact E|]. rewrite P. cbn [CC.set_paintedCells CC.paintedCells].
  split; [exact L1|]. split; [exact L2|exact B].
Qed.

Lemma loadExistingPaints_draws_each_row_at_its_cell_witness :
  CC.effects (CI.loadExistingPaints (Some [alice_row; bobs_row]) (CC.initial None))
  = [CC.DrawPixel 1 1 (Some "#111111"); CC.DrawPixel 2 2 (Some "#222222")].
Proof.
  exact (proj1 (loadExistingPaints_draws_each_row_at_its_cell
                  [alice_row; bobs_row] (CC.initial None) eq_refl eq_refl
                  ltac:(by apply (bool_decide_unpack _)))).
Defined.

Section Flush.
Variable upsert : string -> list Store.upsert_row -> list Store.row -> list Store.row.

Lemma flushErase_frame u closed s rows e :
  let r := CC.flushErase u closed (s, rows) e in
  CC.paintBuffer r.1 = CC.paintBuffer s
  /\ CC.paintedCells r.1 = CC.paintedCells s
  /\ exists new, CC.effects r.1 = CC.effects s ++ new
       /\ List.filter CI.is_upsert new = []
       /\ List.filter CI.is_canvas_effect new = [].
Proof.
  cbv zeta. unfold CC.flushErase.
  destruct (Store.select_single _ rows); cbn.
  - split; [done|]. split; [done|]. eexists. rewrite <- app_assoc. split; [done|]. done.
  - split; [done|]. split; [done|]. eexists. split; [done|]. done.
Qed.

Lemma flushErases_frame u closed erases s rows :
  let r := CC.flushErases u closed erases (s, rows) in
  CC.paintBuffer r.1 = CC.paintBuffer s
  /\ CC.paintedCells r.1 = CC.paintedCells s
  /\ exists new, CC.effects r.1 = CC.effects s ++ new
       /\ List.filter CI.is_upsert new = []
       /\ List.filter CI.is_canvas_effect new = [].
Proof.
  cbv zeta. revert s rows. unfold CC.flushErases.
  induction erases as [|e erases IH]; intros s rows; cbn [fold_left].
  - split; [done|]. split; [done|]. exists []. by rewrite app_nil_r.
  - destruct (flushErase_frame u closed s rows e) as (B & P & new & E & F1 & F2).
    destruct (CC.flushErase u closed (s, rows) e) as [s1 rows1]. cbn [fst] in *.
    destruct (IH s1 rows1) as (B' & P' & new' & E' & F1' & F2').
    split; [congruence|]. split; [congruence|].
    exists (new ++ new'). rewrite E', E, app_assoc. split; [done|].
    rewrite !List.filter_app, F1, F1', F2, F2'. done.
Qed.

(** X20.  The batched write of a signed-in user empties the paint
    buffer, leaves the cell cache and the canvas alone, and sends the
    buffered paints in a single upsert (none when only erases are
    buffered), in buffer order and under the user's id. *)
Theorem flushPaintBuffer_sends_the_paints_in_one_upsert
    (closed : CC.state) (rows : list Store.row) (u : CC.User) :
  CC.user closed = Some u ->
  let s' := (CC.flushPaintBuffer upsert closed rows).1 in
  let paints :=
    List.filter (fun p => negb (CC.is_erase p))
      (JsMap.values (CC.paintBuffer closed)) in
  CC.paintBuffer s' = JsMap.empty
  /\ CC.paintedCells s' = CC.paintedCells closed
  /\ exists new,
       CC.effects s' = CC.effects closed ++ new
       /\ List.filter CI.is_canvas_effect new = []
       /\ List.filter CI.is_upsert new
          = match paints with
            | [] => []
            | _ => [CC.StoreRequest (Store.Upsert (CC.paintInsert u <$> paints))]
            end.
Proof.
  intros U. cbv zeta. unfold CC.flushPaintBuffer. rewrite U.
  destruct (List.filter (fun p => negb (CC.is_erase p)) _) as [|p ps] eqn:Ep.
  - destruct (flushErases_frame u closed
                (List.filter CC.is_erase (JsMap.values (CC.paintBuffer closed)))
                (CC.set_paintBuffer (fun _ => JsMap.empty) closed) rows)
      as (B & P & new & E & F1 & F2).
    split; [exact B|]. split; [exact P|]. exists new. done.
  - match goal with
    | |- context [CC.flushErases u closed ?er (?s0, ?r0)] =>
        destruct (flushErases_frame u closed er s0 r0) as (B & P & new & E & F1 & F2)
    end.
    split; [exact B|]. split; [exact P|].
    eexists. split; [rewrite E; cbn; rewrite <- app_assoc; reflexivity|].
    cbn. rewrite F1, F2. done.
Qed.

End Flush.

Lemma flushPaintBuffer_sends_the_paints_in_one_upsert_witness :
  CC.paintBuffer (CC.flushPaintBuffer keep_rows three_paints []).1 = JsMap.empty.
Proof.
  exact (proj1 (flushPaintBuffer_sends_the_paints_in_one_upsert keep_rows
                  three_paints [] me eq_refl)).
Defined.

(** ** PixelCanvas, charges and grid columns *)

(** X21.  PixelCanvas: painting a cell again in the same colour is
    refused and changes nothing, whatever the first call did; a repeated
    paint therefore costs at most one charge and buffers at most one
    write. *)
Theorem repainting_the_same_colour_is_refused
    (x y : Z) (color : string) (now now' : Z) (s : PX.state) :
  let s1 := (PX.paintPixel x y color now s).2 in
  PX.paintPixel x y color now' s1 = (false, s1).
Proof.
  cbv zeta. unfold PX.paintPixel at 2 3.
  destruct (PX.signed_in s && (PX.charges s <=? 0)) eqn:G.
  { cbn [snd]. unfold PX.paintPixel. by rewrite G. }
  destruct (PX.same_color (PX.pixels s !! hashCoordinate x y) color) eqn:C.
  { cbn [snd]. unfold PX.paintPixel. by rewrite G, C. }
  cbn [snd]. unfold PX.paintPixel. cbn [PX.pixels PX.signed_in PX.user PX.charges].
  rewrite lookup_insert_eq. cbn [PX.same_color]. rewrite String.eqb_refl.
  match goal with |- (if ?b then _ else _) = _ => destruct b end; reflexivity.
Qed.

Lemma paintPixel_accepted x y color now s :
  (PX.paintPixel x y color now s).1 = true ->
  let s1 := (PX.paintPixel x y color now s).2 in
  PX.batchBuffer s1
  = JsMap.set (hashCoordinate x y) (PX.mkBufferedPixel x y color now)
      (PX.batchBuffer s)
  /\ PX.batchTimeout s1 = true
  /\ PX.pixels s1 = <[hashCoordinate x y := Some color]> (PX.pixels s)
  /\ PX.effects s1
     = PX.effects s
       ++ (if PX.canvasReady s then [PX.DrawPixel x y color] else [])
       ++ (if PX.batchTimeout s then [] else [PX.SetBatchTimeout]).
Proof.
  unfold PX.paintPixel.
  destruct (PX.signed_in s && (PX.charges s <=? 0)); [done|].
  destruct (PX.same_color _ _); [done|]. done.
Qed.

(** X22.  PixelCanvas: a paint accepted while an upsert is in flight is
    buffered without a new timer.  When the upsert settles, the batch
    recorded as sent is the one taken before the paint, the buffer is
    cleared and the timeout reset: the pixel stays on the local canvas
    and is in no batch. *)
Theorem paint_during_a_write_is_never_sent
    (x y : Z) (color : string) (now : Z) (w : PXB.writer)
    (batch : list PX.BufferedPixel) :
  PXB.inFlight w = Some batch ->
  PX.batchTimeout (PXB.canvas w) = true ->
  (PX.paintPixel x y color now (PXB.canvas w)).1 = true ->
  let w1 := PXB.paint x y color now w in
  let w2 := PXB.writeSettles w1 in
  JsMap.get (hashCoordinate x y) (PX.batchBuffer (PXB.canvas w1))
  = Some (PX.mkBufferedPixel x y color now)
  /\ PXB.timer w1 = PXB.timer w
  /\ PXB.sent w2 = PXB.sent w ++ [batch]
  /\ PX.batchBuffer (PXB.canvas w2) = JsMap.empty
  /\ PX.batchTimeout (PXB.canvas w2) = false
  /\ PX.pixels (PXB.canvas w2) !! hashCoordinate x y = Some (Some color).
Proof.
  intros F T A. cbv zeta.
  destruct (paintPixel_accepted x y color now (PXB.canvas w) A) as (B & T1 & P & E).
  unfold PXB.paint. cbn [PXB.canvas PXB.timer].
  split; [by rewrite B, get_set_eq|].
  split; [by rewrite T, andb_false_r, orb_false_r|].
  unfold PXB.writeSettles. cbn [PXB.inFlight PXB.canvas PXB.sent]. rewrite F.
  cbn. rewrite P, lookup_insert_eq. done.
Qed.

Lemma paint_during_a_write_is_never_sent_witness :
  PXB.inFlight write_in_flight = Some [PX.mkBufferedPixel 1 1 "#FF4500" 1690]
  /\ PXB.sent (PXB.writeSettles (PXB.paint 3 4 "#FF4500" 1700 write_in_flight))
     = [[PX.mkBufferedPixel 1 1 "#FF4500" 1690]]
  /\ PX.batchBuffer (PXB.canvas
        (PXB.writeSettles (PXB.paint 3 4 "#FF4500" 1700 write_in_flight)))
     = JsMap.empty.
Proof.
  pose proof (paint_during_a_write_is_never_sent 3 4 "#FF4500" 1700 write_in_flight
                [PX.mkBufferedPixel 1 1 "#FF4500" 1690] eq_refl eq_refl eq_refl)
    as (_ & _ & H1 & H2 & _).
  split; [reflexivity|]. split; [exact H1|exact H2].
Defined.

Lemma writer_run_snoc es e w : PXB.run (es ++ [e]) w = PXB.step (PXB.run es w) e.
Proof. unfold PXB.run. by rewrite fold_left_app. Qed.

Lemma writer_invariant es s :
  PXB.idle s ->
  let w := PXB.run es (PXB.start s) in
  PX.batchTimeout (PXB.canvas w) = PXB.timer w || PXB.in_flight w
  /\ (PXB.timer w = true -> JsMap.size (PX.batchBuffer (PXB.canvas w)) <> 0%nat)
  /\ (PXB.timer w = true -> PXB.inFlight w = None)
  /\ (PX.batchTimeout (PXB.canvas w) = false ->
      PX.batchBuffer (PXB.canvas w) = JsMap.empty).
Proof.
  intros [H0 H1]. cbv zeta. induction es as [|e es IH] using rev_ind.
  - cbn. rewrite H0. done.
  - rewrite writer_run_snoc. set (w := PXB.run es (PXB.start s)) in *.
    destruct IH as (I1 & I2 & I3 & I4).
    destruct e as [x y color now| |]; cbn [PXB.step].
    + unfold PXB.paint, PXB.in_flight. cbn [PXB.canvas PXB.timer PXB.inFlight].
      destruct (PX.paintPixel x y color now (PXB.canvas w)).1 eqn:A.
      * destruct (paintPixel_accepted x y color now (PXB.canvas w) A) as (B & T1 & P & E).
        rewrite T1, B. cbn [andb].
        assert (JsMap.size (JsMap.set (hashCoordinate x y)
                  (PX.mkBufferedPixel x y color now)
                  (PX.batchBuffer (PXB.canvas w))) <> 0%nat) as Hne.
        { pose proof (get_set_eq (hashCoordinate x y)
                        (PX.mkBufferedPixel x y color now)
                        (PX.batchBuffer (PXB.canvas w))) as G.
          unfold JsMap.size. by destruct (JsMap.set _ _ _). }
        unfold PXB.in_flight in I1.
        destruct (PX.batchTimeout (PXB.canvas w)) eqn:T; cbn [negb].
        -- rewrite orb_false_r. split; [done|]. split; [done|]. split; [done|done].
        -- rewrite orb_true_r. split; [done|]. split; [done|]. split; [|done].
           intros _. symmetry in I1. apply orb_false_elim in I1 as [_ I1].
           by destruct (PXB.inFlight w).
      * assert (E : (PX.paintPixel x y color now (PXB.canvas w)).2 = PXB.canvas w).
        { unfold PX.paintPixel in *.
          destruct (PX.signed_in (PXB.canvas w) && (PX.charges (PXB.canvas w) <=? 0)); [done|].
          destruct (PX.same_color _ _); [done|]. discriminate. }
        rewrite E. cbn [andb]. rewrite orb_false_r. done.
    + unfold PXB.timeoutFires.
      destruct (PXB.timer w) eqn:Tm;
        [|rewrite Tm; exact (conj I1 (conj I2 (conj I3 I4)))].
      specialize (I2 eq_refl). specialize (I3 eq_refl).
      destruct (JsMap.size (PX.batchBuffer (PXB.canvas w))) eqn:Sz; [done|].
      unfold PXB.in_flight in *. cbn. rewrite I1, I3. cbn.
      split; [done|]. split; [done|]. split; [done|]. intros [=].
    + unfold PXB.writeSettles.
      destruct (PXB.inFlight w) as [batch|] eqn:F;
        [|exact (conj I1 (conj I2 (conj (fun _ => F) I4)))].
      unfold PXB.in_flight. cbn.
      destruct (PXB.timer w) eqn:Tm; [by specialize (I3 eq_refl)|].
      split; [done|]. split; [done|]. split; [done|done].
Qed.

(** X23.  PixelCanvas, over any sequence of paints, timer firings and
    settled writes from an idle component: the timeout ref is set
    exactly while a timer is pending or a write is in flight, a pending
    timer always has pixels to send (the early return on an empty
    buffer, which would leave the timeout set for good, is never taken),
    and buffered pixels always have the timeout set. *)
Theorem batch_timer_never_finds_the_buffer_empty
    (es : list PXB.event) (s : PX.state) :
  PXB.idle s ->
  let w := PXB.run es (PXB.start s) in
  PX.batchTimeout (PXB.canvas w) = PXB.timer w || PXB.in_flight w
  /\ (PXB.timer w = true -> JsMap.size (PX.batchBuffer (PXB.canvas w)) <> 0%nat)
  /\ (PX.batchTimeout (PXB.canvas w) = false ->
      PX.batchBuffer (PXB.canvas w) = JsMap.empty).
Proof.
  intros H. cbv zeta. destruct (writer_invariant es s H) as (I1 & I2 & I3 & I4).
  done.
Qed.

Lemma batch_timer_never_finds_the_buffer_empty_witness :
  PX.batchTimeout (PXB.canvas write_in_flight)
  = PXB.timer write_in_flight || PXB.in_flight write_in_flight.
Proof.
  exact (proj1 (batch_timer_never_finds_the_buffer_empty
                  [PXB.Paint 1 1 "#FF4500" 1690; PXB.Fire]
                  (PX.mkState (Some "me") 5 ∅ JsMap.empty false true [])
                  (conj eq_refl eq_refl))).
Defined.


Section OneWrite.

Variable upsert : string -> list Store.upsert_row -> list Store.row -> list Store.row.

(** X24.  Charge updates of the batched write.  Both guards of one
    write read the charges its callback closed over.  A write that holds
    one paint and one erase of a row of the user, made with at least one
    charge, gives the counter back as it was when the charges were below
    capacity, and leaves it one lower when they were at capacity: the
    guard of the refund still reads the count before the debit and, at
    capacity, skips the refund.  When the paint and the erase are sent
    by two writes, each guard reads the count its own write found, and
    the counter comes back to what it was. *)
Theorem erase_refund_reads_the_charges_before_the_debit
    (closed : CC.state) (u : CC.User) (p e : CC.BufferedWrite)
    (rows : list Store.row) (existing : Store.row) (ledger : Ledger.UserPaint) :
  CC.user closed = Some u ->
  List.filter (fun w => negb (CC.is_erase w)) (JsMap.values (CC.paintBuffer closed))
  = [p] ->
  List.filter CC.is_erase (JsMap.values (CC.paintBuffer closed)) = [e] ->
  Store.select_single (CC.erase_filters u e)
    (upsert (CC.user_id u) [CC.paintInsert u p] rows) = Some existing ->
  0 < CC.userCharges closed <= CC.userCapacity closed ->
  0 < Ledger.charges ledger <= Ledger.capacity ledger ->
  CC.userCharges (CC.flushPaintBuffer upsert closed rows).1
  = (if CC.userCharges closed <? CC.userCapacity closed
     then CC.userCharges closed
     else CC.userCapacity closed - 1)
  /\ Ledger.apply Ledger.Refund (Ledger.apply (Ledger.Debit 1) ledger) = ledger.
Proof.
  intros U P E Sel Hc Hl. split.
  - unfold CC.flushPaintBuffer. rewrite U, P, E. cbn [List.map length].
    unfold CC.flushErases. cbn [fold_left]. unfold CC.flushErase. rewrite Sel.
    cbn. unfold Ledger.refund, Ledger.debit. change (Z.of_nat 1) with 1.
    destruct (Z.gtb_spec (CC.userCharges closed) 0) as [_|?]; [|lia].
    destruct (Z.ltb_spec (CC.userCharges closed) (CC.userCapacity closed)); lia.
  - destruct ledger as [cap ch regen last].
    unfold Ledger.apply, Ledger.with_charges, Ledger.debit, Ledger.refund.
    cbn [Ledger.charges Ledger.capacity Ledger.regen_seconds Ledger.last_refill_at] in *.
    change (Z.of_nat 1) with 1.
    destruct (Z.gtb_spec ch 0) as [_|?]; [|lia].
    destruct (Z.ltb_spec (Z.max 0 (ch - 1)) cap) as [_|?]; [|lia].
    f_equal. lia.
Qed.

End OneWrite.

Lemma erase_refund_reads_the_charges_before_the_debit_witness :
  CC.userCharges full_charges = 10
  /\ CC.userCharges
       (CC.flushPaintBuffer keep_rows paint_and_erase [my_row; bobs_row]).1 = 9
  /\ Ledger.apply Ledger.Refund (Ledger.apply (Ledger.Debit 1) sample_ledger)
     = sample_ledger.
Proof.
  split; [reflexivity|].
  refine (erase_refund_reads_the_charges_before_the_debit keep_rows paint_and_erase
            me paint_5_5_buffered erase_1_1_buffered [my_row; bobs_row] my_row
            sample_ledger eq_refl eq_refl eq_refl eq_refl _ (conj eq_refl _));
    by vm_compute.
Defined.


Lemma saturate_mono (a b : Q) :
  (a <= b)%Q ->
  exists i j, saturate (Js.Fin a) = Js.of_Z i /\ saturate (Js.Fin b) = Js.of_Z j
              /\ 0 <= i <= j /\ j <= MAX_INDEX.
Proof.
  intros H. cbn [saturate]. eexists _, _. split; [reflexivity|]. split; [reflexivity|].
  assert (Qfloor ((a + HALF_WORLD) / CELL_SIZE_METERS)
          <= Qfloor ((b + HALF_WORLD) / CELL_SIZE_METERS)).
  { apply Qfloor_resp_le. unfold Qdiv. apply Qmult_le_compat_r; [|by vm_compute].
    by apply Qplus_le_l. }
  unfold MAX_INDEX in *. lia.
Qed.

(** X25.  The grid column of [gridCoordsFromLatLng] is a grid index
    and never decreases when the longitude grows, whatever the
    latitudes. *)
Theorem grid_column_is_monotone_in_longitude
    (mercator_degrees : Js.number -> Js.number) (lng1 lng2 : Q)
    (lat1 lat2 : Js.number) :
  (lng1 <= lng2)%Q ->
  exists i j,
    (gridCoordsFromLatLng mercator_degrees (Js.Fin lng1) lat1).1 = Js.of_Z i
    /\ (gridCoordsFromLatLng mercator_degrees (Js.Fin lng2) lat2).1 = Js.of_Z j
    /\ 0 <= i <= j /\ j <= MAX_INDEX.
Proof.
  intros H. unfold gridCoordsFromLatLng, toWebMercator. cbn [fst].
  rewrite !clamp_axis_saturate.
  unfold Js.mul, Js.div, Js.of_Z. cbn [Qnum inject_Z Z.eqb].
  apply saturate_mono. unfold Qdiv.
  apply Qmult_le_compat_r; [|by vm_compute].
  apply Qmult_le_compat_r; [done|by vm_compute].
Qed.

Lemma grid_column_is_monotone_in_longitude_witness :
  exists i j,
    (gridCoordsFromLatLng (fun n => n) (Js.Fin (120 # 1)) (Js.Fin 0)).1 = Js.of_Z i
    /\ (gridCoordsFromLatLng (fun n => n) (Js.Fin (121 # 1)) (Js.Fin 0)).1 = Js.of_Z j
    /\ 0 <= i <= j /\ j <= MAX_INDEX.
Proof.
  exact (grid_column_is_monotone_in_longitude (fun n => n) (120 # 1) (121 # 1)
           (Js.Fin 0) (Js.Fin 0) ltac:(by vm_compute)).
Defined.
